(** * csv-merge-translate: the merge / extract / re-import pipeline of App.tsx

    A shallow embedding of the algorithmic core of [src/App.tsx]
    (the copy carried in [src/services/db.ts]): [normalizeSKU],
    [mergeFiles], [extractColumns], [handleTranslatedFileChange] and
    [replaceColumnsWithTranslations], together with the properties the
    specification states about them.

    Modelling conventions.
    - A JavaScript string is a [string] holding its UTF-8 bytes.
      [trim] removes the white space and line terminator characters of
      ECMAScript, those beyond ASCII in their UTF-8 form.  [toLowerCase]
      maps [A-Z] to [a-z] and leaves every other byte alone, which is
      the built-in on ASCII text; where a header is matched against the
      table of translated names the lower-casing is a parameter.
    - A parsed input row (the output of PapaParse / SheetJS, whose cells
      are all strings) is an association list in [Object.keys] order.
    - An object built by the program is an association list of
      [value]s, where [Undefined] is a property that is present and
      holds [undefined].
    - A JavaScript [Map] is an association list in insertion order. *)

From Stdlib Require Import List String Ascii Bool Arith ZArith Lia ZifyBool.
From Stdlib Require Import Permutation Sorted.
From Stdlib Require Import Numbers.DecimalPos Numbers.DecimalString Numbers.DecimalNat.
Import ListNotations.
Open Scope string_scope.

(* ================================================================== *)
(** ** Strings *)

Module JsString.

(** The white space of one byte: TAB, LF, VT, FF, CR and SPACE. *)
Definition isWhiteSpace (c : ascii) : bool :=
  let n := nat_of_ascii c in
  (Nat.leb 9 n && Nat.leb n 13) || Nat.eqb n 32.

(** U+00A0 in UTF-8. *)
Definition isWhiteSpace2 (c1 c2 : ascii) : bool :=
  Nat.eqb (nat_of_ascii c1) 194 && Nat.eqb (nat_of_ascii c2) 160.

(** U+1680, U+2000 to U+200A, U+2028, U+2029, U+202F, U+205F, U+3000
    and U+FEFF in UTF-8. *)
Definition isWhiteSpace3 (c1 c2 c3 : ascii) : bool :=
  let n1 := nat_of_ascii c1 in
  let n2 := nat_of_ascii c2 in
  let n3 := nat_of_ascii c3 in
  (Nat.eqb n1 225 && Nat.eqb n2 154 && Nat.eqb n3 128)
  || (Nat.eqb n1 226 && Nat.eqb n2 128
      && ((Nat.leb 128 n3 && Nat.leb n3 138)
          || Nat.eqb n3 168 || Nat.eqb n3 169 || Nat.eqb n3 175))
  || (Nat.eqb n1 226 && Nat.eqb n2 129 && Nat.eqb n3 159)
  || (Nat.eqb n1 227 && Nat.eqb n2 128 && Nat.eqb n3 128)
  || (Nat.eqb n1 239 && Nat.eqb n2 187 && Nat.eqb n3 191).

(** The number of bytes of the white space character that [s] begins
    with, 0 when it begins with none. *)
Definition whiteSpaceLength (s : string) : nat :=
  match s with
  | EmptyString => 0
  | String c1 s1 =>
      if isWhiteSpace c1 then 1
      else match s1 with
           | EmptyString => 0
           | String c2 s2 =>
               if isWhiteSpace2 c1 c2 then 2
               else match s2 with
                    | EmptyString => 0
                    | String c3 _ => if isWhiteSpace3 c1 c2 c3 then 3 else 0
                    end
           end
  end.

(** [s.trimStart()] *)
Fixpoint trimStart (s : string) : string :=
  match s with
  | EmptyString => EmptyString
  | String c1 s1 =>
      if isWhiteSpace c1 then trimStart s1
      else match s1 with
           | EmptyString => s
           | String c2 s2 =>
               if isWhiteSpace2 c1 c2 then trimStart s2
               else match s2 with
                    | EmptyString => s
                    | String c3 s3 =>
                        if isWhiteSpace3 c1 c2 c3 then trimStart s3 else s
                    end
           end
  end.

(** [s.trimEnd()]: a byte is kept unless white space only runs from it
    to the end. *)
Fixpoint trimEnd (s : string) : string :=
  match s with
  | EmptyString => EmptyString
  | String c s' =>
      match trimStart s with
      | EmptyString => EmptyString
      | _ => String c (trimEnd s')
      end
  end.

(** [s.trim()] *)
Definition trim (s : string) : string := trimEnd (trimStart s).

Definition lowerChar (c : ascii) : ascii :=
  let n := nat_of_ascii c in
  if Nat.leb 65 n && Nat.leb n 90 then ascii_of_nat (n + 32) else c.

(** [s.toLowerCase()] *)
Fixpoint toLowerCase (s : string) : string :=
  match s with
  | EmptyString => EmptyString
  | String c s' => String (lowerChar c) (toLowerCase s')
  end.

Fixpoint take (n : nat) (s : string) : string :=
  match n, s with
  | S n', String c s' => String c (take n' s')
  | _, _ => EmptyString
  end.

Fixpoint drop (n : nat) (s : string) : string :=
  match n, s with
  | S n', String _ s' => drop n' s'
  | _, _ => s
  end.

(** [s.slice(n)] and [s.substring(n)] for [0 <= n] *)
Definition sliceFrom (n : nat) (s : string) : string := drop n s.

(** [s.slice(0, -n)] for [0 < n] *)
Definition sliceDropEnd (n : nat) (s : string) : string :=
  take (String.length s - n) s.

(** [s.startsWith(p)] *)
Definition startsWith (s p : string) : bool := String.prefix p s.

(** [s.indexOf(p)], [None] for -1 *)
Fixpoint indexOf (s p : string) : option nat :=
  if String.prefix p s then Some 0
  else match s with
       | EmptyString => None
       | String _ s' => option_map S (indexOf s' p)
       end.

(** [s.includes(p)] *)
Definition includes (s p : string) : bool :=
  match indexOf s p with Some _ => true | None => false end.

(** [s.replace(p, '')] with a string pattern: the first occurrence
    of [p] is removed. *)
Definition removeFirst (s p : string) : string :=
  match indexOf s p with
  | Some i => take i s ++ drop (i + String.length p) s
  | None => s
  end.

(** [s.match(/^lit/i)]: the matched text, when [s] begins with [lit]
    up to letter case.  [lit] is a lower-case literal. *)
Definition matchPrefixI (lit s : string) : option string :=
  let m := take (String.length lit) s in
  if String.eqb (toLowerCase m) lit then Some m else None.

(** [s.match(/lit$/i)]: the matched text, when [s] ends with [lit]
    up to letter case. *)
Definition matchSuffixI (lit s : string) : option string :=
  let m := drop (String.length s - String.length lit) s in
  if String.eqb (toLowerCase m) lit then Some m else None.

(** [xs.join(sep)] *)
Fixpoint join (sep : string) (xs : list string) : string :=
  match xs with
  | [] => EmptyString
  | [x] => x
  | x :: rest => x ++ sep ++ join sep rest
  end.

(** A string is truthy when it is not empty. *)
Definition truthy (s : string) : bool := negb (String.eqb s EmptyString).

End JsString.
Import JsString.

(* ================================================================== *)
(** ** normalizeSKU *)

(** The two literals of the regular expressions [/^b34/i] and [/v1$/i].
    Without the [u] flag, [i] never takes a character beyond ASCII for
    an ASCII letter: the letters matched are those of [toLowerCase]. *)
Definition PREFIX : string := "b34".
Definition SUFFIX : string := "v1".

Definition normalizeSKU (sku : string) : string :=
  if negb (truthy sku) then ""
  else
    let normalized := trim sku in
    let normalized :=
      match matchPrefixI PREFIX normalized with
      | Some m => sliceFrom (String.length m) normalized
      | None => normalized
      end in
    let normalized :=
      match matchSuffixI SUFFIX normalized with
      | Some m => sliceDropEnd (String.length m) normalized
      | None => normalized
      end in
    trim normalized.

(** The normalizer as the specification words it: trim, strip the
    prefix literal if present, strip the suffix literal if present,
    trim again. *)
Definition hasPrefixI (lit s : string) : bool :=
  String.eqb (toLowerCase (take (String.length lit) s)) lit.

Definition hasSuffixI (lit s : string) : bool :=
  String.eqb (toLowerCase (drop (String.length s - String.length lit) s)) lit.

Definition stripPrefixI (lit s : string) : string :=
  if hasPrefixI lit s then drop (String.length lit) s else s.

Definition stripSuffixI (lit s : string) : string :=
  if hasSuffixI lit s then take (String.length s - String.length lit) s else s.

Definition normalize_spec (raw : string) : string :=
  trim (stripSuffixI SUFFIX (stripPrefixI PREFIX (trim raw))).

(* ------------------------------------------------------------------ *)
(** *** White space *)

Definition byte1 (n : nat) : string := String (ascii_of_nat n) EmptyString.
Definition byte2 (n1 n2 : nat) : string := String (ascii_of_nat n1) (byte1 n2).
Definition byte3 (n1 n2 n3 : nat) : string := String (ascii_of_nat n1) (byte2 n2 n3).

(** The white space and line terminator characters of ECMAScript, each
    as its UTF-8 bytes: U+0009 to U+000D, U+0020, U+00A0, U+1680,
    U+2000 to U+200A, U+2028, U+2029, U+202F, U+205F, U+3000, U+FEFF. *)
Definition WHITE_SPACE : list string :=
  [ byte1 9; byte1 10; byte1 11; byte1 12; byte1 13; byte1 32;
    byte2 194 160;
    byte3 225 154 128;
    byte3 226 128 128; byte3 226 128 129; byte3 226 128 130;
    byte3 226 128 131; byte3 226 128 132; byte3 226 128 133;
    byte3 226 128 134; byte3 226 128 135; byte3 226 128 136;
    byte3 226 128 137; byte3 226 128 138;
    byte3 226 128 168; byte3 226 128 169; byte3 226 128 175;
    byte3 226 129 159;
    byte3 227 128 128;
    byte3 239 187 191 ].

(** Some of them by name. *)
Definition TAB : string := byte1 9.
Definition LF : string := byte1 10.
Definition CR : string := byte1 13.
Definition NBSP : string := byte2 194 160.
Definition EM_SPACE : string := byte3 226 128 131.
Definition BOM : string := byte3 239 187 191.

(** A run of white space characters. *)
Inductive whiteSpaces : string -> Prop :=
| whiteSpaces_nil : whiteSpaces EmptyString
| whiteSpaces_cons w s :
    In w WHITE_SPACE -> whiteSpaces s -> whiteSpaces (w ++ s).

(** [t] is [s] without the white space at its two ends. *)
Definition trims (s t : string) : Prop :=
  exists a b,
    s = a ++ t ++ b
    /\ whiteSpaces a /\ whiteSpaces b
    /\ (forall w rest, In w WHITE_SPACE -> t <> w ++ rest)
    /\ (forall w front, In w WHITE_SPACE -> t <> front ++ w).

(** A byte that begins a character: white space never begins in the
    middle of one. *)
Definition beginsCharacter (s : string) : Prop :=
  match s with
  | EmptyString => True
  | String c _ => nat_of_ascii c < 128 \/ 192 <= nat_of_ascii c
  end.

(* ================================================================== *)
(** ** Rows, objects and maps *)

(** A parsed row: column name to cell, every cell a string. *)
Definition record : Type := list (string * string).

(** [item[k]]: [None] is [undefined]. *)
Fixpoint field (r : record) (k : string) : option string :=
  match r with
  | [] => None
  | (k', c) :: r' => if String.eqb k' k then Some c else field r' k
  end.

(** Truthiness of [item[k]]. *)
Definition truthyOpt (c : option string) : bool :=
  match c with Some s => truthy s | None => false end.

(** [a || b] on cells. *)
Definition orElse (a b : option string) : option string :=
  if truthyOpt a then a else b.

(** [a || ''] *)
Definition orEmpty (a : option string) : string :=
  match a with Some s => s | None => "" end.

Inductive value : Type :=
| Undefined
| Str (s : string)
| Num (n : Z).

Definition object : Type := list (string * value).

Definition ofCell (c : option string) : value :=
  match c with Some s => Str s | None => Undefined end.

(** [o[k]] *)
Fixpoint get (o : object) (k : string) : value :=
  match o with
  | [] => Undefined
  | (k', v) :: o' => if String.eqb k' k then v else get o' k
  end.

(** [o[k] = v]: an existing property keeps its place. *)
Fixpoint set (o : object) (k : string) (v : value) : object :=
  match o with
  | [] => [(k, v)]
  | (k', v') :: o' =>
      if String.eqb k' k then (k', v) :: o' else (k', v') :: set o' k v
  end.

(** [Object.keys(o)] *)
Definition keys {A : Type} (o : list (string * A)) : list string := map fst o.

Definition truthyValue (v : value) : bool :=
  match v with
  | Undefined => false
  | Str s => truthy s
  | Num n => negb (Z.eqb n 0)
  end.

(** [v || ''] *)
Definition valueOrEmpty (v : value) : value :=
  if truthyValue v then v else Str "".

(** A [Map] with string keys, in insertion order. *)
Module JsMap.
Section Map.
Context {V : Type}.

Definition t : Type := list (string * V).

Definition empty : t := [].

Fixpoint set (m : t) (k : string) (v : V) : t :=
  match m with
  | [] => [(k, v)]
  | (k', v') :: m' =>
      if String.eqb k' k then (k', v) :: m' else (k', v') :: set m' k v
  end.

Fixpoint get (m : t) (k : string) : option V :=
  match m with
  | [] => None
  | (k', v) :: m' => if String.eqb k' k then Some v else get m' k
  end.

Definition has (m : t) (k : string) : bool :=
  match get m k with Some _ => true | None => false end.

Definition delete (m : t) (k : string) : t :=
  filter (fun e => negb (String.eqb (fst e) k)) m.

(** [m.entries()] and [m.values()] *)
Definition entries (m : t) : list (string * V) := m.
Definition values (m : t) : list V := map snd m.
End Map.
Arguments t : clear implicits.
End JsMap.

(* ================================================================== *)
(** ** mergeFiles *)

Definition descriptionKeys : list string :=
  ["Description 1"; "Description 2"; "Description 3";
   "Description 4"; "Description 5"].

Definition imageKeys : list string :=
  ["image1"; "image2"; "image3"; "image4"; "image5"; "image6";
   "image7"; "image8"; "image9"; "image10"; "image11"; "image12"].

Definition NEWLINES : string :=
  String (ascii_of_nat 10) (String (ascii_of_nat 10) EmptyString).

(** [for (...) if (item[k]) descriptions.push(item[k])] *)
Definition pushTruthy (item : record) (ks : list string) : list string :=
  flat_map (fun k => match field item k with
                     | Some s => if truthy s then [s] else []
                     | None => []
                     end) ks.

(** [for (i = 1..12) if (item[imageKey]) o[imageKey] = item[imageKey]] *)
Definition addImages (item : record) (o : object) : object :=
  fold_left (fun o k => match field item k with
                        | Some s => if truthy s then set o k (Str s) else o
                        | None => o
                        end) imageKeys o.

(** The title clean-up, written twice in the source (common products
    and product-information-only products); [sku] is the value of
    [deItem.SKU || productItem.SKU], respectively [productItem.SKU]. *)
Definition processTitle (productItem : record) (sku : option string) : string :=
  let title := orEmpty (field productItem "Name") in
  if truthy title && truthyOpt (field productItem "Brand") then
    let brand := orEmpty (field productItem "Brand") in
    let title :=
      if startsWith title brand
      then trim (sliceFrom (String.length brand) title)
      else title in
    if truthyOpt sku && includes title (orEmpty sku)
    then trim (removeFirst title (orEmpty sku))
    else title
  else title.

Definition mergedProduct (normalizedSku : string) (deItem productItem : record)
  : object :=
  let descriptions :=
    (pushTruthy productItem descriptionKeys
       ++ pushTruthy deItem ["Description 1"])%list in
  let mergedDescription := join NEWLINES descriptions in
  let title :=
    processTitle productItem (orElse (field deItem "SKU") (field productItem "SKU")) in
  addImages deItem
    [ ("SKU", Str normalizedSku);
      ("EAN", ofCell (field deItem "EAN"));
      ("Subcategory", ofCell (field deItem "Category"));
      ("Category", ofCell (field productItem "Category"));
      ("Price", ofCell (field deItem "Price"));
      ("Stock", ofCell (field deItem "Stock"));
      ("Material", ofCell (field productItem "Material"));
      ("Title", Str title);
      ("Brand", ofCell (field productItem "Brand"));
      ("Product size", ofCell (field productItem "Product size/cm"));
      ("Package size Length", ofCell (field productItem "Package size/cm L"));
      ("Package size Width", ofCell (field productItem "Package size/cm W"));
      ("Package size Height", ofCell (field productItem "Package size/cm H"));
      ("Net weight", ofCell (field productItem "Net weight/kg"));
      ("Gross weight", ofCell (field productItem "Gross weight/kg"));
      ("Volume/CBM", ofCell (field productItem "Volume/CBM"));
      ("Color", ofCell (field productItem "Color"));
      ("description", Str mergedDescription) ].

Definition deSoloProduct (normalizedSku : string) (deItem : record) : object :=
  addImages deItem
    [ ("SKU", Str normalizedSku);
      ("EAN", ofCell (field deItem "EAN"));
      ("Brand", ofCell (orElse (field deItem "Brand") (Some "")));
      ("Category", ofCell (field deItem "Category"));
      ("Title", ofCell (orElse (field deItem "Title") (Some "")));
      ("Price", ofCell (field deItem "Price"));
      ("Stock", ofCell (field deItem "Stock"));
      ("description", ofCell (orElse (field deItem "Description 1") (Some ""))) ].

Definition productInfoOnly (normalizedSku : string) (productItem : record)
  : object :=
  let title := processTitle productItem (field productItem "SKU") in
  let descriptions :=
    (pushTruthy productItem descriptionKeys
       ++ pushTruthy productItem ["Specifications"])%list in
  let mergedDescription := join NEWLINES descriptions in
  addImages productItem
    [ ("SKU", Str normalizedSku);
      ("EAN", ofCell (orElse (field productItem "EAN") (Some "")));
      ("Material", ofCell (field productItem "Material"));
      ("Title", Str title);
      ("Subcategory", ofCell (orElse (field productItem "Title") (Some "")));
      ("Category", ofCell (field productItem "Category"));
      ("Brand", ofCell (field productItem "Brand"));
      ("Product size", ofCell (field productItem "Product size/cm"));
      ("Package size Length", ofCell (field productItem "Package size/cm L"));
      ("Package size Width", ofCell (field productItem "Package size/cm W"));
      ("Package size Height", ofCell (field productItem "Package size/cm H"));
      ("Net weight", ofCell (field productItem "Net weight/kg"));
      ("Gross weight", ofCell (field productItem "Gross weight/kg"));
      ("Volume/CBM", ofCell (field productItem "Volume/CBM"));
      ("Color", ofCell (field productItem "Color"));
      ("description", Str mergedDescription) ].

(** [data.forEach(item => { if (!item.SKU) return;
                            map.set(normalizeSKU(item.SKU), item) })] *)
Definition populateStep (m : JsMap.t record) (item : record) : JsMap.t record :=
  match field item "SKU" with
  | Some sku => if truthy sku then JsMap.set m (normalizeSKU sku) item else m
  | None => m
  end.

Definition populate (data : list record) : JsMap.t record :=
  fold_left populateStep data JsMap.empty.

(** The loop over [deMap.entries()]; the state is [productMap] and
    [mergedResults]. *)
Fixpoint primaryLoop (entries : list (string * record))
         (productMap : JsMap.t record) (mergedResults : list object)
  : JsMap.t record * list object :=
  match entries with
  | [] => (productMap, mergedResults)
  | (normalizedSku, deItem) :: rest =>
      (* [productMap.has(k)], then [productMap.get(k)] *)
      match JsMap.get productMap normalizedSku with
      | Some productItem =>
          primaryLoop rest (JsMap.delete productMap normalizedSku)
            (mergedResults ++ [mergedProduct normalizedSku deItem productItem])%list
      | None =>
          primaryLoop rest productMap
            (mergedResults ++ [deSoloProduct normalizedSku deItem])%list
      end
  end.

(** The loop over what is left of [productMap]. *)
Definition secondaryLoop (productMap : JsMap.t record)
           (mergedResults : list object) : list object :=
  fold_left (fun acc e => (acc ++ [productInfoOnly (fst e) (snd e)])%list)
            (JsMap.entries productMap) mergedResults.

(** [mergeFiles], on the two parsed datasets [deFile.content] and
    [productFile.content]; the result is [mergedResults]. *)
Definition mergeFiles (deData productData : list record) : list object :=
  let deMap := populate deData in
  let productMap := populate productData in
  let '(productMap', mergedResults) :=
    primaryLoop (JsMap.entries deMap) productMap [] in
  secondaryLoop productMap' mergedResults.

(** The normalized keys that occur in a dataset, one per keyed row. *)
Definition keyOf (item : record) : option string :=
  match field item "SKU" with
  | Some sku => if truthy sku then Some (normalizeSKU sku) else None
  | None => None
  end.

Definition keysOf (data : list record) : list string :=
  flat_map (fun item => match keyOf item with Some k => [k] | None => [] end) data.

(** The last row of a dataset filed under key [k]. *)
Definition lastWith (data : list record) (k : string) : option record :=
  fold_left (fun acc item =>
               match keyOf item with
               | Some k' => if String.eqb k' k then Some item else acc
               | None => acc
               end) data None.

(** How many records of a unified set carry [k] in their [SKU] field. *)
Definition hasSku (k : string) (o : object) : bool :=
  match get o "SKU" with Str s => String.eqb s k | _ => false end.

Definition countSku (k : string) (out : list object) : nat :=
  List.length (filter (hasSku k) out).

(** *** The two loops *)

(** The record the first loop emits for an entry of [deMap]. *)
Definition primaryRecord (productMap : JsMap.t record) (e : string * record)
  : object :=
  match JsMap.get productMap (fst e) with
  | Some productItem => mergedProduct (fst e) (snd e) productItem
  | None => deSoloProduct (fst e) (snd e)
  end.

Definition secondaryRecord (e : string * record) : object :=
  productInfoOnly (fst e) (snd e).

(** The entries of [productMap] the first loop leaves behind. *)
Definition unmatched (deKeys : list string) (productMap : JsMap.t record)
  : JsMap.t record :=
  filter (fun e => negb (existsb (String.eqb (fst e)) deKeys)) productMap.

(** Whether an entry is filed under [k]. *)
Definition keyIs {V : Type} (k : string) (e : string * V) : bool :=
  String.eqb (fst e) k.

(** The branch that must have produced the record of key [k], read off
    the two indices. *)
Definition producedBy (deData productData : list record) (k : string)
           (o : object) : Prop :=
  match JsMap.get (populate deData) k, JsMap.get (populate productData) k with
  | Some deItem, Some productItem => o = mergedProduct k deItem productItem
  | Some deItem, None => o = deSoloProduct k deItem
  | None, Some productItem => o = productInfoOnly k productItem
  | None, None => False
  end.

Definition dePair : list record :=
  [ [("SKU", "B34A1V1"); ("Price", "10")];
    [("SKU", "b34a1v1"); ("Price", "12")];
    [("SKU", "Q7")];
    [("Price", "3")] ].

Definition productPair : list record :=
  [ [("SKU", "A1"); ("Name", "Acme A1 Lamp"); ("Brand", "Acme")];
    [("SKU", "Z9"); ("Name", "Bolt")] ].

(* ------------------------------------------------------------------ *)
(** *** Order of the unified set *)

Definition notIn (ks : list string) (k : string) : bool :=
  negb (existsb (String.eqb k) ks).

(** The distinct elements of a list, each at its first occurrence. *)
Fixpoint firstOccurrences (ks : list string) : list string :=
  match ks with
  | [] => []
  | k :: rest => k :: filter (fun k' => negb (String.eqb k' k)) (firstOccurrences rest)
  end.

(** The order the specification words: every both-present record, then
    every primary-only record, then the secondary-only records. *)
Definition groupedOrder (deData productData : list record) : list object :=
  let deMap := populate deData in
  let productMap := populate productData in
  (map (primaryRecord productMap)
       (filter (fun e => JsMap.has productMap (fst e)) deMap)
   ++ map (primaryRecord productMap)
       (filter (fun e => negb (JsMap.has productMap (fst e))) deMap)
   ++ map secondaryRecord (unmatched (keys deMap) productMap))%list.

Definition deInterleaved : list record :=
  [ [("SKU", "P1"); ("Title", "only in primary")];
    [("SKU", "C1"); ("Price", "4")] ].

Definition productInterleaved : list record :=
  [ [("SKU", "C1"); ("Name", "in both")] ].

(* ------------------------------------------------------------------ *)
(** *** The title of a both-present record *)

(** The two clean-up steps of [processTitle], each on its own. *)
Definition stripBrand (name brand : string) : string :=
  if startsWith name brand then trim (drop (String.length brand) name) else name.

Definition stripSku (title sku : string) : string :=
  if includes title sku then trim (removeFirst title sku) else title.

(** The sample of the specification. *)
Definition dePrimarySample : record :=
  [("SKU", "B34X1V1"); ("Price", "10"); ("Stock", "5")].

Definition productSecondarySample : record :=
  [("SKU", "X1"); ("Name", "Acme X1 Widget"); ("Brand", "Acme");
   ("Category", "Widgets"); ("Description 1", "d1")].

Definition deEmptyKeys : list record :=
  [ [("SKU", "B34"); ("Title", "first")];
    [("SKU", "V1"); ("Title", "second")];
    [("SKU", "")];
    [("Title", "no identifier")] ].

Definition productEmptyKeys : list record :=
  [ [("SKU", "b34v1"); ("Name", "third")] ].

(* ================================================================== *)
(** ** extractColumns *)

(** What a handler does besides computing: the state it sets, the file
    it offers for download, and what it writes to the console or shows
    as a notification. *)
Definition sheet : Type := list object.

Inductive effect : Type :=
| SetIsExtracting (b : bool)
| Download (name : string) (files : JsMap.t sheet)
| ConsoleError (message : string)
| Notify (message : string).

Definition columnsToExtract : list string :=
  ["Subcategory"; "Category"; "Title"; "description"].

Definition ROWS_PER_FILE : nat := 600.

(** Decimal rendering of a number inside a template string. *)
Definition natToString (n : nat) : string :=
  NilEmpty.string_of_uint (Nat.to_uint n).

(** [Math.ceil(n / d)] *)
Definition ceilDiv (n d : nat) : nat := (n + (d - 1)) / d.

(** [xs.map((x, index) => f index x)], counting from [i]. *)
Fixpoint mapFrom {A B : Type} (f : nat -> A -> B) (i : nat) (xs : list A)
  : list B :=
  match xs with
  | [] => []
  | x :: rest => f i x :: mapFrom f (S i) rest
  end.

(** [xs.slice(start, end)] *)
Definition slice {A : Type} (start stop : nat) (xs : list A) : list A :=
  firstn (stop - start) (skipn start xs).

(** The worksheet row [{row_index, SKU: row.SKU || '', [column]: row[column] || ''}]. *)
Definition extractRow (column : string) (index : nat) (row : object) : object :=
  set [ ("row_index", Num (Z.of_nat index));
        ("SKU", valueOrEmpty (get row "SKU")) ]
      column (valueOrEmpty (get row column)).

(** One chunk of the description column. *)
Definition chunkSheet (data : list object) (column : string) (chunkIndex : nat)
  : sheet :=
  let start := chunkIndex * ROWS_PER_FILE in
  let stop := Nat.min (start + ROWS_PER_FILE) (List.length data) in
  let chunk := slice start stop data in
  mapFrom (fun localIndex row => extractRow column (start + localIndex) row) 0 chunk.

Definition chunkName (column : string) (chunkIndex totalChunks : nat) : string :=
  toLowerCase column ++ "_" ++ natToString (chunkIndex + 1) ++ "_of_"
    ++ natToString totalChunks ++ ".xlsx".

(** The files written for one column, in the order of the [zip.file]
    calls. *)
Definition columnFiles (data : list object) (column : string)
  : list (string * sheet) :=
  if String.eqb column "description" then
    let totalChunks := ceilDiv (List.length data) ROWS_PER_FILE in
    map (fun chunkIndex =>
           (chunkName column chunkIndex totalChunks,
            chunkSheet data column chunkIndex))
        (seq 0 totalChunks)
  else
    [ (toLowerCase column ++ ".xlsx", mapFrom (extractRow column) 0 data) ].

(** [zip.file(name, buffer)] for every file of every column. *)
Definition zipFiles (data : list object) : JsMap.t sheet :=
  fold_left
    (fun zip column =>
       fold_left (fun zip f => JsMap.set zip (fst f) (snd f))
                 (columnFiles data column) zip)
    columnsToExtract JsMap.empty.

Definition missingColumns (first : object) : list string :=
  filter (fun col => negb (existsb (String.eqb col) (keys first)))
         columnsToExtract.

Definition extractColumns (data : list object) : list effect :=
  match data with
  | [] => []
  | first :: _ =>
      if Nat.ltb 0 (List.length (missingColumns first))
      then [SetIsExtracting true; SetIsExtracting false]
      else [SetIsExtracting true;
            Download "extracted_columns.zip" (zipFiles data);
            SetIsExtracting false]
  end.

(** The batches a run hands over, and what it reports. *)
Definition batchesOf (trace : list effect) : list (JsMap.t sheet) :=
  flat_map (fun e => match e with Download _ files => [files] | _ => [] end) trace.

Definition reportsOf (trace : list effect) : list string :=
  flat_map (fun e => match e with
                     | ConsoleError m | Notify m => [m]
                     | _ => []
                     end) trace.

(** The state a run leaves in [isExtracting], from [before]. *)
Definition isExtractingAfter (before : bool) (trace : list effect) : bool :=
  fold_left (fun b e => match e with SetIsExtracting b' => b' | _ => b end)
            trace before.

Definition threeRows : list object :=
  [ [("SKU", Str "A"); ("Subcategory", Str "s"); ("Category", Str "c");
     ("Title", Str "t"); ("description", Str "d")];
    [("SKU", Str "B"); ("Subcategory", Undefined); ("Category", Str "c2");
     ("Title", Str ""); ("description", Str "d2")];
    [("SKU", Str ""); ("Title", Str "t3")] ].

(** A unified set whose first record is primary-only: that record has
    no [Subcategory] field. *)
Definition primaryOnlyFirst : list object :=
  mergeFiles [[("SKU", "P1"); ("Title", "only in primary")]] [].

Definition completeRow : object :=
  [("SKU", Str "A"); ("Subcategory", Str "s"); ("Category", Str "c");
   ("Title", Str "t"); ("description", Str "d")].

(* ================================================================== *)
(** ** handleTranslatedFileChange *)

(** The letter s with caron of the Lithuanian header, as its two bytes. *)
Definition S_CARON : string :=
  String (ascii_of_nat 197) (String (ascii_of_nat 161) EmptyString).

(** [columnTranslations[columnName] || []] *)
Definition columnTranslations (columnName : string) : list string :=
  if String.eqb columnName "Subcategory" then
    ["subkategorija"; "underkategori"; "underkategori"; "alaluokka"; "underkategori"]
  else if String.eqb columnName "Category" then
    ["kategorija"; "kategori"; "kategori"; "luokka"; "kategori"]
  else if String.eqb columnName "Title" then
    ["pavadinimas"; "titel"; "titel"; "otsikko"; "tittel"]
  else if String.eqb columnName "description" then
    ["apra" ++ S_CARON ++ "ymas"; "Beskrivning"; "beskrivelse"; "kuvaus"; "beskrivelse"]
  else [].

(** [found || fallback] on keys: an empty key is falsy. *)
Definition orKey (found fallback : option string) : option string :=
  match found with
  | Some k => if truthy k then Some k else fallback
  | None => fallback
  end.

Definition rowIndexKey (ks : list string) : option string :=
  orKey (find (fun k => String.eqb (toLowerCase k) "row_index") ks)
        (nth_error ks 0).

Definition skuKey (ks : list string) : option string :=
  orKey (find (fun k => String.eqb (toLowerCase k) "sku") ks)
        (nth_error ks 1).

(** The predicate of the [find] that looks for the translated column. *)
Definition matchesColumn (columnName k : string) : bool :=
  existsb (String.eqb (toLowerCase k)) (columnTranslations columnName)
  || String.eqb (toLowerCase k) (toLowerCase columnName).

Definition dataKey (columnName : string) (ks : list string) : option string :=
  orKey (find (matchesColumn columnName) ks) (nth_error ks 2).

(** [row[key]], where an [undefined] key reads the property named
    "undefined". *)
Definition cell (row : record) (key : option string) : option string :=
  field row (match key with Some k => k | None => "undefined" end).

(** The body of [fileData.map(row => ...)]: [None] is the [null] of a
    skipped row. *)
Definition standardizeRow (columnName : string) (row : record) : option object :=
  let ks := keys row in
  let rowIndex := cell row (rowIndexKey ks) in
  let sku := cell row (skuKey ks) in
  let value := cell row (dataKey columnName ks) in
  match value with
  | None => None
  | Some v =>
      let processedRowIndex := match rowIndex with None => "0" | Some r => r end in
      let processedSku := match sku with None => "" | Some c => c end in
      Some (set [("row_index", Str processedRowIndex); ("SKU", Str processedSku)]
                columnName (Str v))
  end.

(** One turn of the loop over the files; the state is [allRows] and
    [skippedRows]. *)
Definition processFile (columnName : string) (st : list object * nat)
           (fileData : list record) : list object * nat :=
  let mapped := map (standardizeRow columnName) fileData in
  let standardizedData :=
    flat_map (fun r => match r with Some o => [o] | None => [] end) mapped in
  let skipped :=
    List.length (filter (fun r => match r with Some _ => false | None => true end)
                        mapped) in
  ((fst st ++ standardizedData)%list, snd st + skipped).

(** [parseInt(s, 10)]: [None] is [NaN].  The digits are read as an
    integer; the number of the code is that integer as long as it does
    not exceed 2^53 in magnitude. *)
Definition digitOf (c : ascii) : option Z :=
  let n := nat_of_ascii c in
  if Nat.leb 48 n && Nat.leb n 57 then Some (Z.of_nat (n - 48)) else None.

Fixpoint digits (s : string) (acc : option Z) : option Z :=
  match s with
  | EmptyString => acc
  | String c rest =>
      match digitOf c with
      | Some d => digits rest (Some (10 * match acc with Some a => a | None => 0 end + d)%Z)
      | None => acc
      end
  end.

Definition parseInt (s : string) : option Z :=
  match trimStart s with
  | String "-" rest => option_map Z.opp (digits rest None)
  | String "+" rest => digits rest None
  | t => digits t None
  end.

(** The sort key of a row: its [row_index] as a number, [None] for the
    [Infinity] that stands in for [NaN]. *)
Definition sortIndex (row : object) : option Z :=
  match get row "row_index" with
  | Str s => parseInt s
  | Num n => Some n
  | Undefined => None
  end.

(** [indexA - indexB <= 0]; [Infinity - Infinity] is [NaN], which the
    sort takes for 0. *)
Definition notAfter (a b : option Z) : bool :=
  match a, b with
  | Some x, Some y => Z.leb x y
  | Some _, None => true
  | None, Some _ => false
  | None, None => true
  end.

(** [Array.prototype.sort] is stable; a stable insertion sort gives the
    same result for this comparator. *)
Fixpoint insertRow (row : object) (sorted : list object) : list object :=
  match sorted with
  | [] => [row]
  | r :: rest =>
      if notAfter (sortIndex row) (sortIndex r) then row :: sorted
      else r :: insertRow row rest
  end.

Definition sortRows (rows : list object) : list object :=
  fold_right insertRow [] rows.

(** [allRows.forEach(row => { if (row.SKU) rowsBySku.set(row.SKU, row) })];
    every standardized row holds a string under [SKU]. *)
Definition rowsBySku (allRows : list object) : JsMap.t object :=
  fold_left (fun m row =>
               match get row "SKU" with
               | Str sku => if truthy sku then JsMap.set m sku row else m
               | _ => m
               end) allRows JsMap.empty.

Inductive importOutcome : Type :=
| Ignored
    (* no file was selected: the handler returns at once *)
| EmptyResult (skippedRows : nat)
    (* 'No valid rows were processed' is thrown, caught and logged *)
| Stored (rows : list object) (totalRows uniqueSkus skippedRows : nat).
    (* [translatedFiles[columnName]] is set to [rows] *)

(** [files] holds the parsed content of each selected file. *)
Definition handleTranslatedFileChange (columnName : string)
           (files : list (list record)) : importOutcome :=
  match files with
  | [] => Ignored
  | _ =>
      let '(allRows, skippedRows) :=
        fold_left (processFile columnName) files ([], 0) in
      let allRows :=
        if Nat.ltb 1 (List.length files) then sortRows allRows else allRows in
      if Nat.eqb (List.length allRows) 0 then EmptyResult skippedRows
      else
        let bySku := rowsBySku allRows in
        Stored (JsMap.values bySku) (List.length allRows)
               (List.length bySku) skippedRows
  end.

(** The rows that survive from all files, before the sort. *)
Definition survivors (columnName : string) (files : list (list record))
  : list object :=
  flat_map (fun fileData =>
              flat_map (fun row => match standardizeRow columnName row with
                                   | Some o => [o]
                                   | None => []
                                   end) fileData) files.

(** The rows whose resolved value is [undefined]. *)
Definition valueUndefined (columnName : string) (row : record) : bool :=
  match cell row (dataKey columnName (keys row)) with
  | Some _ => false
  | None => true
  end.

Definition droppedCount (columnName : string) (files : list (list record)) : nat :=
  List.length (filter (valueUndefined columnName) (List.concat files)).

(* ------------------------------------------------------------------ *)
(** *** Which column holds the translated value *)

(** The resolution as the specification words it: a case-insensitive
    match against the variants first, then against the canonical name,
    then the third field. *)
Definition equalsIgnoreCase (a b : string) : bool :=
  String.eqb (toLowerCase a) (toLowerCase b).

Definition resolveDataKey_spec (columnName : string) (ks : list string)
  : option string :=
  match find (fun k => existsb (equalsIgnoreCase k) (columnTranslations columnName)) ks with
  | Some k => Some k
  | None =>
      match find (fun k => equalsIgnoreCase k columnName) ks with
      | Some k => Some k
      | None => nth_error ks 2
      end
  end.

(** [String.prototype.toLowerCase] follows the Unicode case mapping,
    of which [toLowerCase] is the part on the ASCII letters.  Here the
    built-in is a parameter: [matchesColumnWith] and [dataKeyWith] are
    the code of [matchesColumn] and [dataKey] for any lower-casing. *)
Section LowerCasing.

Variable lower : string -> string.

(** The predicate of the [find], and the [find] with its fallback. *)
Definition matchesColumnWith (columnName k : string) : bool :=
  existsb (String.eqb (lower k)) (columnTranslations columnName)
  || String.eqb (lower k) (lower columnName).

Definition dataKeyWith (columnName : string) (ks : list string) : option string :=
  orKey (find (matchesColumnWith columnName) ks) (nth_error ks 2).

(** Two names that differ in letter case only. *)
Definition sameIgnoringCase (a b : string) : Prop := lower a = lower b.

(** A header names a column when it is, letter case apart, the
    canonical name of the column or one of its listed variants. *)
Definition namesColumn (columnName k : string) : Prop :=
  sameIgnoringCase k columnName
  \/ exists v, In v (columnTranslations columnName) /\ sameIgnoringCase k v.

(** The same through the canonical name or a variant that the table
    spells in lower case. *)
Definition namesColumnPlainly (columnName k : string) : Prop :=
  sameIgnoringCase k columnName
  \/ exists v, In v (columnTranslations columnName)
               /\ lower v = v /\ sameIgnoringCase k v.

End LowerCasing.

(* ================================================================== *)
(** ** replaceColumnsWithTranslations *)

(** [JSON.parse(JSON.stringify(mergedData))]: a property that holds
    [undefined] is left out of the copy. *)
Definition copyRow (row : object) : object :=
  filter (fun kv => match snd kv with Undefined => false | _ => true end) row.

Definition deepCopy (data : list object) : list object := map copyRow data.

Definition defined (v : value) : bool :=
  match v with Undefined => false | _ => true end.

(** The [skuMap] of one column; the rows come from
    [handleTranslatedFileChange] and hold strings under [SKU]. *)
Definition skuMapOf (columnName : string) (translatedColumnData : list object)
  : JsMap.t value :=
  fold_left (fun skuMap row =>
               match get row "SKU" with
               | Str sku =>
                   if truthy sku && defined (get row columnName)
                   then JsMap.set skuMap sku (get row columnName)
                   else skuMap
               | _ => skuMap
               end) translatedColumnData JsMap.empty.

Definition translationMapsOf (translatedFiles : JsMap.t (list object))
  : JsMap.t (JsMap.t value) :=
  fold_left (fun maps columnName =>
               match JsMap.get translatedFiles columnName with
               | Some translatedColumnData =>
                   JsMap.set maps columnName (skuMapOf columnName translatedColumnData)
               | None => maps
               end) (keys translatedFiles) JsMap.empty.

(** The body of [updatedData.forEach]; the maps have string keys, so a
    row whose SKU is not a string is never found in them. *)
Definition replaceRow (columnsToReplace : list string)
           (translationMaps : JsMap.t (JsMap.t value)) (row : object) : object :=
  match get row "SKU" with
  | Str sku =>
      if truthy sku then
        fold_left (fun row columnName =>
                     match JsMap.get translationMaps columnName with
                     | Some translationMap =>
                         match JsMap.get translationMap sku with
                         | Some v => set row columnName v
                         | None => row
                         end
                     | None => row
                     end) columnsToReplace row
      else row
  | _ => row
  end.

(** [None]: the handler returned without setting [translatedMergedData]. *)
Definition replaceColumnsWithTranslations (mergedData : option (list object))
           (translatedFiles : JsMap.t (list object)) : option (list object) :=
  match mergedData with
  | None => None
  | Some data =>
      if Nat.eqb (List.length (keys translatedFiles)) 0 then None
      else
        let updatedData := deepCopy data in
        let columnsToReplace := keys translatedFiles in
        let translationMaps := translationMapsOf translatedFiles in
        Some (map (replaceRow columnsToReplace translationMaps) updatedData)
  end.

(** [setTranslatedFiles(prev => ({...prev, [columnName]: rows}))] *)
Definition storeTranslated (prev : JsMap.t (list object)) (columnName : string)
           (outcome : importOutcome) : JsMap.t (list object) :=
  match outcome with
  | Stored rows _ _ _ => JsMap.set prev columnName rows
  | _ => prev
  end.

(* ------------------------------------------------------------------ *)
(** ** The round trip through the exported files *)

(** The spreadsheet writer and reader are not part of the program.  An
    unmodified copy of an exported sheet, read back, gives one parsed
    row per sheet row, under the same headers, each cell as text. *)
Definition zToString (n : Z) : string := NilEmpty.string_of_int (Z.to_int n).

Definition textOf (v : value) : string :=
  match v with
  | Undefined => ""
  | Str s => s
  | Num n => zToString n
  end.

Definition readBack (sh : sheet) : list record :=
  map (fun row => map (fun kv => (fst kv, textOf (snd kv))) row) sh.

(** Extract one column, select an unmodified copy of each of its files,
    in the order [upload] puts them, and generate the table. *)
Definition roundTrip (data : list object) (columnName : string)
           (files : list (list record)) : option (list object) :=
  replaceColumnsWithTranslations (Some data)
    (storeTranslated JsMap.empty columnName
       (handleTranslatedFileChange columnName files)).

Definition exportedCopies (data : list object) (columnName : string)
  : list (list record) :=
  map (fun f => readBack (snd f)) (columnFiles data columnName).

(** What a row holds for a column after the round trip. *)
Definition columnValues (columnName : string) (data : list object) : list value :=
  map (fun row => get row columnName) data.

Definition afterRoundTrip (columnName : string) (row : object) : value :=
  if truthyValue (get row "SKU") then valueOrEmpty (get row columnName)
  else get row columnName.

(** The non-empty identifiers of a unified set. *)
Definition truthySkus (data : list object) : list string :=
  flat_map (fun row => match get row "SKU" with
                       | Str sku => if truthy sku then [sku] else []
                       | _ => []
                       end) data.

(** A record as [mergeFiles] builds them: no property twice, and text
    or [undefined] everywhere. *)
Definition isText (v : value) : bool :=
  match v with Num _ => false | _ => true end.

Definition wellFormed (row : object) : Prop :=
  NoDup (keys row) /\ Forall (fun kv => isText (snd kv) = true) row.

Definition bothPresentUndefined : list object :=
  mergeFiles [[("SKU", "A1"); ("Price", "10")]]
             [[("SKU", "A1"); ("Name", "Lamp")]].

(** The cells of an exported sheet pass through the workbook writer of
    the export and the sheet reader of the import, two libraries.
    [viaSpreadsheet] is the text that the text of a cell comes back as;
    [readBack] and [exportedCopies] are [readBackVia] and
    [exportedCopiesVia] for a pair that returns every text as it is. *)
Definition readBackVia (viaSpreadsheet : string -> string) (sh : sheet)
  : list record :=
  map (fun row => map (fun kv => (fst kv, viaSpreadsheet (textOf (snd kv)))) row)
      sh.

Definition exportedCopiesVia (viaSpreadsheet : string -> string)
           (data : list object) (columnName : string) : list (list record) :=
  map (fun f => readBackVia viaSpreadsheet (snd f)) (columnFiles data columnName).

(** The texts of the cells of the files exported for a column. *)
Definition exportedTexts (data : list object) (columnName : string)
  : list string :=
  flat_map (fun f => flat_map (fun row => map (fun kv => textOf (snd kv)) row)
                              (snd f))
           (columnFiles data columnName).

(** A pair that returns one text changed: the reader takes [_x000D_]
    for the escape of a carriage return. *)
Definition unescaping (t : string) : string :=
  if String.eqb t "x_x000D_y" then "x" ++ CR ++ "y" else t.

Definition escapedTitle : list object :=
  mergeFiles [[("SKU", "A1"); ("Price", "10")]]
             [[("SKU", "A1"); ("Name", "x_x000D_y")]].

(** The entry a row adds to [rowsBySku], and the one it adds to the
    [skuMap] of its column. *)
Definition skuEntry (row : object) : list (string * object) :=
  match get row "SKU" with
  | Str sku => if truthy sku then [(sku, row)] else []
  | _ => []
  end.

Definition valueEntry (columnName : string) (row : object)
  : list (string * value) :=
  match get row "SKU" with
  | Str sku =>
      if truthy sku && defined (get row columnName)
      then [(sku, get row columnName)] else []
  | _ => []
  end.

(** A row as the import stores it. *)
Definition tripleRow (columnName rowIndex sku v : string) : object :=
  [("row_index", Str rowIndex); ("SKU", Str sku); (columnName, Str v)].

Definition isTriple (columnName : string) (row : object) : Prop :=
  exists rowIndex sku v, row = tripleRow columnName rowIndex sku v.

(* ------------------------------------------------------------------ *)
(** *** What the import makes of the exported files *)

(** The stored form of the sheet row of position [index]. *)
Definition importedRow (columnName : string) (index : nat) (row : object)
  : object :=
  tripleRow columnName (zToString (Z.of_nat index))
            (textOf (valueOrEmpty (get row "SKU")))
            (textOf (valueOrEmpty (get row columnName))).

Definition keep (r : option object) : list object :=
  match r with Some o => [o] | None => [] end.

(* ================================================================== *)
(** ** Further definitions for the merge *)

(** The description sources of a both-present record, in the order in
    which the program pushes them. *)
Definition mergedSegments (deItem productItem : record) : list string :=
  (pushTruthy productItem descriptionKeys ++ pushTruthy deItem ["Description 1"])%list.

Definition productSegments (productItem : record) : list string :=
  (pushTruthy productItem descriptionKeys
   ++ pushTruthy productItem ["Specifications"])%list.

(** [item[imageKey]] as it is carried into a unified record. *)
Definition carriedImage (item : record) (imageKey : string) : value :=
  match field item imageKey with
  | Some s => if truthy s then Str s else Undefined
  | None => Undefined
  end.


(* ================================================================== *)
(** ** Further definitions for the import *)

(** The order the sort puts the rows in. *)
Definition rowLe (a b : object) : Prop :=
  notAfter (sortIndex a) (sortIndex b) = true.

(** Whether a row has [key] as its sort key. *)
Definition sameIndex (key : option Z) (row : object) : bool :=
  match sortIndex row, key with
  | Some x, Some y => Z.eqb x y
  | None, None => true
  | _, _ => false
  end.

(** Strictly ascending numeric sort keys. *)
Definition rowLt (a b : object) : Prop :=
  exists x y, sortIndex a = Some x /\ sortIndex b = Some y /\ (x < y)%Z.

(* ================================================================== *)
(** ** Further definitions for the generated table *)

(** The value that the maps hold for a column and an identifier. *)
Definition translationFor (translationMaps : JsMap.t (JsMap.t value))
           (sku columnName : string) : option value :=
  match JsMap.get translationMaps columnName with
  | Some translationMap => JsMap.get translationMap sku
  | None => None
  end.

Definition allDefined (row : object) : Prop :=
  Forall (fun kv => defined (snd kv) = true) row.

(** One turn of the loop over the imported columns, for a row whose
    identifier is known. *)
Definition applyHit (hit : string -> option value) (row : object)
           (columnName : string) : object :=
  match hit columnName with
  | Some v => set row columnName v
  | None => row
  end.

(* ================================================================== *)
(** ** renderTable: the pages *)

(** [rowsPerPage] is 25 in this copy of the component and 3 in
    [src/App.tsx]; the definitions take it as a parameter. *)
Definition totalPages {A : Type} (rowsPerPage : nat) (data : list A) : nat :=
  ceilDiv (List.length data) rowsPerPage.

Definition startIndex (rowsPerPage currentPage : nat) : nat :=
  (currentPage - 1) * rowsPerPage.

Definition paginatedData {A : Type} (rowsPerPage currentPage : nat)
           (data : list A) : list A :=
  slice (startIndex rowsPerPage currentPage)
        (startIndex rowsPerPage currentPage + rowsPerPage) data.

(** The end of the range in "Showing a to b of n results". *)
Definition showingTo {A : Type} (rowsPerPage currentPage : nat)
           (data : list A) : nat :=
  Nat.min (startIndex rowsPerPage currentPage + rowsPerPage) (List.length data).

(** The pages the two buttons of the wide layout ask for. *)
Definition previousPage (currentPage : nat) : nat := Nat.max 1 (currentPage - 1).

Definition nextPage (pages currentPage : nat) : nat :=
  Nat.min pages (currentPage + 1).

(* ================================================================== *)
(** ** parseFile and handleFileChange: the file type *)

(** [name.split('.').pop()]: what follows the last dot, the whole name
    when it has no dot. *)
Fixpoint lastSegmentFrom (s acc : string) : string :=
  match s with
  | EmptyString => acc
  | String c rest =>
      if Ascii.eqb c "." then lastSegmentFrom rest EmptyString
      else lastSegmentFrom rest (acc ++ String c EmptyString)
  end.

Definition fileTypeOf (name : string) : string :=
  toLowerCase (lastSegmentFrom name EmptyString).

Inductive parser : Type := PapaParse | SheetJS.

(** [None]: 'Unsupported file type' is thrown. *)
Definition parseFile (name : string) : option parser :=
  let fileType := fileTypeOf name in
  if String.eqb fileType "csv" then Some PapaParse
  else if String.eqb fileType "xlsx" || String.eqb fileType "xls"
       then Some SheetJS
       else None.

Definition allowedTypes : list string := ["csv"; "xls"; "xlsx"].

(** Whether [handleFileChange] keeps the selected file. *)
Definition fileAccepted (name : string) : bool :=
  existsb (String.eqb (fileTypeOf name)) allowedTypes.

Fixpoint noDot (s : string) : bool :=
  match s with
  | EmptyString => true
  | String c rest => negb (Ascii.eqb c ".") && noDot rest
  end.

(** A unified set of 601 rows: its descriptions are exported as two
    files. *)
Definition twoBatches : list object :=
  map (fun i => [("SKU", Str (natToString i)); ("description", Str "text")])
      (seq 0 601).

(* ================================================================== *)
(** ** downloadXLSX: the rows handed to the workbook *)

(** [undefined] (and [null]) become [''], a string or a number is
    kept; no other kind of value occurs in a row of the program. *)
Definition cleanValue (v : value) : value :=
  match v with
  | Undefined => Str EmptyString
  | _ => v
  end.

(** [Object.keys(row).forEach(key => { cleanRow[key] = ... })] *)
Definition cleanRow (row : object) : object :=
  map (fun kv => (fst kv, cleanValue (snd kv))) row.

Definition cleanData (data : list object) : list object := map cleanRow data.

(** [Object.keys(cleanData[0])], the columns of the worksheet. *)
Definition sheetHeaders (data : list object) : list string :=
  match cleanData data with
  | [] => []
  | first :: _ => keys first
  end.

(* ================================================================== *)
(** * Properties *)

(* ================================================================== *)
(** ** Facts about maps and objects *)

Section MapFacts.
Context {V : Type}.
Implicit Types (m : JsMap.t V) (k : string) (v : V).

Lemma map_get_set_same m k v : JsMap.get (JsMap.set m k v) k = Some v.
Proof.
  induction m as [|[k' v'] m IH]; simpl.
  - now rewrite String.eqb_refl.
  - destruct (String.eqb k' k) eqn:E; simpl; rewrite E; auto.
Qed.

Lemma map_get_set_other m k k' v :
  k <> k' -> JsMap.get (JsMap.set m k v) k' = JsMap.get m k'.
Proof.
  intros Hne. induction m as [|[k0 v0] m IH]; simpl.
  - destruct (String.eqb k k') eqn:E; auto.
    apply String.eqb_eq in E. contradiction.
  - destruct (String.eqb k0 k) eqn:E; simpl.
    + apply String.eqb_eq in E. subst k0.
      destruct (String.eqb k k') eqn:E'; auto.
      apply String.eqb_eq in E'. contradiction.
    + now rewrite IH.
Qed.

Lemma map_get_in m k : In k (keys m) <-> JsMap.get m k <> None.
Proof.
  induction m as [|[k' v'] m IH]; simpl.
  - split; [tauto | congruence].
  - destruct (String.eqb k' k) eqn:E.
    + apply String.eqb_eq in E. split; [congruence | auto].
    + apply String.eqb_neq in E. rewrite <- IH. split; [intros [?|?]|]; tauto.
Qed.

Lemma map_has_in m k : JsMap.has m k = true <-> In k (keys m).
Proof.
  unfold JsMap.has. rewrite map_get_in.
  destruct (JsMap.get m k); split; congruence.
Qed.

Lemma map_keys_set m k v :
  keys (JsMap.set m k v) = if JsMap.has m k then keys m else (keys m ++ [k])%list.
Proof.
  unfold JsMap.has. induction m as [|[k' v'] m IH]; simpl; auto.
  destruct (String.eqb k' k) eqn:E; simpl; auto.
  rewrite IH. now destruct (JsMap.get m k).
Qed.

Lemma map_set_nodup m k v : NoDup (keys m) -> NoDup (keys (JsMap.set m k v)).
Proof.
  intros H. rewrite map_keys_set.
  destruct (JsMap.has m k) eqn:E; auto.
  apply NoDup_app; auto.
  - repeat constructor. simpl. tauto.
  - intros x Hx [<-|[]]. apply map_has_in in Hx. congruence.
Qed.

Lemma map_get_delete_other m k k' :
  k <> k' -> JsMap.get (JsMap.delete m k) k' = JsMap.get m k'.
Proof.
  intros Hne. induction m as [|[k0 v0] m IH]; simpl; auto.
  destruct (String.eqb k0 k) eqn:E; simpl.
  - apply String.eqb_eq in E. subst k0.
    destruct (String.eqb k k') eqn:E'; auto.
    apply String.eqb_eq in E'. contradiction.
  - now rewrite IH.
Qed.
End MapFacts.

(* ================================================================== *)
(** ** mergeFiles *)

(** *** The two indices *)

Lemma populateStep_keyOf m item :
  populateStep m item =
  match keyOf item with Some k => JsMap.set m k item | None => m end.
Proof.
  unfold populateStep, keyOf.
  destruct (field item "SKU") as [sku|]; auto.
  now destruct (truthy sku).
Qed.

Lemma populate_from_nodup data : forall m,
  NoDup (keys m) -> NoDup (keys (fold_left populateStep data m)).
Proof.
  induction data as [|item data IH]; intros m Hm; simpl; auto.
  apply IH. rewrite populateStep_keyOf.
  destruct (keyOf item); auto using map_set_nodup.
Qed.

Lemma populate_nodup data : NoDup (keys (populate data)).
Proof. apply populate_from_nodup. constructor. Qed.

Lemma populate_from_keys data : forall m k,
  In k (keys (fold_left populateStep data m)) <->
  In k (keys m) \/ In k (keysOf data).
Proof.
  induction data as [|item data IH]; intros m k; simpl.
  - tauto.
  - rewrite IH, populateStep_keyOf, in_app_iff.
    destruct (keyOf item) as [k'|]; simpl; [|tauto].
    rewrite map_keys_set.
    destruct (JsMap.has m k') eqn:E.
    + apply map_has_in in E.
      split; [tauto|]. intros [?|[[<-|[]]|?]]; auto.
    + rewrite in_app_iff. simpl. tauto.
Qed.

Lemma populate_keys data k :
  In k (keys (populate data)) <-> In k (keysOf data).
Proof.
  unfold populate. rewrite populate_from_keys. simpl. tauto.
Qed.

Lemma populate_from_get data k : forall m,
  JsMap.get (fold_left populateStep data m) k =
  fold_left (fun acc item =>
               match keyOf item with
               | Some k' => if String.eqb k' k then Some item else acc
               | None => acc
               end) data (JsMap.get m k).
Proof.
  induction data as [|item data IH]; intros m; simpl; auto.
  rewrite IH, populateStep_keyOf. f_equal.
  destruct (keyOf item) as [k'|]; auto.
  destruct (String.eqb k' k) eqn:E.
  - apply String.eqb_eq in E. subst. apply map_get_set_same.
  - apply String.eqb_neq in E. now apply map_get_set_other.
Qed.

(** Last write wins: the index holds, under each key, the last row of
    the dataset with that key. *)
Lemma populate_get data k : JsMap.get (populate data) k = lastWith data k.
Proof. unfold populate, lastWith. now rewrite populate_from_get. Qed.

Lemma delete_unmatched k ks (pm : JsMap.t record) :
  unmatched ks (JsMap.delete pm k) = unmatched (k :: ks) pm.
Proof.
  unfold unmatched, JsMap.delete.
  induction pm as [|[k0 v0] pm IH]; simpl; auto.
  destruct (String.eqb k0 k) eqn:E; simpl; rewrite IH; auto.
Qed.

Lemma unmatched_absent k ks (pm : JsMap.t record) :
  JsMap.get pm k = None -> unmatched (k :: ks) pm = unmatched ks pm.
Proof.
  unfold unmatched. intros H. apply filter_ext_in. intros [k0 v0] Hin. simpl.
  destruct (String.eqb k0 k) eqn:E; auto.
  apply String.eqb_eq in E. subst k0. exfalso.
  assert (Hk : In k (keys pm)) by (change k with (fst (k, v0)); now apply in_map).
  apply map_get_in in Hk. contradiction.
Qed.

Lemma primaryLoop_spec entries : forall productMap acc,
  NoDup (keys entries) ->
  primaryLoop entries productMap acc =
  (unmatched (keys entries) productMap,
   (acc ++ map (primaryRecord productMap) entries)%list).
Proof.
  induction entries as [|[k d] rest IH]; intros pm acc Hnd; simpl.
  - unfold unmatched. simpl.
    rewrite app_nil_r. f_equal.
    induction pm as [|e pm IHpm]; simpl; congruence.
  - inversion Hnd as [|? ? Hnotin Hnd']; subst.
    assert (Hrest : forall pm',
               (forall k', k' <> k -> JsMap.get pm' k' = JsMap.get pm k') ->
               map (primaryRecord pm') rest = map (primaryRecord pm) rest).
    { intros pm' Hpm'. apply map_ext_in. intros [k' d'] Hin.
      unfold primaryRecord. simpl. rewrite Hpm'; auto.
      intros ->. apply Hnotin. change k with (fst (k, d')).
      now apply in_map. }
    assert (Hhead : forall p, JsMap.get pm k = p ->
               primaryRecord pm (k, d) =
               match p with
               | Some productItem => mergedProduct k d productItem
               | None => deSoloProduct k d
               end).
    { intros p <-. reflexivity. }
    destruct (JsMap.get pm k) as [p|] eqn:E;
      rewrite IH by assumption; rewrite (Hhead _ eq_refl), <- app_assoc; simpl.
    + rewrite delete_unmatched, Hrest; auto.
      intros k' Hk'. apply map_get_delete_other. congruence.
    + now rewrite unmatched_absent by assumption.
Qed.

Lemma secondaryLoop_spec productMap : forall acc,
  secondaryLoop productMap acc = (acc ++ map secondaryRecord productMap)%list.
Proof.
  unfold secondaryLoop, JsMap.entries.
  induction productMap as [|e pm IH]; intros acc; simpl.
  - now rewrite app_nil_r.
  - rewrite IH. now rewrite <- app_assoc.
Qed.

(** The unified set in closed form: one record per entry of the primary
    index, in index order, then one per unmatched entry of the secondary
    index, in index order. *)
Lemma mergeFiles_eq deData productData :
  mergeFiles deData productData =
  (map (primaryRecord (populate productData)) (populate deData)
   ++ map secondaryRecord
        (unmatched (keys (populate deData)) (populate productData)))%list.
Proof.
  unfold mergeFiles, JsMap.entries.
  rewrite primaryLoop_spec by apply populate_nodup.
  now rewrite secondaryLoop_spec.
Qed.

(** *** The SKU field of the emitted records *)

Lemma get_set_other (o : object) k k' v :
  k <> k' -> get (set o k v) k' = get o k'.
Proof.
  intros Hne. induction o as [|[k0 v0] o IH]; simpl.
  - destruct (String.eqb k k') eqn:E; auto.
    apply String.eqb_eq in E. contradiction.
  - destruct (String.eqb k0 k) eqn:E; simpl.
    + apply String.eqb_eq in E. subst k0.
      destruct (String.eqb k k') eqn:E'; auto.
      apply String.eqb_eq in E'. contradiction.
    + now rewrite IH.
Qed.

Lemma get_set_same (o : object) k v : get (set o k v) k = v.
Proof.
  induction o as [|[k0 v0] o IH]; simpl.
  - now rewrite String.eqb_refl.
  - destruct (String.eqb k0 k) eqn:E; simpl; rewrite E; auto.
Qed.

Lemma get_addImages item k : forall o,
  ~ In k imageKeys -> get (addImages item o) k = get o k.
Proof.
  unfold addImages. generalize imageKeys as ks.
  induction ks as [|k0 ks IH]; intros o Hk; simpl; auto.
  rewrite IH by (simpl in Hk; tauto).
  destruct (field item k0) as [c|]; auto.
  destruct (truthy c); auto.
  apply get_set_other. simpl in Hk. tauto.
Qed.

Lemma sku_not_image : ~ In "SKU" imageKeys.
Proof. simpl. intuition discriminate. Qed.

Lemma primaryRecord_sku pm e : get (primaryRecord pm e) "SKU" = Str (fst e).
Proof.
  unfold primaryRecord, mergedProduct, deSoloProduct.
  destruct (JsMap.get pm (fst e));
    now rewrite get_addImages by apply sku_not_image.
Qed.

Lemma secondaryRecord_sku e : get (secondaryRecord e) "SKU" = Str (fst e).
Proof.
  unfold secondaryRecord, productInfoOnly.
  now rewrite get_addImages by apply sku_not_image.
Qed.

(** *** Counting keys *)

Section Counting.
Context {V : Type}.
Implicit Types (m : JsMap.t V) (k : string).

Lemma count_absent m k :
  ~ In k (keys m) -> filter (keyIs k) m = [].
Proof.
  induction m as [|[k0 v0] m IH]; simpl; auto.
  intros H. unfold keyIs at 1. simpl.
  destruct (String.eqb k0 k) eqn:E.
  - apply String.eqb_eq in E. tauto.
  - apply IH. tauto.
Qed.

Lemma count_present m k :
  NoDup (keys m) -> In k (keys m) ->
  exists v, filter (keyIs k) m = [(k, v)] /\ JsMap.get m k = Some v.
Proof.
  induction m as [|[k0 v0] m IH]; simpl; [tauto|].
  intros Hnd Hin. inversion Hnd as [|? ? Hnotin Hnd']; subst.
  unfold keyIs at 1. simpl.
  destruct (String.eqb k0 k) eqn:E.
  - apply String.eqb_eq in E. subst k0.
    exists v0. now rewrite count_absent.
  - apply String.eqb_neq in E. apply IH; tauto.
Qed.

Lemma filter_keys_nodup (p : string * V -> bool) m :
  NoDup (keys m) -> NoDup (keys (filter p m)).
Proof.
  induction m as [|e m IH]; simpl; auto.
  intros Hnd. inversion Hnd as [|? ? Hnotin Hnd']; subst.
  destruct (p e); simpl; auto.
  constructor; auto.
  intros Hin. apply Hnotin.
  unfold keys in *. rewrite in_map_iff in *.
  destruct Hin as [x [Hx Hin]]. exists x. split; auto.
  apply filter_In in Hin. tauto.
Qed.

Lemma get_filter (p : string * V -> bool) m k v :
  NoDup (keys m) -> JsMap.get m k = Some v ->
  JsMap.get (filter p m) k = if p (k, v) then Some v else None.
Proof.
  induction m as [|[k0 v0] m IH]; simpl; [discriminate|].
  intros Hnd. inversion Hnd as [|? ? Hnotin Hnd']; subst.
  destruct (String.eqb k0 k) eqn:E.
  - apply String.eqb_eq in E. subst k0. intros [= ->].
    destruct (p (k, v)) eqn:Ep; simpl.
    + now rewrite String.eqb_refl.
    + destruct (JsMap.get (filter p m) k) eqn:G; auto.
      exfalso. apply Hnotin.
      assert (Hk : In k (keys (filter p m))) by (apply map_get_in; congruence).
      unfold keys in *. rewrite in_map_iff in *.
      destruct Hk as [x [Hx Hin]]. exists x. split; auto.
      apply filter_In in Hin. tauto.
  - intros Hget. destruct (p (k0, v0)); simpl; [rewrite E|]; auto.
Qed.
End Counting.

Lemma unmatched_keys ks (pm : JsMap.t record) k :
  In k (keys (unmatched ks pm)) <-> In k (keys pm) /\ ~ In k ks.
Proof.
  unfold unmatched, keys. rewrite !in_map_iff. split.
  - intros [[k0 v0] [<- Hin]]. apply filter_In in Hin. destruct Hin as [Hin Hb].
    simpl in *. split.
    + exists (k0, v0). auto.
    + intros Hk. apply negb_true_iff in Hb.
      assert (Ht : existsb (String.eqb k0) ks = true).
      { apply existsb_exists. exists k0. split; auto. apply String.eqb_refl. }
      congruence.
  - intros [[[k0 v0] [<- Hin]] Hk]. exists (k0, v0). split; auto.
    apply filter_In. split; auto. simpl in *.
    apply negb_true_iff. destruct (existsb (String.eqb k0) ks) eqn:Ex; auto.
    apply existsb_exists in Ex. destruct Ex as [x [Hx Heq]].
    apply String.eqb_eq in Heq. subst x. contradiction.
Qed.

Lemma hasSku_primary pm k e : hasSku k (primaryRecord pm e) = keyIs k e.
Proof. unfold hasSku. now rewrite primaryRecord_sku. Qed.

Lemma hasSku_secondary k e : hasSku k (secondaryRecord e) = keyIs k e.
Proof. unfold hasSku. now rewrite secondaryRecord_sku. Qed.

Lemma filter_map_comm {A B} (p : B -> bool) (f : A -> B) l :
  filter p (map f l) = map f (filter (fun a => p (f a)) l).
Proof.
  induction l as [|a l IH]; simpl; auto.
  destruct (p (f a)); simpl; congruence.
Qed.

(** The records of the unified set that carry key [k]. *)
Lemma mergeFiles_filter deData productData k :
  filter (hasSku k) (mergeFiles deData productData) =
  (map (primaryRecord (populate productData))
       (filter (keyIs k) (populate deData))
   ++ map secondaryRecord
        (filter (keyIs k)
           (unmatched (keys (populate deData)) (populate productData))))%list.
Proof.
  rewrite mergeFiles_eq, filter_app, !filter_map_comm.
  f_equal; f_equal; apply filter_ext; intros e.
  - apply hasSku_primary.
  - apply hasSku_secondary.
Qed.

Lemma populate_length data :
  List.length (populate data) = List.length (nodup string_dec (keysOf data)).
Proof.
  rewrite <- (length_map fst (populate data)).
  apply Permutation_length, NoDup_Permutation.
  - apply populate_nodup.
  - apply NoDup_nodup.
  - intros k. rewrite nodup_In. apply populate_keys.
Qed.

Lemma unmatched_disjoint ks (pm : JsMap.t record) :
  (forall k, In k ks -> ~ In k (keys pm)) -> unmatched ks pm = pm.
Proof.
  intros Hdis. unfold unmatched.
  induction pm as [|[k0 v0] pm IH]; simpl; auto.
  destruct (existsb (String.eqb k0) ks) eqn:Ex; simpl.
  - apply existsb_exists in Ex. destruct Ex as [x [Hx Heq]].
    apply String.eqb_eq in Heq. subst x.
    exfalso. apply (Hdis k0 Hx). simpl. auto.
  - f_equal. apply IH. intros k Hk Hin. apply (Hdis k Hk). simpl. auto.
Qed.

Lemma mergeFiles_key_once deData productData k :
  In k (keysOf deData) \/ In k (keysOf productData) ->
  exists o, filter (hasSku k) (mergeFiles deData productData) = [o]
            /\ producedBy deData productData k o.
Proof.
  pose proof (populate_nodup deData) as Hnd.
  pose proof (populate_nodup productData) as Hnp.
  intros Hk. rewrite mergeFiles_filter. unfold producedBy.
  destruct (in_dec string_dec k (keys (populate deData))) as [Hin|Hout].
  - destruct (count_present _ _ Hnd Hin) as [d [-> ->]].
    rewrite (count_absent (unmatched _ _)).
    + simpl. eexists. split; [reflexivity|].
      unfold primaryRecord. simpl.
      now destruct (JsMap.get (populate productData) k).
    + rewrite unmatched_keys. tauto.
  - rewrite (count_absent (populate deData)) by assumption.
    assert (Hp : In k (keys (populate productData))).
    { rewrite populate_keys. rewrite populate_keys in Hout. tauto. }
    assert (Hu : In k (keys (unmatched (keys (populate deData))
                                       (populate productData)))).
    { rewrite unmatched_keys. tauto. }
    assert (Hnu : NoDup (keys (unmatched (keys (populate deData))
                                         (populate productData))))
      by apply filter_keys_nodup, Hnp.
    destruct (count_present _ _ Hnu Hu) as [p [-> Hget]].
    simpl. eexists. split; [reflexivity|].
    destruct (JsMap.get (populate deData) k) eqn:Gd.
    { exfalso. apply Hout, map_get_in. congruence. }
    destruct (JsMap.get (populate productData) k) as [p'|] eqn:Gp.
    + unfold unmatched in Hget. rewrite (get_filter _ _ _ _ Hnp Gp) in Hget.
      destruct (negb _) in Hget; [|discriminate].
      injection Hget as ->. reflexivity.
    + apply map_get_in in Hp. contradiction.
Qed.

(** C1. Every normalized key of either input appears exactly once in the
    unified set, its record is the one built by the branch that the two
    indices select (both-present, primary-only, secondary-only), every
    record of the unified set carries such a key, and for disjoint key
    sets the length of the unified set is the number of distinct primary
    keys plus the number of distinct secondary keys. *)
Theorem mergeFiles_each_key_once (deData productData : list record) :
  (forall k, In k (keysOf deData) \/ In k (keysOf productData) ->
     exists o, filter (hasSku k) (mergeFiles deData productData) = [o]
               /\ producedBy deData productData k o)
  /\ (forall o, In o (mergeFiles deData productData) ->
        exists k, (In k (keysOf deData) \/ In k (keysOf productData))
                  /\ get o "SKU" = Str k)
  /\ ((forall k, In k (keysOf deData) -> ~ In k (keysOf productData)) ->
      List.length (mergeFiles deData productData) =
      List.length (nodup string_dec (keysOf deData))
      + List.length (nodup string_dec (keysOf productData))).
Proof.
  split; [|split].
  - intros k. apply mergeFiles_key_once.
  - intros o Ho. rewrite mergeFiles_eq in Ho.
    apply in_app_or in Ho. destruct Ho as [Ho|Ho];
      apply in_map_iff in Ho; destruct Ho as [[k r] [<- Hin]]; exists k.
    + split; [|apply primaryRecord_sku].
      left. apply populate_keys. change k with (fst (k, r)). now apply in_map.
    + split; [|apply secondaryRecord_sku].
      right. apply populate_keys.
      assert (Hk : In k (keys (unmatched (keys (populate deData))
                                         (populate productData)))).
      { change k with (fst (k, r)). now apply in_map. }
      apply unmatched_keys in Hk. tauto.
  - intros Hdis. rewrite mergeFiles_eq, length_app, !length_map.
    rewrite unmatched_disjoint.
    + now rewrite !populate_length.
    + intros k Hk. rewrite !populate_keys in *. auto.
Qed.

Lemma mergeFiles_each_key_once_witness :
  (exists o, filter (hasSku "A1") (mergeFiles dePair productPair) = [o]
             /\ producedBy dePair productPair "A1" o)
  /\ List.length (mergeFiles [[("SKU", "K1")]] [[("SKU", "K2")]]) = 2.
Proof.
  split.
  - apply (proj1 (mergeFiles_each_key_once dePair productPair)).
    left. vm_compute. auto.
  - apply (proj2 (proj2 (mergeFiles_each_key_once
                           [[("SKU", "K1")]] [[("SKU", "K2")]]))).
    vm_compute. intros k [<-|[]] [H|[]]. discriminate H.
Defined.

(* ------------------------------------------------------------------ *)
(** *** Order of the unified set *)

Lemma notIn_true ks k : notIn ks k = true <-> ~ In k ks.
Proof.
  unfold notIn. rewrite negb_true_iff. split.
  - intros Hf Hin.
    assert (Ht : existsb (String.eqb k) ks = true).
    { apply existsb_exists. exists k. split; auto. apply String.eqb_refl. }
    congruence.
  - intros Hn. destruct (existsb (String.eqb k) ks) eqn:Ex; auto.
    apply existsb_exists in Ex. destruct Ex as [x [Hx Heq]].
    apply String.eqb_eq in Heq. subst x. contradiction.
Qed.

Lemma notIn_ext l1 l2 k :
  (forall k', In k' l1 <-> In k' l2) -> notIn l1 k = notIn l2 k.
Proof.
  intros H.
  destruct (notIn l1 k) eqn:N1, (notIn l2 k) eqn:N2; auto.
  - apply notIn_true in N1. rewrite H in N1. apply notIn_true in N1. congruence.
  - apply notIn_true in N2. rewrite <- H in N2. apply notIn_true in N2. congruence.
Qed.

Lemma filter_filter_and {A} (p q : A -> bool) l :
  filter p (filter q l) = filter (fun a => q a && p a) l.
Proof.
  induction l as [|a l IH]; simpl; auto.
  destruct (q a); simpl; [destruct (p a)|]; simpl; congruence.
Qed.

Lemma populate_from_order data : forall m,
  keys (fold_left populateStep data m) =
  (keys m ++ filter (notIn (keys m)) (firstOccurrences (keysOf data)))%list.
Proof.
  induction data as [|item data IH]; intros m; simpl.
  - now rewrite app_nil_r.
  - rewrite IH, populateStep_keyOf.
    destruct (keyOf item) as [k'|]; simpl; auto.
    rewrite map_keys_set. destruct (JsMap.has m k') eqn:E.
    + apply map_has_in in E.
      assert (Hn : notIn (keys m) k' = false).
      { destruct (notIn (keys m) k') eqn:N; auto.
        apply notIn_true in N. contradiction. }
      rewrite Hn, filter_filter_and. f_equal. apply filter_ext_in.
      intros k _. destruct (String.eqb k k') eqn:Ek; simpl; auto.
      apply String.eqb_eq in Ek. subst k. auto.
    + assert (Hn : notIn (keys m) k' = true).
      { apply notIn_true. intros Hin. apply map_has_in in Hin. congruence. }
      rewrite Hn, <- app_assoc. simpl. do 2 f_equal.
      rewrite filter_filter_and. apply filter_ext. intros k.
      unfold notIn. rewrite existsb_app. simpl.
      rewrite orb_false_r, negb_orb. apply andb_comm.
Qed.

(** The keys of an index are the distinct keys of the dataset, each at
    the place of its first occurrence. *)
Lemma populate_order data : keys (populate data) = firstOccurrences (keysOf data).
Proof.
  unfold populate. rewrite populate_from_order. simpl.
  induction (firstOccurrences (keysOf data)) as [|k l IH]; simpl; congruence.
Qed.

Lemma keys_filter_fst {V} (p : string -> bool) (m : JsMap.t V) :
  keys (filter (fun e => p (fst e)) m) = filter p (keys m).
Proof.
  induction m as [|[k v] m IH]; simpl; auto.
  destruct (p k); simpl; congruence.
Qed.

Lemma unmatched_order deData productData :
  keys (unmatched (keys (populate deData)) (populate productData)) =
  filter (notIn (keysOf deData)) (firstOccurrences (keysOf productData)).
Proof.
  change (unmatched (keys (populate deData)) (populate productData))
    with (filter (fun e : string * record => notIn (keys (populate deData)) (fst e))
                 (populate productData)).
  rewrite (keys_filter_fst (notIn (keys (populate deData)))), !populate_order.
  apply filter_ext. intros k. apply notIn_ext. intros k'.
  rewrite <- populate_order. apply populate_keys.
Qed.

(** On a primary dataset whose first item is primary-only and whose
    second item is in both datasets, the unified set starts with the
    primary-only record: the groups are not emitted one after the
    other. *)
Lemma mergeFiles_not_grouped :
  mergeFiles deInterleaved productInterleaved
  <> groupedOrder deInterleaved productInterleaved
  /\ map (fun o => get o "SKU") (mergeFiles deInterleaved productInterleaved)
     = [Str "P1"; Str "C1"]
  /\ map (fun o => get o "SKU") (groupedOrder deInterleaved productInterleaved)
     = [Str "C1"; Str "P1"].
Proof.
  split; [|split]; [|reflexivity|reflexivity].
  intros H.
  apply (f_equal (map (fun o => get o "SKU"))) in H.
  vm_compute in H. discriminate H.
Qed.

(** C2 (amended). The unified set is one record per key of the primary
    index, in the order in which the keys first occur in the primary
    dataset, each record both-present or primary-only as the secondary
    index has the key or not (the two kinds interleave), followed by one
    secondary-only record per key of the secondary index that the
    primary index lacks, in the order in which those keys first occur
    in the secondary dataset. *)
Theorem mergeFiles_order (deData productData : list record) :
  mergeFiles deData productData =
    (map (primaryRecord (populate productData)) (populate deData)
     ++ map secondaryRecord
          (unmatched (keys (populate deData)) (populate productData)))%list
  /\ keys (populate deData) = firstOccurrences (keysOf deData)
  /\ keys (unmatched (keys (populate deData)) (populate productData))
     = filter (notIn (keysOf deData)) (firstOccurrences (keysOf productData))
  /\ map (fun o => get o "SKU") (mergeFiles deData productData)
     = map Str (firstOccurrences (keysOf deData)
                ++ filter (notIn (keysOf deData))
                     (firstOccurrences (keysOf productData)))%list.
Proof.
  split; [apply mergeFiles_eq|].
  split; [apply populate_order|].
  split; [apply unmatched_order|].
  rewrite mergeFiles_eq, map_app, !map_map.
  rewrite <- populate_order, <- unmatched_order, map_app.
  unfold keys. rewrite !map_map.
  f_equal; apply map_ext; intros e.
  - apply primaryRecord_sku.
  - apply secondaryRecord_sku.
Qed.

(* ------------------------------------------------------------------ *)
(* ================================================================== *)
(** ** normalizeSKU *)

Lemma toLowerCase_length s : String.length (toLowerCase s) = String.length s.
Proof. induction s; simpl; congruence. Qed.

Lemma take_app p rest : take (String.length p) (p ++ rest) = p.
Proof. induction p; simpl; [now destruct rest | congruence]. Qed.

Lemma drop_app p rest : drop (String.length p) (p ++ rest) = rest.
Proof. induction p; simpl; [now destruct rest | congruence]. Qed.

Lemma append_length p q :
  String.length (p ++ q) = String.length p + String.length q.
Proof. induction p; simpl; congruence. Qed.

(* ------------------------------------------------------------------ *)
(** *** White space and trim *)

Lemma append_assoc a b c : (a ++ b) ++ c = a ++ (b ++ c).
Proof. induction a; simpl; congruence. Qed.

Lemma append_nil_r a : a ++ "" = a.
Proof. induction a; simpl; congruence. Qed.

Lemma whiteSpace_cases w :
  In w WHITE_SPACE ->
  (exists c, w = String c "" /\ isWhiteSpace c = true)
  \/ (exists c1 c2, w = String c1 (String c2 "")
                    /\ isWhiteSpace c1 = false /\ isWhiteSpace2 c1 c2 = true)
  \/ (exists c1 c2 c3, w = String c1 (String c2 (String c3 ""))
                       /\ isWhiteSpace c1 = false /\ isWhiteSpace2 c1 c2 = false
                       /\ isWhiteSpace3 c1 c2 c3 = true).
Proof.
  unfold WHITE_SPACE. intros H.
  repeat (destruct H as [<-|H];
          [first [ left; eexists; split; reflexivity
                 | right; left; do 2 eexists; repeat split; reflexivity
                 | right; right; do 3 eexists; repeat split; reflexivity ]|]).
  destruct H.
Qed.

Lemma nat_of_ascii_inj (c : ascii) n : nat_of_ascii c = n -> c = ascii_of_nat n.
Proof. intros <-. now rewrite ascii_nat_embedding. Qed.

Lemma isWhiteSpace_In c : isWhiteSpace c = true -> In (String c "") WHITE_SPACE.
Proof.
  unfold isWhiteSpace. cbv zeta. intros H.
  rewrite <- (ascii_nat_embedding c).
  generalize dependent (nat_of_ascii c). intros n H.
  assert (Hn : n = 9 \/ n = 10 \/ n = 11 \/ n = 12 \/ n = 13 \/ n = 32) by lia.
  clear H. unfold WHITE_SPACE, byte1.
  repeat (destruct Hn as [->|Hn]; [auto 30 using in_eq, in_cons|]).
  subst. auto 30 using in_eq, in_cons.
Qed.

Lemma isWhiteSpace2_In c1 c2 :
  isWhiteSpace2 c1 c2 = true -> In (String c1 (String c2 "")) WHITE_SPACE.
Proof.
  unfold isWhiteSpace2. rewrite andb_true_iff, !Nat.eqb_eq. intros [H1 H2].
  apply nat_of_ascii_inj in H1, H2. subst. unfold WHITE_SPACE. simpl. tauto.
Qed.

Lemma isWhiteSpace3_In c1 c2 c3 :
  isWhiteSpace3 c1 c2 c3 = true ->
  In (String c1 (String c2 (String c3 ""))) WHITE_SPACE.
Proof.
  unfold isWhiteSpace3. cbv zeta. intros H.
  rewrite <- (ascii_nat_embedding c1), <- (ascii_nat_embedding c2),
    <- (ascii_nat_embedding c3).
  generalize dependent (nat_of_ascii c3).
  generalize dependent (nat_of_ascii c2).
  generalize dependent (nat_of_ascii c1).
  intros n1 n2 n3 H.
  assert (Hc : (n1 = 225 /\ n2 = 154 /\ n3 = 128)
               \/ (n1 = 226 /\ n2 = 128
                   /\ (n3 = 128 \/ n3 = 129 \/ n3 = 130 \/ n3 = 131
                       \/ n3 = 132 \/ n3 = 133 \/ n3 = 134 \/ n3 = 135
                       \/ n3 = 136 \/ n3 = 137 \/ n3 = 138 \/ n3 = 168
                       \/ n3 = 169 \/ n3 = 175))
               \/ (n1 = 226 /\ n2 = 129 /\ n3 = 159)
               \/ (n1 = 227 /\ n2 = 128 /\ n3 = 128)
               \/ (n1 = 239 /\ n2 = 187 /\ n3 = 191)) by lia.
  clear H. unfold WHITE_SPACE, byte3, byte2, byte1.
  destruct Hc as [[-> [-> ->]]|[[-> [-> Hc]]|[[-> [-> ->]]|[[-> [-> ->]]|[-> [-> ->]]]]]];
    [auto 30 using in_eq, in_cons | | auto 30 using in_eq, in_cons ..].
  repeat (destruct Hc as [->|Hc]; [auto 30 using in_eq, in_cons|]).
  subst. auto 30 using in_eq, in_cons.
Qed.

Lemma trimStart_eq s :
  trimStart s = match whiteSpaceLength s with
                | 0 => s
                | n => trimStart (drop n s)
                end.
Proof.
  destruct s as [|c1 [|c2 [|c3 s3]]]; cbn [trimStart whiteSpaceLength];
    try reflexivity.
  - destruct (isWhiteSpace c1); reflexivity.
  - destruct (isWhiteSpace c1); [reflexivity|].
    destruct (isWhiteSpace2 c1 c2); reflexivity.
  - destruct (isWhiteSpace c1); [reflexivity|].
    destruct (isWhiteSpace2 c1 c2); [reflexivity|].
    destruct (isWhiteSpace3 c1 c2 c3); reflexivity.
Qed.

Lemma whiteSpaceLength_token w rest :
  In w WHITE_SPACE ->
  whiteSpaceLength (w ++ rest) = String.length w /\ 0 < String.length w.
Proof.
  intros H.
  destruct (whiteSpace_cases w H)
    as [[c [-> W]]|[[c1 [c2 [-> [W1 W2]]]]|[c1 [c2 [c3 [-> [W1 [W2 W3]]]]]]]];
    cbn [append whiteSpaceLength String.length];
    rewrite ?W, ?W1, ?W2, ?W3; split; auto; lia.
Qed.

Lemma whiteSpaceLength_inv s :
  whiteSpaceLength s <> 0 ->
  exists w rest, In w WHITE_SPACE /\ s = w ++ rest
                 /\ whiteSpaceLength s = String.length w.
Proof.
  destruct s as [|c1 s1]; cbn [whiteSpaceLength]; [congruence|].
  destruct (isWhiteSpace c1) eqn:W1.
  { intros _. exists (String c1 ""), s1. split; [now apply isWhiteSpace_In|].
    split; reflexivity. }
  destruct s1 as [|c2 s2]; [congruence|].
  destruct (isWhiteSpace2 c1 c2) eqn:W2.
  { intros _. exists (String c1 (String c2 "")), s2.
    split; [now apply isWhiteSpace2_In|]. split; reflexivity. }
  destruct s2 as [|c3 s3]; [congruence|].
  destruct (isWhiteSpace3 c1 c2 c3) eqn:W3; [|congruence].
  intros _. exists (String c1 (String c2 (String c3 ""))), s3.
  split; [now apply isWhiteSpace3_In|]. split; reflexivity.
Qed.

Lemma trimStart_token w rest :
  In w WHITE_SPACE -> trimStart (w ++ rest) = trimStart rest.
Proof.
  intros H. rewrite trimStart_eq.
  destruct (whiteSpaceLength_token w rest H) as [-> Hpos].
  destruct (String.length w) as [|n] eqn:E; [lia|].
  now rewrite <- E, drop_app.
Qed.

Lemma trimStart_whiteSpaces a rest :
  whiteSpaces a -> trimStart (a ++ rest) = trimStart rest.
Proof.
  induction 1 as [|w a Hw _ IH]; [reflexivity|].
  now rewrite append_assoc, trimStart_token.
Qed.

Lemma whiteSpaces_blank a : whiteSpaces a -> trimStart a = "".
Proof.
  intros H. rewrite <- (append_nil_r a). now rewrite trimStart_whiteSpaces.
Qed.


Lemma whiteSpaces_one w : In w WHITE_SPACE -> whiteSpaces w.
Proof.
  intros H. rewrite <- (append_nil_r w). constructor; [exact H | constructor].
Qed.

(** Induction along the white space characters that a string begins
    with. *)
Lemma trimStart_ind (P : string -> Prop) :
  (forall s, whiteSpaceLength s = 0 -> P s) ->
  (forall w rest, In w WHITE_SPACE -> P rest -> P (w ++ rest)) ->
  forall s, P s.
Proof.
  intros Hstop Hstep s.
  remember (String.length s) as n eqn:Hn. revert s Hn.
  induction n as [n IH] using lt_wf_ind. intros s Hn.
  destruct (Nat.eq_dec (whiteSpaceLength s) 0) as [E|E]; [now apply Hstop|].
  destruct (whiteSpaceLength_inv s E) as [w [rest [Hw [-> _]]]].
  apply Hstep; [exact Hw|].
  apply (IH (String.length rest)); [|reflexivity].
  subst n. rewrite append_length.
  destruct (whiteSpaceLength_token w rest Hw). lia.
Qed.

Lemma trimStart_split s :
  exists a, whiteSpaces a /\ s = a ++ trimStart s
            /\ whiteSpaceLength (trimStart s) = 0.
Proof.
  induction s as [s E|w rest Hw [a [Ha [Hs H0]]]] using trimStart_ind.
  - exists "". rewrite trimStart_eq, E. repeat split; auto. constructor.
  - exists (w ++ a). rewrite trimStart_token by assumption.
    split; [now constructor|]. split; [|exact H0].
    now rewrite append_assoc, <- Hs.
Qed.

Lemma blank_whiteSpaces s : trimStart s = "" -> whiteSpaces s.
Proof.
  intros E. destruct (trimStart_split s) as [a [Ha [Hs _]]].
  rewrite E, append_nil_r in Hs. now subst.
Qed.

Lemma isWhiteSpace_low c : isWhiteSpace c = true -> nat_of_ascii c < 128.
Proof.
  unfold isWhiteSpace.
  rewrite orb_true_iff, andb_true_iff, !Nat.leb_le, Nat.eqb_eq. lia.
Qed.

Lemma isWhiteSpace2_bytes c1 c2 :
  isWhiteSpace2 c1 c2 = true ->
  192 <= nat_of_ascii c1 /\ 128 <= nat_of_ascii c2 < 192.
Proof.
  unfold isWhiteSpace2. rewrite andb_true_iff, !Nat.eqb_eq. lia.
Qed.

Lemma isWhiteSpace3_bytes c1 c2 c3 :
  isWhiteSpace3 c1 c2 c3 = true ->
  192 <= nat_of_ascii c1 /\ 128 <= nat_of_ascii c2 < 192
  /\ 128 <= nat_of_ascii c3 < 192.
Proof.
  unfold isWhiteSpace3. cbv zeta. lia.
Qed.

Lemma whiteSpace_begins w rest : In w WHITE_SPACE -> beginsCharacter (w ++ rest).
Proof.
  intros H.
  destruct (whiteSpace_cases w H)
    as [[c [-> W]]|[[c1 [c2 [-> [W1 W2]]]]|[c1 [c2 [c3 [-> [W1 [W2 W3]]]]]]]];
    cbn [append beginsCharacter].
  - left. now apply isWhiteSpace_low.
  - right. now apply isWhiteSpace2_bytes in W2.
  - right. now apply isWhiteSpace3_bytes in W3.
Qed.

Lemma whiteSpaces_begins v : whiteSpaces v -> beginsCharacter v.
Proof.
  destruct 1 as [|w s Hw _]; [exact I | now apply whiteSpace_begins].
Qed.

Lemma whiteSpaceLength_app s v :
  s <> "" -> whiteSpaceLength s = 0 -> beginsCharacter v ->
  whiteSpaceLength (s ++ v) = 0.
Proof.
  intros Hne H0 Hv.
  destruct s as [|c1 s1]; [congruence|]. clear Hne.
  cbn [whiteSpaceLength append] in *.
  destruct (isWhiteSpace c1) eqn:W1; [discriminate|].
  destruct s1 as [|c2 s2]; cbn [append].
  - destruct v as [|d1 v1]; [reflexivity|]. cbn [beginsCharacter] in Hv.
    destruct (isWhiteSpace2 c1 d1) eqn:W2.
    { apply isWhiteSpace2_bytes in W2. lia. }
    destruct v1 as [|d2 v2]; [reflexivity|].
    destruct (isWhiteSpace3 c1 d1 d2) eqn:W3; [|reflexivity].
    apply isWhiteSpace3_bytes in W3. lia.
  - destruct (isWhiteSpace2 c1 c2) eqn:W2; [discriminate|].
    destruct s2 as [|c3 s3]; cbn [append].
    + destruct v as [|d1 v1]; [reflexivity|]. cbn [beginsCharacter] in Hv.
      destruct (isWhiteSpace3 c1 c2 d1) eqn:W3; [|reflexivity].
      apply isWhiteSpace3_bytes in W3. lia.
    + exact H0.
Qed.

Lemma trimStart_app s v :
  beginsCharacter v ->
  trimStart (s ++ v) = match trimStart s with
                       | EmptyString => trimStart v
                       | t => t ++ v
                       end.
Proof.
  intros Hv.
  induction s as [s E|w rest Hw IH] using trimStart_ind.
  - rewrite (trimStart_eq s), E.
    destruct s as [|c s']; [reflexivity|].
    rewrite trimStart_eq, whiteSpaceLength_app; auto. discriminate.
  - rewrite append_assoc, (trimStart_token w (rest ++ v)),
      (trimStart_token w rest) by assumption.
    exact IH.
Qed.

Lemma trimStart_length s : String.length (trimStart s) <= String.length s.
Proof.
  destruct (trimStart_split s) as [a [_ [Hs _]]].
  rewrite Hs at 2. rewrite append_length. lia.
Qed.

Lemma trimEnd_length s : String.length (trimEnd s) <= String.length s.
Proof.
  induction s as [|c s IH]; [apply le_n|].
  cbn [trimEnd]. destruct (trimStart (String c s)); simpl; lia.
Qed.

Lemma trimEnd_blank s : trimStart s = "" -> trimEnd s = "".
Proof. intros E. destruct s; [reflexivity|]. cbn [trimEnd]. now rewrite E. Qed.

Lemma trimEnd_split s :
  exists b, whiteSpaces b /\ s = trimEnd s ++ b.
Proof.
  induction s as [|c s [b [Hb Hs]]].
  - exists "". split; [constructor | reflexivity].
  - cbn [trimEnd]. destruct (trimStart (String c s)) eqn:E.
    + exists (String c s). split; [now apply blank_whiteSpaces | reflexivity].
    + exists b. split; [exact Hb|]. cbn [append]. now rewrite <- Hs.
Qed.

Lemma trimEnd_app s v : whiteSpaces v -> trimEnd (s ++ v) = trimEnd s.
Proof.
  intros Hv. induction s as [|c s IH].
  - cbn [append]. now apply trimEnd_blank, whiteSpaces_blank.
  - cbn [append trimEnd].
    change (String c (s ++ v)) with (String c s ++ v).
    rewrite trimStart_app by now apply whiteSpaces_begins.
    rewrite IH. destruct (trimStart (String c s)) eqn:E.
    + now rewrite whiteSpaces_blank.
    + reflexivity.
Qed.

Lemma whiteSpaces_last b :
  whiteSpaces b -> b <> "" ->
  exists front w, In w WHITE_SPACE /\ b = front ++ w.
Proof.
  induction 1 as [|w s Hw Hs IH]; [congruence|]. intros _.
  destruct s as [|c s'].
  - exists "", w. now rewrite append_nil_r.
  - destruct IH as [front [w' [Hw' ->]]]; [discriminate|].
    exists (w ++ front), w'. now rewrite append_assoc.
Qed.

Lemma trimStart_fixed t :
  (forall w rest, In w WHITE_SPACE -> t <> w ++ rest) -> trimStart t = t.
Proof.
  intros Hno. rewrite trimStart_eq.
  destruct (Nat.eq_dec (whiteSpaceLength t) 0) as [->|E]; [reflexivity|].
  destruct (whiteSpaceLength_inv t E) as [w [rest [Hw [-> _]]]].
  now destruct (Hno w rest Hw).
Qed.

Lemma trimStart_low c s :
  Nat.ltb (nat_of_ascii c) 128 = true -> isWhiteSpace c = false ->
  trimStart (String c s) = String c s.
Proof.
  intros Hc W. apply Nat.ltb_lt in Hc. rewrite trimStart_eq.
  cbn [whiteSpaceLength]. rewrite W.
  destruct s as [|c2 s2]; [reflexivity|].
  destruct (isWhiteSpace2 c c2) eqn:W2.
  { apply isWhiteSpace2_bytes in W2. lia. }
  destruct s2 as [|c3 s3]; [reflexivity|].
  destruct (isWhiteSpace3 c c2 c3) eqn:W3; [|reflexivity].
  apply isWhiteSpace3_bytes in W3. lia.
Qed.

Lemma trimEnd_fixed t :
  (forall w front, In w WHITE_SPACE -> t <> front ++ w) -> trimEnd t = t.
Proof.
  intros Hno. destruct (trimEnd_split t) as [b [Hb Ht]].
  destruct b as [|c b'].
  - now rewrite append_nil_r in Ht.
  - destruct (whiteSpaces_last _ Hb) as [front [w [Hw E]]]; [discriminate|].
    exfalso. apply (Hno w (trimEnd t ++ front) Hw).
    now rewrite append_assoc, <- E.
Qed.

Lemma trimStart_no_start s w rest :
  In w WHITE_SPACE -> trimStart s <> w ++ rest.
Proof.
  intros Hw E. destruct (trimStart_split s) as [_ [_ [_ H0]]].
  rewrite E in H0. destruct (whiteSpaceLength_token w rest Hw). lia.
Qed.

Lemma trimEnd_no_end s w front :
  In w WHITE_SPACE -> trimEnd s <> front ++ w.
Proof.
  intros Hw E. destruct (trimEnd_split s) as [b [Hb Hs]].
  assert (Hlen : String.length (trimEnd s) <= String.length front).
  { rewrite Hs, E, append_assoc at 1.
    rewrite trimEnd_app by (now constructor). apply trimEnd_length. }
  rewrite E, append_length in Hlen.
  destruct (whiteSpaceLength_token w "" Hw). lia.
Qed.

(** What [trim] returns is the string without the white space at its
    two ends, and nothing else is. *)
Lemma trim_trims s : trims s (trim s).
Proof.
  destruct (trimStart_split s) as [a [Ha [Hs _]]].
  destruct (trimEnd_split (trimStart s)) as [b [Hb Hb']].
  exists a, b. unfold trim. split; [now rewrite <- Hb'|].
  split; [exact Ha|]. split; [exact Hb|]. split.
  - intros w rest Hw E.
    apply (trimStart_no_start s w (rest ++ b) Hw).
    now rewrite Hb', E, append_assoc.
  - intros w front Hw. now apply trimEnd_no_end.
Qed.

Lemma trims_unique s t : trims s t -> t = trim s.
Proof.
  intros [a [b [-> [Ha [Hb [Hstart Hend]]]]]]. unfold trim.
  rewrite trimStart_whiteSpaces by assumption.
  rewrite trimStart_app by now apply whiteSpaces_begins.
  rewrite (trimStart_fixed t Hstart).
  destruct t as [|c t'].
  - now rewrite whiteSpaces_blank.
  - rewrite trimEnd_app by assumption. symmetry. now apply trimEnd_fixed.
Qed.






(* ------------------------------------------------------------------ *)
(** *** The normalizer *)

Lemma matchPrefixI_strip lit s :
  match matchPrefixI lit s with
  | Some m => sliceFrom (String.length m) s
  | None => s
  end = stripPrefixI lit s.
Proof.
  unfold matchPrefixI, stripPrefixI, hasPrefixI, sliceFrom.
  destruct (String.eqb _ lit) eqn:E; auto.
  apply String.eqb_eq in E.
  now rewrite <- (toLowerCase_length (take _ s)), E.
Qed.

Lemma matchSuffixI_strip lit s :
  match matchSuffixI lit s with
  | Some m => sliceDropEnd (String.length m) s
  | None => s
  end = stripSuffixI lit s.
Proof.
  unfold matchSuffixI, stripSuffixI, hasSuffixI, sliceDropEnd.
  destruct (String.eqb _ lit) eqn:E; auto.
  apply String.eqb_eq in E.
  now rewrite <- (toLowerCase_length (drop _ s)), E.
Qed.

Lemma normalizeSKU_normalize_spec sku : normalizeSKU sku = normalize_spec sku.
Proof.
  unfold normalizeSKU, normalize_spec.
  destruct (truthy sku) eqn:T; simpl.
  - now rewrite matchPrefixI_strip, matchSuffixI_strip.
  - unfold truthy in T. apply negb_false_iff, String.eqb_eq in T. now subst.
Qed.

Lemma stripPrefixI_app p rest :
  toLowerCase p = PREFIX -> stripPrefixI PREFIX (p ++ rest) = rest.
Proof.
  intros Hp. unfold stripPrefixI, hasPrefixI.
  assert (Hlen : String.length PREFIX = String.length p)
    by now rewrite <- Hp, toLowerCase_length.
  now rewrite Hlen, take_app, drop_app, Hp, String.eqb_refl.
Qed.

Lemma stripSuffixI_app rest q :
  toLowerCase q = SUFFIX -> stripSuffixI SUFFIX (rest ++ q) = rest.
Proof.
  intros Hq. unfold stripSuffixI, hasSuffixI.
  assert (Hlen : String.length (rest ++ q) - String.length SUFFIX
                 = String.length rest).
  { rewrite append_length, <- Hq, toLowerCase_length. lia. }
  now rewrite Hlen, take_app, drop_app, Hq, String.eqb_refl.
Qed.

Lemma stripPrefixI_none s :
  toLowerCase (take (String.length PREFIX) s) <> PREFIX ->
  stripPrefixI PREFIX s = s.
Proof.
  intros H. unfold stripPrefixI, hasPrefixI.
  destruct (String.eqb_spec (toLowerCase (take (String.length PREFIX) s)) PREFIX);
    [contradiction | reflexivity].
Qed.

Lemma stripSuffixI_none s :
  toLowerCase (drop (String.length s - String.length SUFFIX) s) <> SUFFIX ->
  stripSuffixI SUFFIX s = s.
Proof.
  intros H. unfold stripSuffixI, hasSuffixI.
  destruct (String.eqb_spec
              (toLowerCase (drop (String.length s - String.length SUFFIX) s))
              SUFFIX); [contradiction | reflexivity].
Qed.

(** C3. [normalizeSKU] is: trim, strip one leading "b34" in any letter
    case if present, strip one trailing "v1" in any letter case if
    present, trim again, where to trim is to take away the longest run
    of white space characters at each end, and nothing else; it is
    defined on every string, and the four sample values are as stated,
    as are samples with white space around and inside. *)
Theorem normalizeSKU_correct :
  (forall sku, normalizeSKU sku = normalize_spec sku)
  /\ (forall s, trims s (trim s))
  /\ (forall s t, trims s t -> trim s = t)
  /\ (forall p rest, toLowerCase p = PREFIX ->
        stripPrefixI PREFIX (p ++ rest) = rest)
  /\ (forall s, toLowerCase (take (String.length PREFIX) s) <> PREFIX ->
        stripPrefixI PREFIX s = s)
  /\ (forall rest q, toLowerCase q = SUFFIX ->
        stripSuffixI SUFFIX (rest ++ q) = rest)
  /\ (forall s,
        toLowerCase (drop (String.length s - String.length SUFFIX) s) <> SUFFIX ->
        stripSuffixI SUFFIX s = s)
  /\ normalizeSKU "B34ABC123V1" = "ABC123"
  /\ normalizeSKU "abc" = "abc"
  /\ normalizeSKU "" = ""
  /\ normalizeSKU "b34" = ""
  /\ normalizeSKU ("  b34ABC 123v1" ++ TAB ++ LF) = "ABC 123"
  /\ normalizeSKU (NBSP ++ "B34 abc V1" ++ EM_SPACE ++ BOM) = "abc"
  /\ normalizeSKU (" " ++ NBSP ++ LF) = "".
Proof.
  split; [exact normalizeSKU_normalize_spec|].
  split; [exact trim_trims|].
  split; [intros s t H; symmetry; now apply trims_unique|].
  split; [exact stripPrefixI_app|].
  split; [exact stripPrefixI_none|].
  split; [exact stripSuffixI_app|].
  split; [exact stripSuffixI_none|].
  repeat split.
Qed.

Lemma normalizeSKU_correct_witness :
  trim ((" " ++ NBSP) ++ "A 1" ++ (TAB ++ BOM)) = "A 1"
  /\ stripPrefixI PREFIX ("B34" ++ "ABC123v1") = "ABC123v1"
  /\ stripPrefixI PREFIX "AB34" = "AB34"
  /\ stripSuffixI SUFFIX ("ABC123" ++ "V1") = "ABC123"
  /\ stripSuffixI SUFFIX "V1A" = "V1A".
Proof.
  destruct normalizeSKU_correct as [_ [_ [Htrim [Hp [Hnp [Hs [Hns _]]]]]]].
  split; [|split; [|split; [|split]]].
  - apply Htrim. exists (" " ++ NBSP), (TAB ++ BOM).
    split; [reflexivity|].
    split; [apply (whiteSpaces_cons " "); [simpl; tauto|];
            apply whiteSpaces_one; simpl; tauto|].
    split; [apply (whiteSpaces_cons TAB); [simpl; tauto|];
            apply whiteSpaces_one; simpl; tauto|].
    split.
    + intros w rest Hw E.
      destruct (whiteSpace_cases w Hw)
        as [[c [-> W]]|[[c1 [c2 [-> [W1 W2]]]]|[c1 [c2 [c3 [-> [W1 [W2 W3]]]]]]]];
        injection E as <-; subst; discriminate.
    + intros w front Hw E.
      assert (Hlast : trimEnd "A 1" = "A 1") by reflexivity.
      now apply (trimEnd_no_end "A 1" w front Hw).
  - apply Hp. reflexivity.
  - apply Hnp. discriminate.
  - apply Hs. reflexivity.
  - apply Hns. discriminate.
Defined.

(* ------------------------------------------------------------------ *)
(** *** The title of a both-present record *)

Lemma prefix_iff p : forall s,
  String.prefix p s = true <-> exists rest, s = p ++ rest.
Proof.
  induction p as [|a p IH]; intros [|b s]; simpl.
  - split; eauto.
  - split; eauto.
  - split; [discriminate | intros [rest H]; discriminate H].
  - destruct (ascii_dec a b) as [->|Hne].
    + rewrite IH. split; intros [rest H]; exists rest; congruence.
    + split; [discriminate | intros [rest H]; congruence].
Qed.

Lemma indexOf_nil p : indexOf "" p = if String.prefix p "" then Some 0 else None.
Proof. reflexivity. Qed.

Lemma indexOf_cons c s p :
  indexOf (String c s) p =
  if String.prefix p (String c s) then Some 0 else option_map S (indexOf s p).
Proof. reflexivity. Qed.

Lemma indexOf_sound p : forall s i,
  indexOf s p = Some i ->
  s = take i s ++ p ++ drop (i + String.length p) s.
Proof.
  induction s as [|c s IH]; intros i.
  - rewrite indexOf_nil. destruct (String.prefix p "") eqn:E; [|discriminate].
    intros [= <-]. apply prefix_iff in E. destruct E as [rest E].
    destruct p; [reflexivity | discriminate E].
  - rewrite indexOf_cons. destruct (String.prefix p (String c s)) eqn:E.
    + intros [= <-]. apply prefix_iff in E. destruct E as [rest E].
      simpl take. simpl plus. rewrite E at 2. now rewrite drop_app.
    + destruct (indexOf s p) as [j|] eqn:Ej; [|discriminate].
      intros [= <-]. simpl. f_equal. now apply IH.
Qed.

Lemma indexOf_first p : forall s i,
  indexOf s p = Some i ->
  forall j, j < i -> String.prefix p (drop j s) = false.
Proof.
  induction s as [|c s IH]; intros i.
  - rewrite indexOf_nil. destruct (String.prefix p ""); [|discriminate].
    intros [= <-] j Hj. lia.
  - rewrite indexOf_cons. destruct (String.prefix p (String c s)) eqn:E.
    + intros [= <-] j Hj. lia.
    + destruct (indexOf s p) as [k|] eqn:Ek; [|discriminate].
      intros [= <-] [|j] Hj; [exact E|].
      simpl drop. apply (IH k); auto. lia.
Qed.

Lemma indexOf_complete p : forall a b, exists i,
  indexOf (a ++ p ++ b) p = Some i /\ i <= String.length a.
Proof.
  induction a as [|c a IH]; intros b.
  - exists 0. split; auto.
    assert (E : String.prefix p (p ++ b) = true) by (apply prefix_iff; eauto).
    change ("" ++ p ++ b) with (p ++ b).
    destruct (p ++ b); [rewrite indexOf_nil | rewrite indexOf_cons]; now rewrite E.
  - destruct (IH b) as [i [Hi Hle]].
    change (String c a ++ p ++ b) with (String c (a ++ p ++ b)).
    rewrite indexOf_cons. destruct (String.prefix p (String c (a ++ p ++ b))).
    + exists 0. split; auto. simpl. lia.
    + exists (S i). rewrite Hi. split; auto. simpl. lia.
Qed.

Lemma includes_iff t sku :
  includes t sku = true <-> exists a b, t = a ++ sku ++ b.
Proof.
  unfold includes. split.
  - destruct (indexOf t sku) as [i|] eqn:E; [|discriminate].
    intros _. apply indexOf_sound in E. eauto.
  - intros [a [b ->]]. destruct (indexOf_complete sku a b) as [i [-> _]].
    reflexivity.
Qed.

Lemma get_literal_title (o : object) item :
  get (addImages item o) "Title" = get o "Title".
Proof. apply get_addImages. simpl. intuition discriminate. Qed.

Lemma processTitle_closed productItem sku :
  processTitle productItem sku =
  let name := orEmpty (field productItem "Name") in
  let brand := orEmpty (field productItem "Brand") in
  if truthy name && truthy brand
  then (if truthyOpt sku then stripSku (stripBrand name brand) (orEmpty sku)
        else stripBrand name brand)
  else name.
Proof.
  unfold processTitle, stripSku, stripBrand, sliceFrom.
  destruct (field productItem "Brand") as [brand|]; cbn [truthyOpt orEmpty].
  - destruct (truthy (orEmpty (field productItem "Name"))), (truthy brand),
      (truthyOpt sku); reflexivity.
  - change (truthy "") with false. now rewrite !andb_false_r.
Qed.

(** On the sample the title keeps "X1": the raw primary identifier
    "B34X1V1" is the one looked for, and it does not occur in the name. *)
Lemma merged_title_keeps_sku :
  mergeFiles [dePrimarySample] [productSecondarySample]
    = [mergedProduct "X1" dePrimarySample productSecondarySample]
  /\ get (mergedProduct "X1" dePrimarySample productSecondarySample) "Title"
     = Str "X1 Widget"
  /\ includes "X1 Widget" "X1" = true
  /\ ~ (exists t,
          get (mergedProduct "X1" dePrimarySample productSecondarySample) "Title"
            = Str t
          /\ includes t "Acme" = false /\ includes t "X1" = false).
Proof.
  repeat split.
  intros [t [Ht [_ Hx]]]. vm_compute in Ht.
  injection Ht as <-. vm_compute in Hx. discriminate Hx.
Qed.

(** C4 (amended). The title of a both-present record is the secondary
    record's name, untouched when the name or the secondary brand is
    empty or absent; otherwise the brand is cut off when the name starts
    with it and the rest is trimmed, and then, when the result contains
    the raw identifier (the primary record's SKU, which is never empty on
    this branch), its first occurrence is removed and the result is
    trimmed again.  On the sample the title is "X1 Widget". *)
Theorem mergedProduct_title (k : string) (deItem productItem : record)
        (deSku : string) :
  field deItem "SKU" = Some deSku -> truthy deSku = true ->
  let name := orEmpty (field productItem "Name") in
  let brand := orEmpty (field productItem "Brand") in
  get (mergedProduct k deItem productItem) "Title" =
    Str (if truthy name && truthy brand
         then stripSku (stripBrand name brand) deSku
         else name)
  /\ (forall rest, name = brand ++ rest -> stripBrand name brand = trim rest)
  /\ (forall t, includes t deSku = false -> stripSku t deSku = t)
  /\ (forall t i, indexOf t deSku = Some i ->
        t = take i t ++ deSku ++ drop (i + String.length deSku) t
        /\ (forall j, j < i -> String.prefix deSku (drop j t) = false)
        /\ stripSku t deSku = trim (take i t ++ drop (i + String.length deSku) t))
  /\ get (mergedProduct "X1" dePrimarySample productSecondarySample) "Title"
     = Str "X1 Widget".
Proof.
  intros Hsku Htruthy name brand.
  split; [|split; [|split; [|split]]].
  - unfold mergedProduct. rewrite get_literal_title. simpl.
    rewrite processTitle_closed. fold name brand.
    unfold orElse. rewrite Hsku. simpl. rewrite Htruthy. simpl.
    now rewrite Htruthy.
  - intros rest Hrest. unfold stripBrand, startsWith.
    assert (E : String.prefix brand name = true) by (apply prefix_iff; eauto).
    rewrite E, Hrest. now rewrite drop_app.
  - intros t Ht. unfold stripSku. now rewrite Ht.
  - intros t i Hi. split; [now apply indexOf_sound|].
    split; [now apply indexOf_first|].
    unfold stripSku, includes, removeFirst. now rewrite Hi.
  - reflexivity.
Qed.

Lemma mergedProduct_title_witness :
  get (mergedProduct "A1" [("SKU", "A1")]
         [("SKU", "A1"); ("Name", "Acme A1 Lamp"); ("Brand", "Acme")]) "Title"
  = Str "Lamp".
Proof.
  apply (proj1 (mergedProduct_title "A1" [("SKU", "A1")]
                  [("SKU", "A1"); ("Name", "Acme A1 Lamp"); ("Brand", "Acme")]
                  "A1" eq_refl eq_refl)).
Defined.

(* ------------------------------------------------------------------ *)
(** *** Identifiers that normalize to the empty key *)

(** A row is skipped by [populate] exactly when its SKU is absent or
    empty. *)
Lemma keyOf_None item :
  keyOf item = None <-> field item "SKU" = None \/ field item "SKU" = Some "".
Proof.
  unfold keyOf. destruct (field item "SKU") as [sku|].
  - destruct sku as [|c sku]; simpl.
    + split; auto.
    + split; [discriminate | intros [H|H]; discriminate H].
  - split; auto.
Qed.

Lemma lastWith_app data1 data2 k :
  lastWith (data1 ++ data2) k =
  match lastWith data2 k with Some item => Some item | None => lastWith data1 k end.
Proof.
  unfold lastWith. rewrite fold_left_app.
  generalize (fold_left
                (fun acc item =>
                   match keyOf item with
                   | Some k' => if String.eqb k' k then Some item else acc
                   | None => acc
                   end) data1 None) as acc.
  induction data2 as [|item data2 IH] using rev_ind; intros acc; simpl.
  - now destruct acc.
  - rewrite !fold_left_app. simpl.
    destruct (keyOf item) as [k'|]; auto.
    destruct (String.eqb k' k); auto.
Qed.

Lemma lastWith_absent data k :
  ~ In k (keysOf data) -> lastWith data k = None.
Proof.
  intros H. rewrite <- populate_get.
  destruct (JsMap.get (populate data) k) eqn:G; auto.
  exfalso. apply H, populate_keys, map_get_in. congruence.
Qed.

(** C10. A row whose raw SKU is not empty but normalizes to the empty
    string ("B34", "V1", "b34v1") is not skipped: it is filed under the
    empty key, the last such row of a dataset is the one the index keeps,
    and the unified set holds exactly one record with an empty SKU
    field, built from the rows the two indices keep under the empty
    key.  Only rows whose SKU is absent or empty are skipped. *)
Theorem empty_key_collapses (deData productData : list record) :
  normalizeSKU "B34" = "" /\ normalizeSKU "V1" = "" /\ normalizeSKU "b34v1" = ""
  /\ (forall item sku,
        field item "SKU" = Some sku -> sku <> "" -> normalizeSKU sku = "" ->
        keyOf item = Some ""
        /\ (In item deData -> In "" (keys (populate deData))))
  /\ (forall before item after,
        deData = (before ++ item :: after)%list ->
        keyOf item = Some "" -> ~ In "" (keysOf after) ->
        JsMap.get (populate deData) "" = Some item)
  /\ (In "" (keysOf deData) \/ In "" (keysOf productData) ->
      exists o, filter (hasSku "") (mergeFiles deData productData) = [o]
                /\ get o "SKU" = Str ""
                /\ producedBy deData productData "" o)
  /\ (forall item, keyOf item = None <->
                   field item "SKU" = None \/ field item "SKU" = Some "")
  /\ populate (filter (fun item => match keyOf item with
                                   | Some _ => true | None => false end) deData)
     = populate deData.
Proof.
  split; [reflexivity|]. split; [reflexivity|]. split; [reflexivity|].
  split; [|split; [|split; [|split]]].
  - intros item sku Hsku Hne Hnorm.
    assert (Hkey : keyOf item = Some "").
    { unfold keyOf. rewrite Hsku.
      destruct sku; [congruence|]. simpl. now rewrite Hnorm. }
    split; auto.
    intros Hin. apply populate_keys. unfold keysOf.
    apply in_flat_map. exists item. split; auto. rewrite Hkey. simpl. auto.
  - intros before item after -> Hkey Hafter.
    rewrite populate_get.
    change (item :: after) with ([item] ++ after)%list.
    rewrite app_assoc, lastWith_app, (lastWith_absent after) by assumption.
    rewrite lastWith_app. unfold lastWith at 1. simpl. now rewrite Hkey.
  - intros Hk. destruct (mergeFiles_key_once _ _ _ Hk) as [o [Hf Hp]].
    exists o. repeat split; auto.
    assert (Hin : In o (filter (hasSku "") (mergeFiles deData productData)))
      by (rewrite Hf; simpl; auto).
    apply filter_In in Hin. destruct Hin as [_ Hs]. unfold hasSku in Hs.
    destruct (get o "SKU") as [|sk|]; try discriminate.
    apply String.eqb_eq in Hs. now subst.
  - apply keyOf_None.
  - unfold populate. generalize (@JsMap.empty record) as m.
    induction deData as [|item data IH]; intros m; simpl; auto.
    destruct (keyOf item) eqn:K; simpl.
    + apply IH.
    + rewrite IH. f_equal. now rewrite populateStep_keyOf, K.
Qed.

Lemma empty_key_collapses_witness :
  JsMap.get (populate deEmptyKeys) "" = Some [("SKU", "V1"); ("Title", "second")]
  /\ exists o, filter (hasSku "") (mergeFiles deEmptyKeys productEmptyKeys) = [o]
               /\ get o "SKU" = Str ""
               /\ producedBy deEmptyKeys productEmptyKeys "" o.
Proof.
  pose proof (empty_key_collapses deEmptyKeys productEmptyKeys)
    as [_ [_ [_ [_ [Hlast [Honce _]]]]]].
  split.
  - apply (Hlast [[("SKU", "B34"); ("Title", "first")]]
                 [("SKU", "V1"); ("Title", "second")]
                 [[("SKU", "")]; [("Title", "no identifier")]]).
    + reflexivity.
    + reflexivity.
    + simpl. tauto.
  - apply Honce. left. simpl. auto.
Defined.

(* ------------------------------------------------------------------ *)
(* ================================================================== *)
(** ** extractColumns *)

(** *** Chunking *)

Lemma mapFrom_length {A B} (f : nat -> A -> B) xs : forall i,
  List.length (mapFrom f i xs) = List.length xs.
Proof. induction xs; intros i; simpl; auto. Qed.

Lemma mapFrom_app {A B} (f : nat -> A -> B) xs ys : forall i,
  mapFrom f i (xs ++ ys) =
  (mapFrom f i xs ++ mapFrom f (i + List.length xs) ys)%list.
Proof.
  induction xs as [|x xs IH]; intros i; simpl.
  - now rewrite Nat.add_0_r.
  - rewrite IH. do 3 f_equal. lia.
Qed.

Lemma mapFrom_shift {A B} (f : nat -> A -> B) start xs : forall i,
  mapFrom (fun j x => f (start + j) x) i xs = mapFrom f (start + i) xs.
Proof.
  induction xs as [|x xs IH]; intros i; simpl; auto.
  rewrite IH. do 2 f_equal. lia.
Qed.

Lemma firstn_add {A} (a b : nat) : forall (xs : list A),
  firstn (a + b) xs = (firstn a xs ++ firstn b (skipn a xs))%list.
Proof.
  induction a as [|a IH]; intros [|x xs]; simpl; auto.
  - now rewrite firstn_nil.
  - now rewrite IH.
Qed.

Lemma firstn_min {A} n (xs : list A) :
  firstn (Nat.min n (List.length xs)) xs = firstn n xs.
Proof.
  destruct (Nat.le_ge_cases n (List.length xs)) as [H|H].
  - now rewrite Nat.min_l.
  - rewrite Nat.min_r by assumption.
    now rewrite !firstn_all2 by lia.
Qed.

Lemma chunkSheet_eq data column k :
  chunkSheet data column k =
  mapFrom (extractRow column) (k * ROWS_PER_FILE)
          (firstn ROWS_PER_FILE (skipn (k * ROWS_PER_FILE) data)).
Proof.
  unfold chunkSheet, slice.
  rewrite (mapFrom_shift (extractRow column)), Nat.add_0_r. f_equal.
  set (start := k * ROWS_PER_FILE).
  rewrite <- (firstn_min ROWS_PER_FILE (skipn start data)), length_skipn.
  f_equal. lia.
Qed.

Lemma chunks_concat data column n :
  List.concat (map (chunkSheet data column) (seq 0 n)) =
  mapFrom (extractRow column) 0 (firstn (n * ROWS_PER_FILE) data).
Proof.
  induction n as [|n IH].
  - reflexivity.
  - rewrite seq_S, map_app, concat_app, IH.
    cbn [map List.concat]. rewrite app_nil_r, Nat.add_0_l, chunkSheet_eq.
    replace (S n * ROWS_PER_FILE)
      with (n * ROWS_PER_FILE + ROWS_PER_FILE) by lia.
    rewrite firstn_add, mapFrom_app, Nat.add_0_l. f_equal.
    destruct (Nat.le_ge_cases (n * ROWS_PER_FILE) (List.length data)) as [H|H].
    + now rewrite length_firstn, Nat.min_l.
    + now rewrite (skipn_all2 data H), firstn_nil.
Qed.

Lemma ceilDiv_covers n : n <= ceilDiv n ROWS_PER_FILE * ROWS_PER_FILE.
Proof.
  unfold ceilDiv, ROWS_PER_FILE. simpl Nat.sub.
  pose proof (Nat.div_mod_eq (n + 599) 600) as Hd.
  pose proof (Nat.mod_upper_bound (n + 599) 600). lia.
Qed.

Lemma ceilDiv_tight n k :
  k < ceilDiv n ROWS_PER_FILE -> k * ROWS_PER_FILE < n.
Proof.
  unfold ceilDiv, ROWS_PER_FILE. simpl Nat.sub. intros Hk.
  pose proof (Nat.div_mod_eq (n + 599) 600) as Hd.
  pose proof (Nat.mod_upper_bound (n + 599) 600). lia.
Qed.

Lemma chunkSheet_length data column k :
  List.length (chunkSheet data column k) =
  Nat.min ROWS_PER_FILE (List.length data - k * ROWS_PER_FILE).
Proof.
  rewrite chunkSheet_eq, mapFrom_length, length_firstn, length_skipn.
  reflexivity.
Qed.

(** *** The archive *)

Lemma natToString_inj n n' : natToString n = natToString n' -> n = n'.
Proof.
  unfold natToString. intros H.
  apply Unsigned.to_uint_inj.
  pose proof (NilEmpty.usu (Nat.to_uint n)) as Hn.
  rewrite H, NilEmpty.usu in Hn. congruence.
Qed.

Lemma append_inv_head p : forall a b, p ++ a = p ++ b -> a = b.
Proof. induction p; simpl; intros a' b' H; [auto | injection H; auto]. Qed.

Lemma append_inv_tail t : forall a b, a ++ t = b ++ t -> a = b.
Proof.
  induction a as [|c a IH]; intros [|d b] H; auto.
  - apply (f_equal String.length) in H. simpl in H.
    rewrite append_length in H. lia.
  - apply (f_equal String.length) in H. simpl in H.
    rewrite append_length in H. lia.
  - simpl in H. injection H as -> H. f_equal. now apply IH.
Qed.

Lemma chunkName_inj column total k k' :
  chunkName column k total = chunkName column k' total -> k = k'.
Proof.
  unfold chunkName. intros H.
  apply append_inv_head, append_inv_head, append_inv_tail in H.
  apply natToString_inj in H. lia.
Qed.

Lemma set_fresh {V} (m : JsMap.t V) k v :
  ~ In k (keys m) -> JsMap.set m k v = (m ++ [(k, v)])%list.
Proof.
  induction m as [|[k0 v0] m IH]; simpl; auto.
  intros H. destruct (String.eqb k0 k) eqn:E.
  - apply String.eqb_eq in E. tauto.
  - rewrite IH; tauto.
Qed.

Lemma fold_set_fresh {V} (entries : list (string * V)) : forall m,
  NoDup (keys m ++ keys entries) ->
  fold_left (fun zip f => JsMap.set zip (fst f) (snd f)) entries m
  = (m ++ entries)%list.
Proof.
  induction entries as [|[k v] entries IH]; intros m Hnd; simpl.
  - now rewrite app_nil_r.
  - simpl in Hnd.
    rewrite set_fresh.
    + rewrite IH; [now rewrite <- app_assoc|].
      unfold keys in *. rewrite map_app, <- app_assoc. exact Hnd.
    + apply NoDup_remove_2 in Hnd. intros Hin. apply Hnd.
      apply in_or_app. auto.
Qed.

Lemma chunkNames_nodup column total n :
  NoDup (map (fun k => chunkName column k total) (seq 0 n)).
Proof.
  induction n as [|n IH].
  - constructor.
  - rewrite seq_S, map_app. simpl.
    apply NoDup_app; auto.
    + repeat constructor. simpl. tauto.
    + intros x Hx [<-|[]].
      apply in_map_iff in Hx. destruct Hx as [k [Hk Hin]].
      apply chunkName_inj in Hk. apply in_seq in Hin. lia.
Qed.

(** Every [zip.file] call of a run writes a new name, so the archive is
    the files of the four columns, one after the other. *)
Lemma zipFiles_eq data :
  zipFiles data = flat_map (columnFiles data) columnsToExtract.
Proof.
  unfold zipFiles, columnsToExtract.
  cbn [fold_left flat_map].
  set (descriptionFiles := columnFiles data "description").
  change (columnFiles data "Subcategory")
    with [("subcategory.xlsx", mapFrom (extractRow "Subcategory") 0 data)].
  change (columnFiles data "Category")
    with [("category.xlsx", mapFrom (extractRow "Category") 0 data)].
  change (columnFiles data "Title")
    with [("title.xlsx", mapFrom (extractRow "Title") 0 data)].
  cbn [fold_left JsMap.set JsMap.empty fst snd String.eqb Ascii.eqb Bool.eqb app].
  rewrite fold_set_fresh; [now rewrite app_nil_r|].
  cbn [keys map fst app].
  assert (Hnames : forall k total,
             exists rest, chunkName "description" k total = "description_" ++ rest).
  { intros k total. unfold chunkName. eexists. reflexivity. }
  assert (Hout : forall name, In name (keys descriptionFiles) ->
                              exists rest, name = "description_" ++ rest).
  { intros name Hin. unfold descriptionFiles, columnFiles, keys in Hin.
    cbn [String.eqb Ascii.eqb Bool.eqb] in Hin.
    rewrite map_map in Hin. cbn [fst] in Hin.
    apply in_map_iff in Hin. destruct Hin as [k [<- _]]. apply Hnames. }
  repeat constructor.
  - intros [H|[H|H]]; try discriminate H.
    destruct (Hout _ H) as [rest Hr]. discriminate Hr.
  - intros [H|H]; try discriminate H.
    destruct (Hout _ H) as [rest Hr]. discriminate Hr.
  - intros H. destruct (Hout _ H) as [rest Hr]. discriminate Hr.
  - unfold descriptionFiles, columnFiles, keys.
    cbn [String.eqb Ascii.eqb Bool.eqb].
    rewrite map_map. cbn [fst]. apply chunkNames_nodup.
Qed.

Lemma extractRow_schema column index row :
  In column columnsToExtract ->
  keys (extractRow column index row) = ["row_index"; "SKU"; column]
  /\ get (extractRow column index row) "row_index" = Num (Z.of_nat index)
  /\ get (extractRow column index row) "SKU" = valueOrEmpty (get row "SKU")
  /\ get (extractRow column index row) column = valueOrEmpty (get row column).
Proof.
  unfold columnsToExtract. simpl.
  intros [<-|[<-|[<-|[<-|[]]]]]; repeat split.
Qed.

Lemma descriptionFiles_sheets data :
  map snd (columnFiles data "description") =
  map (chunkSheet data "description")
      (seq 0 (ceilDiv (List.length data) ROWS_PER_FILE)).
Proof.
  unfold columnFiles. cbn [String.eqb Ascii.eqb Bool.eqb].
  rewrite map_map. reflexivity.
Qed.

Lemma extractColumns_proceeds first rest :
  missingColumns first = [] ->
  extractColumns (first :: rest) =
  [SetIsExtracting true;
   Download "extracted_columns.zip"
            (flat_map (columnFiles (first :: rest)) columnsToExtract);
   SetIsExtracting false].
Proof.
  intros H. unfold extractColumns. rewrite H. cbn [List.length Nat.ltb Nat.leb].
  now rewrite zipFiles_eq.
Qed.

(** C5. The description column is cut into consecutive chunks of at
    most 600 rows ([ceil(n/600)] of them, none empty), whose rows, put
    one after the other, are the rows of the unified set in order, each
    with the schema [{row_index, SKU, column}] and its position in the
    whole set as [row_index]; 1450 rows give chunks of 600, 600 and 250
    rows.  Every other column gives one sheet with all rows in order.
    When the extraction goes through, these sheets are what it hands
    over. *)
Theorem extract_batches (data : list object) :
  List.concat (map snd (columnFiles data "description"))
    = mapFrom (extractRow "description") 0 data
  /\ List.length (columnFiles data "description")
     = ceilDiv (List.length data) ROWS_PER_FILE
  /\ (forall k, k < ceilDiv (List.length data) ROWS_PER_FILE ->
        nth k (map snd (columnFiles data "description")) []
          = mapFrom (extractRow "description") (k * ROWS_PER_FILE)
              (firstn ROWS_PER_FILE (skipn (k * ROWS_PER_FILE) data))
        /\ 0 < List.length (nth k (map snd (columnFiles data "description")) [])
           <= ROWS_PER_FILE)
  /\ (forall column index row, In column columnsToExtract ->
        keys (extractRow column index row) = ["row_index"; "SKU"; column]
        /\ get (extractRow column index row) "row_index" = Num (Z.of_nat index)
        /\ get (extractRow column index row) "SKU" = valueOrEmpty (get row "SKU")
        /\ get (extractRow column index row) column
           = valueOrEmpty (get row column))
  /\ (List.length data = 1450 ->
        map (fun f => List.length (snd f)) (columnFiles data "description")
        = [600; 600; 250])
  /\ (forall column, In column columnsToExtract -> column <> "description" ->
        map snd (columnFiles data column) = [mapFrom (extractRow column) 0 data])
  /\ (forall first rest, data = first :: rest -> missingColumns first = [] ->
        batchesOf (extractColumns data)
        = [flat_map (columnFiles data) columnsToExtract]).
Proof.
  split; [|split; [|split; [|split; [|split; [|split]]]]].
  - rewrite descriptionFiles_sheets, chunks_concat.
    rewrite firstn_all2; auto. apply ceilDiv_covers.
  - rewrite <- (length_map snd), descriptionFiles_sheets, length_map.
    apply length_seq.
  - intros k Hk. rewrite descriptionFiles_sheets.
    assert (Hnth : nth k (map (chunkSheet data "description")
                              (seq 0 (ceilDiv (List.length data) ROWS_PER_FILE))) []
                   = chunkSheet data "description" k).
    { rewrite (nth_indep _ [] (chunkSheet data "description" 0))
        by now rewrite length_map, length_seq.
      rewrite map_nth, seq_nth by assumption. reflexivity. }
    rewrite Hnth. split; [apply chunkSheet_eq|].
    rewrite chunkSheet_length. apply ceilDiv_tight in Hk.
    assert (0 < ROWS_PER_FILE) by (unfold ROWS_PER_FILE; lia). lia.
  - intros column index row. apply extractRow_schema.
  - intros Hlen.
    rewrite <- (map_map snd (@List.length object)), descriptionFiles_sheets.
    rewrite Hlen. change (ceilDiv 1450 ROWS_PER_FILE) with 3.
    cbn [seq map]. rewrite !chunkSheet_length, Hlen. reflexivity.
  - unfold columnsToExtract. simpl.
    intros column [<-|[<-|[<-|[<-|[]]]]] Hne; try reflexivity. congruence.
  - intros first rest -> Hmiss.
    now rewrite extractColumns_proceeds.
Qed.

Lemma extract_batches_witness :
  nth 0 (map snd (columnFiles threeRows "description")) []
  = [ [("row_index", Num 0); ("SKU", Str "A"); ("description", Str "d")];
      [("row_index", Num 1); ("SKU", Str "B"); ("description", Str "d2")];
      [("row_index", Num 2); ("SKU", Str ""); ("description", Str "")] ]
  /\ map (fun f => List.length (snd f))
         (columnFiles (repeat ([] : object) 1450) "description")
     = [600; 600; 250]
  /\ List.length (batchesOf (extractColumns threeRows)) = 1.
Proof.
  split; [|split].
  - refine (eq_trans
              (proj1 (proj1 (proj2 (proj2 (extract_batches threeRows))) 0 _)) _).
    + vm_compute. lia.
    + reflexivity.
  - apply (proj1 (proj2 (proj2 (proj2 (proj2
             (extract_batches (repeat ([] : object) 1450))))))).
    apply repeat_length.
  - rewrite (proj2 (proj2 (proj2 (proj2 (proj2 (proj2
               (extract_batches threeRows))))))
               _ _ eq_refl eq_refl).
    reflexivity.
Defined.

(* ------------------------------------------------------------------ *)
(** *** The missing-column check *)

Lemma missingColumns_In first column :
  In column (missingColumns first) <->
  In column columnsToExtract /\ ~ In column (keys first).
Proof.
  unfold missingColumns. rewrite filter_In.
  change (negb (existsb (String.eqb column) (keys first)))
    with (notIn (keys first) column).
  now rewrite notIn_true.
Qed.

Lemma columnFiles_nonempty first rest column :
  In column columnsToExtract -> columnFiles (first :: rest) column <> [].
Proof.
  unfold columnsToExtract. simpl.
  intros [<-|[<-|[<-|[<-|[]]]]]; try discriminate.
  unfold columnFiles. cbn [String.eqb Ascii.eqb Bool.eqb].
  assert (H : 0 < ceilDiv (List.length (first :: rest)) ROWS_PER_FILE).
  { pose proof (ceilDiv_covers (List.length (first :: rest))) as Hc.
    simpl List.length in *.
    destruct (ceilDiv (S (List.length rest)) ROWS_PER_FILE); simpl in Hc; lia. }
  destruct (ceilDiv (List.length (first :: rest)) ROWS_PER_FILE); [lia|].
  discriminate.
Qed.

(** The claim has the extraction report the missing column; the run on
    [primaryOnlyFirst] stops without a notification or a console line. *)
Lemma extract_missing_is_silent :
  In "Subcategory" (missingColumns (hd [] primaryOnlyFirst))
  /\ extractColumns primaryOnlyFirst = [SetIsExtracting true; SetIsExtracting false]
  /\ ~ (reportsOf (extractColumns primaryOnlyFirst) <> []
        /\ batchesOf (extractColumns primaryOnlyFirst) = []).
Proof.
  split; [|split].
  - vm_compute. auto.
  - reflexivity.
  - intros [H _]. apply H. reflexivity.
Qed.

(** C6 (amended). If a requested column is absent from the field set of
    the first unified record, the extraction stops before it touches any
    column: it hands over no batch, and it does so silently, with no
    notification and no console line, leaving [isExtracting] false.
    Otherwise it hands over one archive that holds the files of all four
    columns, at least one per column. *)
Theorem extract_all_or_nothing (first : object) (rest : list object) :
  ((exists column, In column columnsToExtract /\ ~ In column (keys first)) ->
     batchesOf (extractColumns (first :: rest)) = []
     /\ reportsOf (extractColumns (first :: rest)) = []
     /\ forall before,
          isExtractingAfter before (extractColumns (first :: rest)) = false)
  /\ ((forall column, In column columnsToExtract -> In column (keys first)) ->
      batchesOf (extractColumns (first :: rest))
        = [flat_map (columnFiles (first :: rest)) columnsToExtract]
      /\ reportsOf (extractColumns (first :: rest)) = []
      /\ (forall column, In column columnsToExtract ->
            columnFiles (first :: rest) column <> []
            /\ forall f, In f (columnFiles (first :: rest) column) ->
                 exists files,
                   batchesOf (extractColumns (first :: rest)) = [files]
                   /\ JsMap.get files (fst f) = Some (snd f))).
Proof.
  split.
  - intros [column Hc]. apply missingColumns_In in Hc.
    unfold extractColumns.
    destruct (missingColumns first) as [|c l]; [destruct Hc|].
    cbn [List.length Nat.ltb Nat.leb]. repeat split.
  - intros Hall.
    assert (Hmiss : missingColumns first = []).
    { destruct (missingColumns first) as [|c l] eqn:E; auto.
      assert (Hc : In c (missingColumns first)) by (rewrite E; simpl; auto).
      apply missingColumns_In in Hc. destruct Hc as [Hc Hn].
      exfalso. apply Hn, Hall, Hc. }
    rewrite (extractColumns_proceeds first rest Hmiss).
    split; [reflexivity|]. split; [reflexivity|].
    intros column Hcol. split; [now apply columnFiles_nonempty|].
    intros f Hf.
    exists (flat_map (columnFiles (first :: rest)) columnsToExtract).
    split; [reflexivity|].
    assert (Hin : In f (flat_map (columnFiles (first :: rest)) columnsToExtract))
      by (apply in_flat_map; eauto).
    pose proof (zipFiles_eq (first :: rest)) as Hz.
    assert (Hnd : NoDup (keys (flat_map (columnFiles (first :: rest))
                                        columnsToExtract))).
    { rewrite <- Hz. unfold zipFiles.
      generalize columnsToExtract as cols.
      assert (Hinner : forall fs (zip : JsMap.t sheet),
                 NoDup (keys zip) ->
                 NoDup (keys (fold_left
                                (fun zip f => JsMap.set zip (fst f) (snd f)) fs zip))).
      { induction fs as [|f0 fs IHfs]; intros zip Hzip; simpl; auto.
        apply IHfs. now apply map_set_nodup. }
      assert (Houter : forall cols (zip : JsMap.t sheet),
                 NoDup (keys zip) ->
                 NoDup (keys (fold_left
                   (fun zip column =>
                      fold_left (fun zip f => JsMap.set zip (fst f) (snd f))
                                (columnFiles (first :: rest) column) zip)
                   cols zip))).
      { induction cols as [|c cols IHc]; intros zip Hzip; simpl; auto. }
      intros cols. apply Houter. constructor. }
    destruct f as [name content]. cbn [fst snd].
    assert (Hk : In name (keys (flat_map (columnFiles (first :: rest))
                                         columnsToExtract)))
      by (change name with (fst (name, content)); now apply in_map).
    destruct (count_present _ _ Hnd Hk) as [v [Hfil Hget]].
    rewrite Hget. f_equal.
    assert (Hm : In (name, content)
                    (filter (keyIs name)
                       (flat_map (columnFiles (first :: rest)) columnsToExtract))).
    { apply filter_In. split; auto. unfold keyIs. simpl. apply String.eqb_refl. }
    rewrite Hfil in Hm. simpl in Hm. destruct Hm as [Hm|[]]. congruence.
Qed.

Lemma extract_all_or_nothing_witness :
  batchesOf (extractColumns primaryOnlyFirst) = []
  /\ batchesOf (extractColumns [completeRow])
     = [flat_map (columnFiles [completeRow]) columnsToExtract].
Proof.
  split.
  - apply (proj1 (extract_all_or_nothing
                    (deSoloProduct "P1" [("SKU", "P1"); ("Title", "only in primary")])
                    [])).
    exists "Subcategory". split.
    + simpl. auto.
    + vm_compute. intuition discriminate.
  - apply (proj2 (extract_all_or_nothing completeRow [])).
    unfold columnsToExtract. simpl.
    intros column [<-|[<-|[<-|[<-|[]]]]]; auto 10.
Defined.

(* ================================================================== *)
(** ** handleTranslatedFileChange *)

(** *** Which column holds the translated value *)

Lemma find_first {A} (p : A -> bool) before x after :
  p x = true -> (forall y, In y before -> p y = false) ->
  find p (before ++ x :: after) = Some x.
Proof.
  intros Hx. induction before as [|y before IH]; intros Hb; simpl.
  - now rewrite Hx.
  - rewrite (Hb y) by (simpl; auto). apply IH. intros z Hz. apply Hb. simpl. auto.
Qed.

Lemma find_none {A} (p : A -> bool) xs :
  (forall y, In y xs -> p y = false) -> find p xs = None.
Proof.
  induction xs as [|y xs IH]; intros H; simpl; auto.
  rewrite (H y) by (simpl; auto). apply IH. intros z Hz. apply H. simpl. auto.
Qed.

Lemma matchesColumn_nonempty columnName k :
  In columnName columnsToExtract ->
  matchesColumn columnName k = true -> truthy k = true.
Proof.
  destruct k; auto.
  unfold columnsToExtract. simpl.
  intros [<-|[<-|[<-|[<-|[]]]]] H; vm_compute in H; discriminate H.
Qed.

(** A file that holds both the canonical header and a translated one:
    the single [find] returns whichever comes first, here the canonical
    one, where the specification has the variant list tried first. *)
Lemma dataKey_first_match_wins :
  dataKey "Title" ["row_index"; "SKU"; "Title"; "titel"] = Some "Title"
  /\ resolveDataKey_spec "Title" ["row_index"; "SKU"; "Title"; "titel"]
     = Some "titel"
  /\ dataKey "Title" ["row_index"; "SKU"; "Title"; "titel"]
     <> resolveDataKey_spec "Title" ["row_index"; "SKU"; "Title"; "titel"].
Proof. repeat split. discriminate. Qed.

(** The table entry "Beskrivning" is written with a capital letter and
    is compared with lower-cased headers: no header spelled that way, in
    any letter case, is found through the table, and such a header is
    read only when it happens to be the third field. *)
Lemma beskrivning_never_matches k :
  toLowerCase k = "beskrivning" -> matchesColumn "description" k = false.
Proof. intros H. unfold matchesColumn. rewrite H. reflexivity. Qed.

Example beskrivning_not_resolved :
  dataKey "description" ["row_index"; "SKU"; "notes"; "Beskrivning"]
  = Some "notes"
  /\ resolveDataKey_spec "description" ["row_index"; "SKU"; "notes"; "Beskrivning"]
     = Some "Beskrivning".
Proof. split; reflexivity. Qed.

Section LowerCasingFacts.

Variable lower : string -> string.
Hypothesis lower_idem : forall s, lower (lower s) = lower s.
Hypothesis lower_empty : forall s, lower s = "" <-> s = "".

Lemma matchesColumnWith_names columnName k :
  matchesColumnWith lower columnName k = true -> namesColumn lower columnName k.
Proof.
  unfold matchesColumnWith, namesColumn, sameIgnoringCase.
  intros H. apply orb_true_iff in H. destruct H as [H|H].
  - right. apply existsb_exists in H. destruct H as [v [Hv E]].
    apply String.eqb_eq in E. exists v. split; [exact Hv|].
    now rewrite <- E, lower_idem.
  - left. now apply String.eqb_eq.
Qed.

Lemma namesColumnPlainly_matches columnName k :
  namesColumnPlainly lower columnName k ->
  matchesColumnWith lower columnName k = true.
Proof.
  unfold matchesColumnWith, namesColumnPlainly, sameIgnoringCase.
  intros [H|[v [Hv [Hplain H]]]]; apply orb_true_iff.
  - right. now apply String.eqb_eq.
  - left. apply existsb_exists. exists v. split; [exact Hv|].
    apply String.eqb_eq. congruence.
Qed.

Lemma matchesColumnWith_nonempty columnName k :
  In columnName columnsToExtract ->
  matchesColumnWith lower columnName k = true -> truthy k = true.
Proof.
  intros Hcol H. destruct k as [|c k]; [|reflexivity]. exfalso.
  unfold matchesColumnWith in H.
  rewrite (proj2 (lower_empty "") eq_refl) in H.
  apply orb_true_iff in H. destruct H as [H|H].
  - unfold columnsToExtract in Hcol. simpl in Hcol.
    destruct Hcol as [<-|[<-|[<-|[<-|[]]]]]; vm_compute in H; discriminate H.
  - apply String.eqb_eq in H. symmetry in H.
    apply (proj1 (lower_empty columnName)) in H.
    subst columnName. unfold columnsToExtract in Hcol. simpl in Hcol.
    destruct Hcol as [E|[E|[E|[E|[]]]]]; discriminate E.
Qed.

Lemma not_names_not_matches columnName k :
  ~ namesColumn lower columnName k ->
  matchesColumnWith lower columnName k = false.
Proof.
  intros Hn. destruct (matchesColumnWith lower columnName k) eqn:E; auto.
  now apply matchesColumnWith_names in E.
Qed.

Lemma dataKeyWith_first columnName before k after :
  In columnName columnsToExtract ->
  namesColumnPlainly lower columnName k ->
  (forall k', In k' before -> ~ namesColumn lower columnName k') ->
  dataKeyWith lower columnName (before ++ k :: after) = Some k.
Proof.
  intros Hcol Hk Hbefore. unfold dataKeyWith.
  pose proof (namesColumnPlainly_matches _ _ Hk) as Hm.
  rewrite find_first;
    [|exact Hm | intros y Hy; now apply not_names_not_matches, Hbefore].
  cbn [orKey]. now rewrite (matchesColumnWith_nonempty _ _ Hcol Hm).
Qed.

Lemma dataKeyWith_fallback columnName ks :
  (forall k, In k ks -> ~ namesColumn lower columnName k) ->
  dataKeyWith lower columnName ks = nth_error ks 2.
Proof.
  intros Hnone. unfold dataKeyWith.
  rewrite find_none; [reflexivity|].
  intros y Hy. now apply not_names_not_matches, Hnone.
Qed.

Lemma dataKeyWith_result columnName ks k :
  dataKeyWith lower columnName ks = Some k ->
  (In k ks /\ namesColumn lower columnName k) \/ nth_error ks 2 = Some k.
Proof.
  unfold dataKeyWith.
  destruct (find (matchesColumnWith lower columnName) ks) as [k0|] eqn:E;
    cbn [orKey]; [|auto].
  destruct (truthy k0); [|auto].
  intros [= <-]. apply find_some in E. destruct E as [Hin Hm].
  left. split; [exact Hin | now apply matchesColumnWith_names].
Qed.

End LowerCasingFacts.

Lemma toLowerCase_idem s : toLowerCase (toLowerCase s) = toLowerCase s.
Proof.
  induction s as [|c s IH]; [reflexivity|]. cbn [toLowerCase]. rewrite IH.
  f_equal. unfold lowerChar.
  destruct (Nat.leb 65 (nat_of_ascii c) && Nat.leb (nat_of_ascii c) 90) eqn:E;
    [|now rewrite E].
  rewrite nat_ascii_embedding by lia.
  destruct (Nat.leb 65 (nat_of_ascii c + 32) && Nat.leb (nat_of_ascii c + 32) 90)
    eqn:E'; [lia | reflexivity].
Qed.

Lemma toLowerCase_empty s : toLowerCase s = "" <-> s = "".
Proof. destruct s; simpl; split; congruence. Qed.

Lemma dataKey_instance columnName ks :
  dataKey columnName ks = dataKeyWith toLowerCase columnName ks.
Proof. reflexivity. Qed.

(** C7 (amended). For each of the four columns and whatever the
    lower-casing (idempotent, and empty on the empty string only), the
    value column of a row is the first header, in the order of the
    row's headers, that names the column: that is, letter case apart,
    the canonical name or a listed variant, on an equal footing; when no
    header names the column it is the third field.  Nothing is said of
    a header that names the column only through a variant that the
    table does not spell in lower case.  What is found by name names
    the column, and [dataKey] is the instance at [toLowerCase]. *)
Theorem dataKey_resolution (lower : string -> string)
        (columnName : string) (ks : list string) :
  (forall s, lower (lower s) = lower s) ->
  (forall s, lower s = "" <-> s = "") ->
  In columnName columnsToExtract ->
  (forall before k after,
      ks = (before ++ k :: after)%list ->
      namesColumnPlainly lower columnName k ->
      (forall k', In k' before -> ~ namesColumn lower columnName k') ->
      dataKeyWith lower columnName ks = Some k)
  /\ ((forall k, In k ks -> ~ namesColumn lower columnName k) ->
      dataKeyWith lower columnName ks = nth_error ks 2)
  /\ (forall k, dataKeyWith lower columnName ks = Some k ->
        (In k ks /\ namesColumn lower columnName k)
        \/ nth_error ks 2 = Some k)
  /\ (forall k, namesColumnPlainly lower columnName k ->
        matchesColumnWith lower columnName k = true)
  /\ (forall k, matchesColumnWith lower columnName k = true ->
        namesColumn lower columnName k)
  /\ dataKey columnName ks = dataKeyWith toLowerCase columnName ks.
Proof.
  intros Hidem Hempty Hcol.
  split; [|split; [|split; [|split; [|split]]]].
  - intros before k after ->. now apply dataKeyWith_first.
  - now apply dataKeyWith_fallback.
  - intros k. now apply dataKeyWith_result.
  - intros k. now apply namesColumnPlainly_matches.
  - intros k. now apply matchesColumnWith_names.
  - reflexivity.
Qed.

Lemma dataKey_resolution_witness :
  dataKey "description" ["row_index"; "KUVAUS"; "SKU"] = Some "KUVAUS"
  /\ dataKey "Category" ["a"; "b"; "c"] = Some "c".
Proof.
  split.
  - rewrite (proj2 (proj2 (proj2 (proj2 (proj2
              (dataKey_resolution toLowerCase "description"
                 ["row_index"; "KUVAUS"; "SKU"]
                 toLowerCase_idem toLowerCase_empty
                 ltac:(simpl; auto 6))))))).
    apply (proj1 (dataKey_resolution toLowerCase "description"
                    ["row_index"; "KUVAUS"; "SKU"]
                    toLowerCase_idem toLowerCase_empty
                    ltac:(simpl; auto 6))
                 ["row_index"] "KUVAUS" ["SKU"]).
    + reflexivity.
    + right. exists "kuvaus". repeat split. simpl. auto 6.
    + intros k' [<-|[]] [H|[v [Hv H]]]; [discriminate H|].
      simpl in Hv.
      destruct Hv as [<-|[<-|[<-|[<-|[<-|[]]]]]]; discriminate H.
  - rewrite (proj2 (proj2 (proj2 (proj2 (proj2
              (dataKey_resolution toLowerCase "Category" ["a"; "b"; "c"]
                 toLowerCase_idem toLowerCase_empty
                 ltac:(simpl; auto 6))))))).
    apply (proj1 (proj2 (dataKey_resolution toLowerCase "Category"
                           ["a"; "b"; "c"]
                           toLowerCase_idem toLowerCase_empty
                           ltac:(simpl; auto 6)))).
    intros k Hk [H|[v [Hv H]]];
      simpl in Hk; destruct Hk as [<-|[<-|[<-|[]]]];
      try discriminate H;
      simpl in Hv; destruct Hv as [<-|[<-|[<-|[<-|[<-|[]]]]]]; discriminate H.
Defined.

(* ------------------------------------------------------------------ *)
(** *** Dropped rows and the empty result *)

Lemma insertRow_perm row sorted : Permutation (insertRow row sorted) (row :: sorted).
Proof.
  induction sorted as [|r rest IH]; simpl; auto.
  destruct (notAfter (sortIndex row) (sortIndex r)); auto.
  rewrite IH. apply perm_swap.
Qed.

Lemma sortRows_perm rows : Permutation (sortRows rows) rows.
Proof.
  induction rows as [|row rows IH]; simpl; auto.
  rewrite insertRow_perm. now constructor.
Qed.

Lemma processFile_eq columnName acc n fileData :
  processFile columnName (acc, n) fileData =
  ((acc ++ survivors columnName [fileData])%list,
   n + droppedCount columnName [fileData]).
Proof.
  unfold processFile, survivors, droppedCount. simpl. rewrite !app_nil_r.
  f_equal.
  - f_equal. induction fileData as [|row rows IH]; simpl; auto.
    now rewrite IH.
  - f_equal. induction fileData as [|row rows IH]; simpl; auto.
    unfold valueUndefined at 1, standardizeRow at 1.
    destruct (cell row (dataKey columnName (keys row))); simpl; auto.
Qed.

Lemma survivors_app columnName fs gs :
  survivors columnName (fs ++ gs) =
  (survivors columnName fs ++ survivors columnName gs)%list.
Proof. unfold survivors. apply flat_map_app. Qed.

Lemma droppedCount_app columnName fs gs :
  droppedCount columnName (fs ++ gs) =
  droppedCount columnName fs + droppedCount columnName gs.
Proof.
  unfold droppedCount. now rewrite concat_app, filter_app, length_app.
Qed.

Lemma processFiles_eq columnName files : forall acc n,
  fold_left (processFile columnName) files (acc, n) =
  ((acc ++ survivors columnName files)%list, n + droppedCount columnName files).
Proof.
  induction files as [|f files IH]; intros acc n; cbn [fold_left].
  - unfold survivors, droppedCount. simpl. now rewrite app_nil_r, Nat.add_0_r.
  - rewrite processFile_eq, IH.
    change (f :: files) with ([f] ++ files)%list.
    rewrite survivors_app, droppedCount_app, app_assoc, Nat.add_assoc.
    reflexivity.
Qed.

(** Every survivor stands for a row whose value was found, every dropped
    row for one whose value was [undefined]. *)
Lemma survivors_length columnName files :
  List.length (survivors columnName files) + droppedCount columnName files
  = List.length (List.concat files).
Proof.
  induction files as [|f files IH].
  - reflexivity.
  - change (f :: files) with ([f] ++ files)%list.
    rewrite survivors_app, droppedCount_app, concat_app, !length_app.
    rewrite <- IH.
    assert (H : List.length (survivors columnName [f])
                + droppedCount columnName [f] = List.length (List.concat [f])).
    { unfold survivors, droppedCount. simpl. rewrite !app_nil_r.
      induction f as [|row rows IHf]; simpl; auto.
      unfold valueUndefined at 1, standardizeRow at 1.
      destruct (cell row (dataKey columnName (keys row))); simpl; lia. }
    lia.
Qed.

Lemma handleTranslatedFileChange_eq columnName file files :
  handleTranslatedFileChange columnName (file :: files) =
  let allRows :=
    if Nat.ltb 1 (List.length (file :: files))
    then sortRows (survivors columnName (file :: files))
    else survivors columnName (file :: files) in
  if Nat.eqb (List.length allRows) 0
  then EmptyResult (droppedCount columnName (file :: files))
  else Stored (JsMap.values (rowsBySku allRows)) (List.length allRows)
              (List.length (rowsBySku allRows))
              (droppedCount columnName (file :: files)).
Proof.
  unfold handleTranslatedFileChange.
  rewrite (processFiles_eq columnName (file :: files) [] 0).
  reflexivity.
Qed.



(* ================================================================== *)
(** ** The round trip through the exported files *)

(** *** Maps filled from rows with distinct identifiers *)

Lemma fold_left_ext {A B} (f g : A -> B -> A) xs :
  (forall a b, f a b = g a b) ->
  forall a, fold_left f xs a = fold_left g xs a.
Proof.
  intros H. induction xs as [|x xs IH]; intros a; simpl; auto.
  now rewrite H, IH.
Qed.

Lemma fold_entries {A V} (entry : A -> list (string * V)) xs :
  forall m : JsMap.t V,
    NoDup (keys m ++ keys (flat_map entry xs)) ->
    fold_left (fun m a =>
                 fold_left (fun m f => JsMap.set m (fst f) (snd f)) (entry a) m)
              xs m
    = (m ++ flat_map entry xs)%list.
Proof.
  induction xs as [|x xs IH]; intros m Hnd; simpl.
  - now rewrite app_nil_r.
  - simpl in Hnd. unfold keys in Hnd. rewrite map_app, app_assoc in Hnd.
    rewrite fold_set_fresh by (apply NoDup_app_remove_r in Hnd; exact Hnd).
    rewrite IH.
    + now rewrite <- app_assoc.
    + unfold keys. now rewrite map_app.
Qed.

Lemma get_of_entry {V} (m : JsMap.t V) k v :
  NoDup (keys m) -> In (k, v) m -> JsMap.get m k = Some v.
Proof.
  induction m as [|[k0 v0] m IH]; simpl; [tauto|].
  intros Hnd [H|H]; inversion Hnd as [|? ? Hnotin Hnd']; subst.
  - injection H as -> ->. now rewrite String.eqb_refl.
  - destruct (String.eqb k0 k) eqn:E; auto.
    apply String.eqb_eq in E. subst k0. exfalso. apply Hnotin.
    change k with (fst (k, v)). now apply in_map.
Qed.

Lemma keys_skuEntry rows : keys (flat_map skuEntry rows) = truthySkus rows.
Proof.
  unfold keys, truthySkus, skuEntry.
  induction rows as [|row rows IH]; simpl; auto.
  rewrite map_app, IH. f_equal.
  destruct (get row "SKU") as [|sku|]; auto. now destruct (truthy sku).
Qed.

Lemma rowsBySku_eq rows :
  NoDup (truthySkus rows) -> rowsBySku rows = flat_map skuEntry rows.
Proof.
  intros Hnd. unfold rowsBySku.
  rewrite (fold_left_ext _
             (fun m a => fold_left (fun m f => JsMap.set m (fst f) (snd f))
                                   (skuEntry a) m)).
  - rewrite fold_entries; auto. simpl. now rewrite keys_skuEntry.
  - intros m row. unfold skuEntry.
    destruct (get row "SKU") as [|sku|]; auto. now destruct (truthy sku).
Qed.

Lemma skuMapOf_eq columnName rows :
  NoDup (keys (flat_map (valueEntry columnName) rows)) ->
  skuMapOf columnName rows = flat_map (valueEntry columnName) rows.
Proof.
  intros Hnd. unfold skuMapOf.
  rewrite (fold_left_ext _
             (fun m a => fold_left (fun m f => JsMap.set m (fst f) (snd f))
                                   (valueEntry columnName a) m)).
  - rewrite fold_entries; auto.
  - intros m row. unfold valueEntry.
    destruct (get row "SKU") as [|sku|]; auto.
    now destruct (truthy sku && defined (get row columnName)).
Qed.

Lemma tripleRow_get columnName rowIndex sku v :
  In columnName columnsToExtract ->
  get (tripleRow columnName rowIndex sku v) "SKU" = Str sku
  /\ get (tripleRow columnName rowIndex sku v) columnName = Str v.
Proof.
  unfold columnsToExtract. simpl.
  intros [<-|[<-|[<-|[<-|[]]]]]; split; reflexivity.
Qed.

Lemma skuEntry_triple columnName rowIndex sku v :
  In columnName columnsToExtract ->
  skuEntry (tripleRow columnName rowIndex sku v)
  = if truthy sku then [(sku, tripleRow columnName rowIndex sku v)] else [].
Proof.
  intros Hcol. unfold skuEntry.
  now rewrite (proj1 (tripleRow_get columnName rowIndex sku v Hcol)).
Qed.

Lemma valueEntry_triple columnName rowIndex sku v :
  In columnName columnsToExtract ->
  valueEntry columnName (tripleRow columnName rowIndex sku v)
  = if truthy sku then [(sku, Str v)] else [].
Proof.
  intros Hcol. unfold valueEntry.
  destruct (tripleRow_get columnName rowIndex sku v Hcol) as [-> ->].
  now destruct (truthy sku).
Qed.

Lemma values_then_entries columnName rows :
  In columnName columnsToExtract ->
  Forall (isTriple columnName) rows ->
  flat_map (valueEntry columnName) (JsMap.values (flat_map skuEntry rows))
  = flat_map (fun row => map (fun e => (fst e, get (snd e) columnName))
                             (skuEntry row)) rows.
Proof.
  intros Hcol Hrows. unfold JsMap.values.
  induction Hrows as [|row rows [ri [sku [v ->]]] _ IH]; [reflexivity|].
  cbn [flat_map]. rewrite map_app, flat_map_app, IH. f_equal.
  rewrite skuEntry_triple by assumption.
  destruct (truthy sku) eqn:T; [|reflexivity].
  cbn [map flat_map fst snd]. rewrite valueEntry_triple by assumption.
  rewrite T, (proj2 (tripleRow_get columnName ri sku v Hcol)). reflexivity.
Qed.

Lemma keys_value_entries columnName rows :
  keys (flat_map (fun row => map (fun e => (fst e, get (snd e) columnName))
                                 (skuEntry row)) rows)
  = truthySkus rows.
Proof.
  unfold keys, truthySkus, skuEntry.
  induction rows as [|row rows IH]; simpl; auto.
  rewrite map_app, IH. f_equal.
  destruct (get row "SKU") as [|sku|]; auto. now destruct (truthy sku).
Qed.

(** With distinct identifiers, the value kept for an identifier is the
    value of the one row that carries it. *)
Lemma import_lookup columnName rows rowIndex sku v :
  In columnName columnsToExtract ->
  Forall (isTriple columnName) rows ->
  NoDup (truthySkus rows) ->
  In (tripleRow columnName rowIndex sku v) rows ->
  truthy sku = true ->
  JsMap.get (skuMapOf columnName (JsMap.values (rowsBySku rows))) sku
  = Some (Str v).
Proof.
  intros Hcol Hrows Hnd Hin Htruthy.
  rewrite rowsBySku_eq by assumption.
  rewrite skuMapOf_eq; rewrite values_then_entries by assumption;
    [|now rewrite keys_value_entries].
  apply get_of_entry; [now rewrite keys_value_entries|].
  apply in_flat_map. exists (tripleRow columnName rowIndex sku v).
  split; auto.
  rewrite skuEntry_triple, Htruthy by assumption.
  cbn [map fst snd].
  rewrite (proj2 (tripleRow_get columnName rowIndex sku v Hcol)).
  simpl. auto.
Qed.

(** *** What the import makes of the exported files *)

Lemma standardize_extracted columnName index row :
  In columnName columnsToExtract ->
  standardizeRow columnName
    (map (fun kv => (fst kv, textOf (snd kv))) (extractRow columnName index row))
  = Some (importedRow columnName index row).
Proof.
  unfold columnsToExtract. simpl.
  intros [<-|[<-|[<-|[<-|[]]]]]; reflexivity.
Qed.

Lemma survivors_concat columnName files :
  survivors columnName files
  = flat_map (fun row => keep (standardizeRow columnName row)) (List.concat files).
Proof.
  unfold survivors. induction files as [|f files IH]; simpl; auto.
  now rewrite flat_map_app, IH.
Qed.

Lemma columnFiles_concat data columnName :
  In columnName columnsToExtract ->
  List.concat (map snd (columnFiles data columnName))
  = mapFrom (extractRow columnName) 0 data.
Proof.
  unfold columnsToExtract. simpl.
  intros [<-|[<-|[<-|[<-|[]]]]];
    try (unfold columnFiles; simpl; now rewrite app_nil_r).
  rewrite descriptionFiles_sheets, chunks_concat.
  rewrite firstn_all2; auto. apply ceilDiv_covers.
Qed.

Lemma exportedCopies_concat data columnName :
  In columnName columnsToExtract ->
  List.concat (exportedCopies data columnName)
  = readBack (mapFrom (extractRow columnName) 0 data).
Proof.
  intros Hcol. rewrite <- (columnFiles_concat data columnName Hcol).
  unfold exportedCopies.
  induction (columnFiles data columnName) as [|f fs IH]; simpl; auto.
  unfold readBack in *. now rewrite map_app, IH.
Qed.

Lemma survivors_exported data columnName :
  In columnName columnsToExtract ->
  survivors columnName (exportedCopies data columnName)
  = mapFrom (importedRow columnName) 0 data.
Proof.
  intros Hcol. rewrite survivors_concat, exportedCopies_concat by assumption.
  unfold readBack. generalize 0 as i.
  induction data as [|row data IH]; intros i; [reflexivity|].
  cbn [mapFrom map flat_map].
  rewrite standardize_extracted by assumption.
  cbn [keep app]. now rewrite IH.
Qed.

Lemma mapFrom_In {A B} (f : nat -> A -> B) xs x : forall i,
  In x xs -> exists j, In (f j x) (mapFrom f i xs).
Proof.
  induction xs as [|y xs IH]; intros i; simpl; [tauto|].
  intros [->|H].
  - exists i. auto.
  - destruct (IH (S i) H) as [j Hj]. exists j. auto.
Qed.

Lemma mapFrom_Forall {A B} (P : B -> Prop) (f : nat -> A -> B) xs :
  (forall i x, P (f i x)) -> forall i, Forall P (mapFrom f i xs).
Proof.
  intros H. induction xs as [|x xs IH]; intros i; simpl; constructor; auto.
Qed.

(** Text values pass through the export and the import unchanged. *)
Lemma textOf_valueOrEmpty v :
  isText v = true -> Str (textOf (valueOrEmpty v)) = valueOrEmpty v.
Proof.
  destruct v as [|s|n]; try discriminate; intros _.
  - reflexivity.
  - unfold valueOrEmpty. simpl. now destruct (truthy s).
Qed.

Lemma truthySkus_imported columnName data :
  In columnName columnsToExtract ->
  Forall (fun row => isText (get row "SKU") = true) data ->
  forall i, truthySkus (mapFrom (importedRow columnName) i data) = truthySkus data.
Proof.
  intros Hcol Htext. unfold truthySkus.
  induction Htext as [|row data Hrow _ IH]; intros i; [reflexivity|].
  cbn [mapFrom flat_map]. rewrite IH. f_equal.
  unfold importedRow.
  rewrite (proj1 (tripleRow_get columnName _ _ _ Hcol)).
  destruct (get row "SKU") as [|s|n]; try discriminate; simpl; auto.
  unfold valueOrEmpty. simpl. destruct (truthy s) eqn:T; simpl; now rewrite ?T.
Qed.

(** *** Generating the table *)

Lemma get_absent (o : object) k : ~ In k (keys o) -> get o k = Undefined.
Proof.
  induction o as [|[k0 v0] o IH]; simpl; auto.
  intros H. destruct (String.eqb k0 k) eqn:E.
  - apply String.eqb_eq in E. tauto.
  - apply IH. tauto.
Qed.

(** Reading a property of the copy gives what the original gives. *)
Lemma get_copyRow (row : object) k :
  NoDup (keys row) -> get (copyRow row) k = get row k.
Proof.
  unfold copyRow. induction row as [|[k0 v0] row IH]; simpl; auto.
  intros Hnd. inversion Hnd as [|? ? Hnotin Hnd']; subst.
  destruct (String.eqb k0 k) eqn:E.
  - apply String.eqb_eq in E. subst k0.
    destruct v0; simpl; rewrite ?String.eqb_refl; auto.
    apply get_absent. intros Hin. apply Hnotin.
    unfold keys in *. rewrite in_map_iff in *.
    destruct Hin as [x [Hx Hin]]. exists x. split; auto.
    apply filter_In in Hin. tauto.
  - destruct v0; simpl; rewrite ?E; auto.
Qed.

Lemma get_isText (row : object) k :
  Forall (fun kv => isText (snd kv) = true) row -> isText (get row k) = true.
Proof.
  induction 1 as [|[k0 v0] row Hv _ IH]; simpl; auto.
  now destruct (String.eqb k0 k).
Qed.

Lemma translationMapsOf_single columnName rows :
  translationMapsOf [(columnName, rows)]
  = [(columnName, skuMapOf columnName rows)].
Proof.
  unfold translationMapsOf. simpl. now rewrite String.eqb_refl.
Qed.

Lemma replaceRow_single columnName (skuMap : JsMap.t value) row :
  get (replaceRow [columnName] [(columnName, skuMap)] row) columnName =
  match get row "SKU" with
  | Str sku =>
      if truthy sku then
        match JsMap.get skuMap sku with
        | Some v => v
        | None => get row columnName
        end
      else get row columnName
  | _ => get row columnName
  end.
Proof.
  unfold replaceRow.
  destruct (get row "SKU") as [|sku|n]; auto.
  destruct (truthy sku); auto.
  simpl. rewrite String.eqb_refl.
  destruct (JsMap.get skuMap sku); auto. apply get_set_same.
Qed.

(** The column after the round trip, row by row. *)
Lemma roundTrip_values data columnName files :
  In columnName columnsToExtract ->
  data <> [] ->
  Forall wellFormed data ->
  NoDup (truthySkus data) ->
  Permutation files (exportedCopies data columnName) ->
  exists result,
    roundTrip data columnName files = Some result
    /\ columnValues columnName result = map (afterRoundTrip columnName) data.
Proof.
  intros Hcol Hne Hwf Hnd Hperm.
  assert (Htext : Forall (fun row => isText (get row "SKU") = true) data).
  { eapply Forall_impl; [|exact Hwf]. intros row [_ Ht]. now apply get_isText. }
  (* the rows that survive *)
  assert (Hsurv : Permutation (survivors columnName files)
                              (mapFrom (importedRow columnName) 0 data)).
  { rewrite <- survivors_exported by assumption.
    unfold survivors. now apply Permutation_flat_map. }
  destruct files as [|file files].
  { apply Permutation_nil in Hperm. exfalso.
    destruct data as [|first rest]; [congruence|].
    apply (columnFiles_nonempty first rest columnName Hcol).
    unfold exportedCopies in Hperm. now apply map_eq_nil in Hperm. }
  unfold roundTrip. rewrite handleTranslatedFileChange_eq. cbv zeta.
  set (allRows := if Nat.ltb 1 (List.length (file :: files))
                  then sortRows (survivors columnName (file :: files))
                  else survivors columnName (file :: files)).
  assert (Hall : Permutation allRows (mapFrom (importedRow columnName) 0 data)).
  { unfold allRows. destruct (Nat.ltb 1 (List.length (file :: files))); auto.
    rewrite sortRows_perm. exact Hsurv. }
  assert (Hlen : Nat.eqb (List.length allRows) 0 = false).
  { apply Nat.eqb_neq. rewrite (Permutation_length Hall), mapFrom_length.
    destruct data; simpl; congruence. }
  rewrite Hlen. cbn [storeTranslated JsMap.set JsMap.empty].
  unfold replaceColumnsWithTranslations.
  cbn [keys map fst List.length Nat.eqb].
  rewrite translationMapsOf_single.
  eexists. split; [reflexivity|].
  (* what the import knows about every identifier *)
  assert (Htriples : Forall (isTriple columnName) allRows).
  { apply Forall_forall. intros e He.
    apply (Permutation_in _ Hall) in He. revert e He. apply Forall_forall.
    apply mapFrom_Forall. intros i x. unfold isTriple, importedRow. eauto. }
  assert (Hskus : NoDup (truthySkus allRows)).
  { apply (Permutation_NoDup
             (l := truthySkus (mapFrom (importedRow columnName) 0 data))).
    - unfold truthySkus. apply Permutation_flat_map. now symmetry.
    - now rewrite truthySkus_imported. }
  unfold columnValues, deepCopy. rewrite !map_map.
  apply map_ext_in. intros row Hrow.
  pose proof (proj1 (Forall_forall _ _) Hwf row Hrow) as [Hkeys Hvals].
  rewrite replaceRow_single, !get_copyRow by assumption.
  unfold afterRoundTrip.
  pose proof (get_isText row "SKU" Hvals) as Hs.
  pose proof (get_isText row columnName Hvals) as Hv.
  destruct (get row "SKU") as [|sku|n] eqn:Esku; try discriminate; auto.
  simpl. destruct (truthy sku) eqn:T; auto.
  destruct (mapFrom_In (importedRow columnName) data row 0 Hrow) as [j Hj].
  apply (Permutation_in _ (Permutation_sym Hall)) in Hj.
  unfold importedRow at 1 in Hj. rewrite Esku in Hj.
  assert (Hsku : textOf (valueOrEmpty (Str sku)) = sku).
  { unfold valueOrEmpty. simpl. now rewrite T. }
  rewrite Hsku in Hj.
  rewrite (import_lookup columnName allRows _ sku _ Hcol Htriples Hskus Hj T).
  now apply textOf_valueOrEmpty.
Qed.

(* ------------------------------------------------------------------ *)
(** *** The unified sets that [mergeFiles] builds *)

Lemma set_as_map (o : object) k v : set o k v = JsMap.set o k v.
Proof. induction o as [|[k0 v0] o IH]; simpl; auto. Qed.

Lemma set_wellFormed (o : object) k v :
  isText v = true -> wellFormed o -> wellFormed (set o k v).
Proof.
  intros Hv [Hnd Ht]. split.
  - rewrite set_as_map. now apply map_set_nodup.
  - clear Hnd. induction Ht as [|[k0 v0] o H0 Ho IH]; simpl.
    + repeat constructor. exact Hv.
    + destruct (String.eqb k0 k); constructor; auto.
Qed.

Lemma addImages_wellFormed item (o : object) :
  wellFormed o -> wellFormed (addImages item o).
Proof.
  unfold addImages. generalize imageKeys as ks.
  intros ks. revert o. induction ks as [|k ks IH]; intros o Ho; simpl; auto.
  apply IH. destruct (field item k) as [c|]; auto.
  destruct (truthy c); auto. now apply set_wellFormed.
Qed.

Lemma isText_ofCell c : isText (ofCell c) = true.
Proof. now destruct c. Qed.

Lemma nodup_strings (ks : list string) :
  nodup string_dec ks = ks -> NoDup ks.
Proof. intros <-. apply NoDup_nodup. Qed.

Lemma primaryRecord_wellFormed pm e : wellFormed (primaryRecord pm e).
Proof.
  unfold primaryRecord, mergedProduct, deSoloProduct.
  destruct (JsMap.get pm (fst e)); apply addImages_wellFormed; split;
    try (apply nodup_strings; reflexivity);
    repeat constructor; apply isText_ofCell.
Qed.

Lemma secondaryRecord_wellFormed e : wellFormed (secondaryRecord e).
Proof.
  unfold secondaryRecord, productInfoOnly.
  apply addImages_wellFormed; split;
    try (apply nodup_strings; reflexivity);
    repeat constructor; apply isText_ofCell.
Qed.

Lemma mergeFiles_wellFormed deData productData :
  Forall wellFormed (mergeFiles deData productData).
Proof.
  rewrite mergeFiles_eq. apply Forall_app. split; apply Forall_forall;
    intros o Ho; apply in_map_iff in Ho; destruct Ho as [e [<- _]].
  - apply primaryRecord_wellFormed.
  - apply secondaryRecord_wellFormed.
Qed.

Lemma truthySkus_records (f : string * record -> object) entries :
  (forall e, get (f e) "SKU" = Str (fst e)) ->
  truthySkus (map f entries) = filter truthy (keys entries).
Proof.
  intros Hf. unfold truthySkus.
  induction entries as [|e entries IH]; simpl; auto.
  rewrite IH, Hf. now destruct (truthy (fst e)).
Qed.

Lemma truthySkus_app xs ys :
  truthySkus (xs ++ ys) = (truthySkus xs ++ truthySkus ys)%list.
Proof. unfold truthySkus. apply flat_map_app. Qed.

(** The identifiers of a unified set are pairwise distinct. *)
Lemma mergeFiles_skus_nodup deData productData :
  NoDup (truthySkus (mergeFiles deData productData)).
Proof.
  rewrite mergeFiles_eq, truthySkus_app.
  rewrite (truthySkus_records _ _ (primaryRecord_sku (populate productData))).
  rewrite (truthySkus_records _ _ secondaryRecord_sku).
  rewrite <- filter_app. apply NoDup_filter, NoDup_app.
  - apply populate_nodup.
  - apply filter_keys_nodup, populate_nodup.
  - intros k Hk Hu.
    change (filter
              (fun e : string * record =>
                 negb (existsb (String.eqb (fst e)) (keys (populate deData))))
              (populate productData))
      with (unmatched (keys (populate deData)) (populate productData)) in Hu.
    apply unmatched_keys in Hu. tauto.
Qed.

Lemma afterRoundTrip_same columnName row :
  truthyValue (get row "SKU") = false \/ truthyValue (get row columnName) = true ->
  afterRoundTrip columnName row = get row columnName.
Proof.
  unfold afterRoundTrip, valueOrEmpty. intros [H|H]; rewrite H; auto.
  now destruct (truthyValue (get row "SKU")).
Qed.

Lemma afterRoundTrip_blank columnName row :
  truthyValue (get row "SKU") = true ->
  truthyValue (get row columnName) = false ->
  afterRoundTrip columnName row = Str "".
Proof. unfold afterRoundTrip, valueOrEmpty. now intros -> ->. Qed.

(** A both-present record of a primary dataset without a [Category]
    column holds [undefined] under [Subcategory]; the export writes an
    empty cell for it and the table generated from the unmodified copy
    holds the empty string. *)
Lemma roundTrip_not_exact :
  missingColumns (hd [] bothPresentUndefined) = []
  /\ exists result,
       roundTrip bothPresentUndefined "Subcategory"
                 (exportedCopies bothPresentUndefined "Subcategory")
       = Some result
       /\ columnValues "Subcategory" bothPresentUndefined = [Undefined]
       /\ columnValues "Subcategory" result = [Str ""]
       /\ columnValues "Subcategory" result
          <> columnValues "Subcategory" bothPresentUndefined.
Proof.
  split; [reflexivity|].
  eexists. split; [vm_compute; reflexivity|].
  split; [reflexivity|]. split; [reflexivity|]. discriminate.
Qed.

Lemma exportedCopiesVia_unchanged viaSpreadsheet data columnName :
  (forall t, In t (exportedTexts data columnName) -> viaSpreadsheet t = t) ->
  exportedCopiesVia viaSpreadsheet data columnName = exportedCopies data columnName.
Proof.
  unfold exportedCopiesVia, exportedCopies, exportedTexts. intros H.
  apply map_ext_in. intros f Hf. unfold readBackVia, readBack.
  apply map_ext_in. intros row Hrow.
  apply map_ext_in. intros kv Hkv. f_equal. apply H.
  apply in_flat_map. exists f. split; [exact Hf|].
  apply in_flat_map. exists row. split; [exact Hrow|].
  apply in_map_iff. exists kv. auto.
Qed.

(** Where the pair changes a text, the table holds the changed text. *)
Example roundTrip_altered_text :
  exists result,
    roundTrip escapedTitle "Title"
              (exportedCopiesVia unescaping escapedTitle "Title") = Some result
    /\ columnValues "Title" escapedTitle = [Str "x_x000D_y"]
    /\ columnValues "Title" result = [Str ("x" ++ CR ++ "y")].
Proof.
  eexists. split; [vm_compute; reflexivity|]. split; reflexivity.
Qed.

(** C9 (amended). Take a unified set that [mergeFiles] built and on
    which the extraction goes through, one of the four columns, and an
    unmodified copy of every file exported for that column, selected in
    any order, the spreadsheet writer and reader returning the text of
    every exported cell as it is.  Generating the table leaves, on every
    row, the original value of the column when that value is a non-empty
    string or when the row has an empty identifier; on a row with a
    non-empty identifier whose original value is absent, [undefined] or
    empty, the column holds the empty string. *)
Theorem roundTrip_column (deData productData : list record)
        (columnName : string) (viaSpreadsheet : string -> string)
        (files : list (list record)) :
  In columnName columnsToExtract ->
  missingColumns (hd [] (mergeFiles deData productData)) = [] ->
  (forall t, In t (exportedTexts (mergeFiles deData productData) columnName) ->
             viaSpreadsheet t = t) ->
  Permutation files
    (exportedCopiesVia viaSpreadsheet (mergeFiles deData productData) columnName) ->
  batchesOf (extractColumns (mergeFiles deData productData))
  = [flat_map (columnFiles (mergeFiles deData productData)) columnsToExtract]
  /\ exists result,
       roundTrip (mergeFiles deData productData) columnName files = Some result
       /\ columnValues columnName result
          = map (afterRoundTrip columnName) (mergeFiles deData productData)
       /\ (forall i row,
             nth_error (mergeFiles deData productData) i = Some row ->
             truthyValue (get row "SKU") = false
             \/ truthyValue (get row columnName) = true ->
             nth_error (columnValues columnName result) i
             = Some (get row columnName))
       /\ (forall i row,
             nth_error (mergeFiles deData productData) i = Some row ->
             truthyValue (get row "SKU") = true ->
             truthyValue (get row columnName) = false ->
             nth_error (columnValues columnName result) i = Some (Str "")).
Proof.
  intros Hcol Hmiss Hvia Hperm.
  rewrite (exportedCopiesVia_unchanged _ _ _ Hvia) in Hperm.
  set (data := mergeFiles deData productData) in *.
  assert (Hne : data <> []).
  { intros E. rewrite E in Hmiss. discriminate Hmiss. }
  split.
  - destruct data as [|first rest] eqn:E; [congruence|].
    now rewrite extractColumns_proceeds.
  - destruct (roundTrip_values data columnName files Hcol Hne
                (mergeFiles_wellFormed deData productData)
                (mergeFiles_skus_nodup deData productData) Hperm)
      as [result [Hres Hvals]].
    exists result. split; [exact Hres|]. split; [exact Hvals|].
    split; intros i row Hi; rewrite Hvals;
      rewrite nth_error_map, Hi; simpl; intros; f_equal.
    + now apply afterRoundTrip_same.
    + now apply afterRoundTrip_blank.
Qed.

Lemma roundTrip_column_witness :
  exists result,
    roundTrip bothPresentUndefined "Title"
              (exportedCopiesVia unescaping bothPresentUndefined "Title")
    = Some result
    /\ columnValues "Title" result = [Str "Lamp"].
Proof.
  destruct (roundTrip_column
              [[("SKU", "A1"); ("Price", "10")]]
              [[("SKU", "A1"); ("Name", "Lamp")]]
              "Title" unescaping
              (exportedCopiesVia unescaping bothPresentUndefined "Title"))
    as [_ [result [Hres [Hvals _]]]].
  - simpl. auto.
  - reflexivity.
  - intros t Ht. vm_compute in Ht.
    destruct Ht as [<-|[<-|[<-|[]]]]; reflexivity.
  - apply Permutation_refl.
  - exists result. split; [exact Hres|]. rewrite Hvals. reflexivity.
Defined.

(* ================================================================== *)
(** ** More on mergeFiles *)

Lemma keysOf_length data : List.length (keysOf data) <= List.length data.
Proof.
  unfold keysOf. induction data as [|item data IH]; simpl; auto.
  rewrite length_app. destruct (keyOf item); simpl; lia.
Qed.

Lemma nodup_length_le (ks : list string) :
  List.length (nodup string_dec ks) <= List.length ks.
Proof.
  apply NoDup_incl_length; [apply NoDup_nodup|].
  intros k Hk. now apply nodup_In in Hk.
Qed.

(** X1. The unified set has as many records as there are distinct
    normalized keys in the two datasets together, hence never more than
    the two datasets have rows. *)
Theorem mergeFiles_length (deData productData : list record) :
  List.length (mergeFiles deData productData)
  = List.length (nodup string_dec (keysOf deData ++ keysOf productData))
  /\ List.length (mergeFiles deData productData)
     <= List.length deData + List.length productData.
Proof.
  assert (Hlen : List.length (mergeFiles deData productData)
                 = List.length (nodup string_dec
                                  (keysOf deData ++ keysOf productData))).
  { rewrite mergeFiles_eq, length_app, !length_map.
    rewrite <- (length_map fst (populate deData)).
    rewrite <- (length_map fst (unmatched _ _)).
    rewrite <- length_app.
    apply Permutation_length, NoDup_Permutation.
    - apply NoDup_app.
      + apply populate_nodup.
      + apply filter_keys_nodup, populate_nodup.
      + intros k Hk Hu. apply unmatched_keys in Hu. tauto.
    - apply NoDup_nodup.
    - intros k. rewrite nodup_In, !in_app_iff.
      change (map fst (populate deData)) with (keys (populate deData)).
      change (map fst (unmatched (keys (populate deData)) (populate productData)))
        with (keys (unmatched (keys (populate deData)) (populate productData))).
      rewrite unmatched_keys, !populate_keys.
      destruct (in_dec string_dec k (keysOf deData)); tauto. }
  split; [exact Hlen|].
  rewrite Hlen.
  etransitivity; [apply nodup_length_le|].
  rewrite length_app.
  pose proof (keysOf_length deData). pose proof (keysOf_length productData). lia.
Qed.

(** X2. Of several primary rows with the same normalized key the last
    one is the one the unified record is built from, whichever branch
    builds it. *)
Theorem mergeFiles_last_duplicate_wins (before after : list record)
        (item : record) (productData : list record) (k : string) :
  keyOf item = Some k -> ~ In k (keysOf after) ->
  filter (hasSku k) (mergeFiles (before ++ item :: after) productData)
  = [ match JsMap.get (populate productData) k with
      | Some productItem => mergedProduct k item productItem
      | None => deSoloProduct k item
      end ].
Proof.
  intros Hkey Hafter.
  assert (Hget : JsMap.get (populate (before ++ item :: after)) k = Some item).
  { rewrite populate_get.
    change (item :: after) with ([item] ++ after)%list.
    rewrite app_assoc, lastWith_app, (lastWith_absent after) by assumption.
    rewrite lastWith_app. unfold lastWith at 1. simpl.
    now rewrite Hkey, String.eqb_refl. }
  destruct (mergeFiles_key_once (before ++ item :: after) productData k)
    as [o [Hf Hp]].
  { left. unfold keysOf. rewrite flat_map_app, in_app_iff. right.
    simpl. rewrite Hkey. simpl. auto. }
  rewrite Hf. unfold producedBy in Hp. rewrite Hget in Hp.
  destruct (JsMap.get (populate productData) k); now subst.
Qed.

Lemma mergeFiles_last_duplicate_wins_witness :
  filter (hasSku "A1")
         (mergeFiles [ [("SKU", "B34A1"); ("Price", "10")];
                       [("SKU", "a1"); ("Price", "11")];
                       [("SKU", "A1V1"); ("Price", "12")];
                       [("SKU", "Z9")] ] [])
  = [ deSoloProduct "A1" [("SKU", "A1V1"); ("Price", "12")] ].
Proof.
  apply (mergeFiles_last_duplicate_wins
           [ [("SKU", "B34A1"); ("Price", "10")]; [("SKU", "a1"); ("Price", "11")] ]
           [ [("SKU", "Z9")] ]
           [("SKU", "A1V1"); ("Price", "12")] [] "A1").
  - reflexivity.
  - simpl. intros [H|[]]. discriminate H.
Defined.

(* ------------------------------------------------------------------ *)
(** *** Descriptions and images of the unified records *)

Lemma append_empty a b : a ++ b = "" -> a = "" /\ b = "".
Proof. destruct a; simpl; [auto | discriminate]. Qed.

Lemma join_snoc sep xs x :
  join sep (xs ++ [x]) =
  match xs with [] => x | _ => join sep xs ++ sep ++ x end.
Proof.
  induction xs as [|y ys IH]; [reflexivity|].
  destruct ys as [|z zs].
  - reflexivity.
  - change (join sep ((y :: z :: zs) ++ [x]))
      with (y ++ sep ++ join sep ((z :: zs) ++ [x])).
    rewrite IH.
    change (join sep (y :: z :: zs)) with (y ++ sep ++ join sep (z :: zs)).
    now rewrite !append_assoc.
Qed.

Lemma join_empty sep xs :
  Forall (fun s => s <> "") xs -> join sep xs = "" -> xs = [].
Proof.
  intros Hxs. destruct Hxs as [|x xs Hx _]; auto.
  destruct xs; simpl; intros H.
  - congruence.
  - apply append_empty in H. tauto.
Qed.

Lemma pushTruthy_nonempty item ks : Forall (fun s => s <> "") (pushTruthy item ks).
Proof.
  unfold pushTruthy. apply Forall_forall. intros s Hs.
  apply in_flat_map in Hs. destruct Hs as [k [_ Hs]].
  destruct (field item k) as [c|]; [|destruct Hs].
  destruct c; simpl in Hs; [destruct Hs|].
  destruct Hs as [<-|[]]. discriminate.
Qed.

Lemma pushTruthy_nil item ks :
  pushTruthy item ks = [] <->
  forall k, In k ks -> truthyOpt (field item k) = false.
Proof.
  unfold pushTruthy. induction ks as [|k ks IH]; simpl.
  - split; [intros _ k [] | auto].
  - split.
    + intros H. apply app_eq_nil in H. destruct H as [Hk Hks].
      intros k' [<-|Hin].
      * destruct (field item k) as [c|]; auto. simpl.
        destruct (truthy c); [discriminate|auto].
      * now apply IH.
    + intros H. rewrite (proj2 IH) by auto. rewrite app_nil_r.
      specialize (H k (or_introl eq_refl)).
      destruct (field item k) as [c|]; auto. simpl in H. now rewrite H.
Qed.

Lemma pushTruthy_single item k :
  pushTruthy item [k] =
  match field item k with
  | Some s => if truthy s then [s] else []
  | None => []
  end.
Proof. unfold pushTruthy. simpl. now rewrite app_nil_r. Qed.

Lemma get_literal_description (o : object) item :
  get (addImages item o) "description" = get o "description".
Proof. apply get_addImages. simpl. intuition discriminate. Qed.

(** X3. The description of a both-present record is the blank-line
    join of the non-empty product descriptions 1 to 5 followed by the
    non-empty primary description 1; it is empty exactly when all six
    are empty or absent, and when the primary description 1 is not
    empty the text ends with it, after a blank line if anything
    precedes it. *)
Theorem mergedProduct_description (k : string) (deItem productItem : record) :
  get (mergedProduct k deItem productItem) "description"
  = Str (join NEWLINES (mergedSegments deItem productItem))
  /\ Forall (fun s => s <> "") (mergedSegments deItem productItem)
  /\ (get (mergedProduct k deItem productItem) "description" = Str "" <->
      (forall key, In key descriptionKeys ->
                   truthyOpt (field productItem key) = false)
      /\ truthyOpt (field deItem "Description 1") = false)
  /\ (forall s, field deItem "Description 1" = Some s -> s <> "" ->
        get (mergedProduct k deItem productItem) "description"
        = Str (match pushTruthy productItem descriptionKeys with
               | [] => s
               | segments => join NEWLINES segments ++ NEWLINES ++ s
               end)).
Proof.
  assert (Hget : get (mergedProduct k deItem productItem) "description"
                 = Str (join NEWLINES (mergedSegments deItem productItem))).
  { unfold mergedProduct. now rewrite get_literal_description. }
  assert (Hne : Forall (fun s => s <> "") (mergedSegments deItem productItem)).
  { unfold mergedSegments. apply Forall_app. split; apply pushTruthy_nonempty. }
  split; [exact Hget|]. split; [exact Hne|]. split.
  - rewrite Hget. split.
    + intros [= H]. apply (join_empty _ _ Hne) in H.
      unfold mergedSegments in H. apply app_eq_nil in H. destruct H as [Hp Hd].
      split.
      * now apply pushTruthy_nil.
      * apply (proj1 (pushTruthy_nil deItem ["Description 1"]) Hd). simpl. auto.
    + intros [Hp Hd]. unfold mergedSegments.
      rewrite (proj2 (pushTruthy_nil productItem descriptionKeys) Hp).
      rewrite (proj2 (pushTruthy_nil deItem ["Description 1"])); auto.
      intros key [<-|[]]. exact Hd.
  - intros s Hs Hnes. rewrite Hget. unfold mergedSegments.
    rewrite pushTruthy_single, Hs.
    destruct s as [|c s]; [congruence|]. cbn [truthy String.eqb negb].
    rewrite join_snoc. now destruct (pushTruthy productItem descriptionKeys).
Qed.

Lemma mergedProduct_description_witness :
  get (mergedProduct "X1" [("SKU", "B34X1V1"); ("Description 1", "from primary")]
         [("SKU", "X1"); ("Description 1", "d1"); ("Description 2", "");
          ("Description 3", "d3")]) "description"
  = Str ("d1" ++ NEWLINES ++ "d3" ++ NEWLINES ++ "from primary").
Proof.
  rewrite (proj2 (proj2 (proj2
             (mergedProduct_description "X1"
                [("SKU", "B34X1V1"); ("Description 1", "from primary")]
                [("SKU", "X1"); ("Description 1", "d1"); ("Description 2", "");
                 ("Description 3", "d3")])))
             "from primary" eq_refl ltac:(discriminate)).
  reflexivity.
Defined.

Lemma get_addImages_image item k : forall ks (o : object),
  get (fold_left (fun o k => match field item k with
                             | Some s => if truthy s then set o k (Str s) else o
                             | None => o
                             end) ks o) k
  = if existsb (String.eqb k) ks && truthyOpt (field item k)
    then Str (orEmpty (field item k)) else get o k.
Proof.
  induction ks as [|k0 ks IH]; intros o; simpl; auto.
  rewrite IH. destruct (String.eqb k k0) eqn:E.
  - apply String.eqb_eq in E. subst k0.
    destruct (field item k) as [s|]; simpl.
    + destruct (truthy s), (existsb (String.eqb k) ks); simpl; auto.
      apply get_set_same.
    + now rewrite andb_false_r.
  - simpl. apply String.eqb_neq in E.
    destruct (existsb (String.eqb k) ks && truthyOpt (field item k)); auto.
    destruct (field item k0) as [s|]; auto.
    destruct (truthy s); auto. apply get_set_other. congruence.
Qed.

Lemma carriedImage_eq item (o : object) k :
  In k imageKeys -> get o k = Undefined ->
  get (addImages item o) k = carriedImage item k.
Proof.
  intros Hin Ho. unfold addImages. rewrite get_addImages_image, Ho.
  assert (Hex : existsb (String.eqb k) imageKeys = true).
  { apply existsb_exists. exists k. split; auto. apply String.eqb_refl. }
  rewrite Hex. unfold carriedImage. simpl.
  destruct (field item k) as [s|]; simpl; auto.
Qed.

(** X4. An image field of a unified record is the non-empty image cell
    of its source row, and is missing otherwise; the source is the
    primary row for both-present and primary-only records (the images of
    the product row are not used there) and the product row for
    secondary-only records. *)
Theorem images_from_source (k imageKey : string) (deItem productItem : record) :
  In imageKey imageKeys ->
  get (mergedProduct k deItem productItem) imageKey = carriedImage deItem imageKey
  /\ get (deSoloProduct k deItem) imageKey = carriedImage deItem imageKey
  /\ get (productInfoOnly k productItem) imageKey
     = carriedImage productItem imageKey
  /\ (carriedImage deItem imageKey = Undefined <->
      truthyOpt (field deItem imageKey) = false).
Proof.
  intros Hin.
  assert (Hlit : forall o : object,
             (forall key, In key imageKeys -> ~ In key (keys o)) ->
             get o imageKey = Undefined).
  { intros o Ho. apply get_absent. now apply Ho. }
  repeat split.
  - unfold mergedProduct. apply carriedImage_eq; auto.
    apply Hlit. intros key Hk. simpl in Hk. simpl.
    intuition (subst; discriminate).
  - unfold deSoloProduct. apply carriedImage_eq; auto.
    apply Hlit. intros key Hk. simpl in Hk. simpl.
    intuition (subst; discriminate).
  - unfold productInfoOnly. apply carriedImage_eq; auto.
    apply Hlit. intros key Hk. simpl in Hk. simpl.
    intuition (subst; discriminate).
  - unfold carriedImage. destruct (field deItem imageKey) as [s|]; simpl; auto.
    destruct (truthy s); [discriminate | auto].
  - unfold carriedImage. destruct (field deItem imageKey) as [s|]; simpl; auto.
    destruct (truthy s); [discriminate | auto].
Qed.

Lemma images_from_source_witness :
  get (mergedProduct "A1" [("SKU", "A1"); ("image1", "u1"); ("image2", "")]
         [("SKU", "A1"); ("image2", "p2")]) "image2" = Undefined.
Proof.
  apply (proj1 (images_from_source "A1" "image2"
                  [("SKU", "A1"); ("image1", "u1"); ("image2", "")]
                  [("SKU", "A1"); ("image2", "p2")] ltac:(simpl; auto))).
Defined.

(* ------------------------------------------------------------------ *)
(** *** Which unified sets can be extracted *)

Lemma keys_set_In (o : object) k v k' :
  In k' (keys (set o k v)) <-> In k' (keys o) \/ k' = k.
Proof.
  rewrite set_as_map, map_keys_set.
  destruct (JsMap.has o k) eqn:E.
  - apply map_has_in in E. split; [auto | intros [H| ->]; auto].
  - rewrite in_app_iff. simpl. intuition.
Qed.

Lemma keys_addImages item k : forall (o : object),
  In k (keys (addImages item o)) ->
  In k (keys o) \/ In k imageKeys.
Proof.
  unfold addImages. generalize imageKeys as ks.
  induction ks as [|k0 ks IH]; intros o; simpl; auto.
  intros H. apply IH in H. destruct H as [H|H]; auto.
  destruct (field item k0) as [s|]; auto.
  destruct (truthy s); auto.
  apply keys_set_In in H. intuition.
Qed.

Lemma keys_addImages_keep item k : forall (o : object),
  In k (keys o) -> In k (keys (addImages item o)).
Proof.
  unfold addImages. generalize imageKeys as ks.
  induction ks as [|k0 ks IH]; intros o; simpl; auto.
  intros H. apply IH.
  destruct (field item k0) as [s|]; auto.
  destruct (truthy s); auto.
  apply keys_set_In. auto.
Qed.

Lemma missingColumns_nil first :
  (forall column, In column columnsToExtract -> In column (keys first)) ->
  missingColumns first = [].
Proof.
  intros Hall. destruct (missingColumns first) as [|c l] eqn:E; auto.
  assert (Hc : In c (missingColumns first)) by (rewrite E; simpl; auto).
  apply missingColumns_In in Hc. destruct Hc as [Hc Hn].
  exfalso. apply Hn, Hall, Hc.
Qed.

Lemma mergedProduct_extractable k deItem productItem :
  missingColumns (mergedProduct k deItem productItem) = [].
Proof.
  apply missingColumns_nil. intros column Hc.
  unfold mergedProduct. apply keys_addImages_keep.
  unfold columnsToExtract in Hc. simpl in Hc. simpl.
  intuition (subst; auto 20).
Qed.

Lemma productInfoOnly_extractable k productItem :
  missingColumns (productInfoOnly k productItem) = [].
Proof.
  apply missingColumns_nil. intros column Hc.
  unfold productInfoOnly. apply keys_addImages_keep.
  unfold columnsToExtract in Hc. simpl in Hc. simpl.
  intuition (subst; auto 20).
Qed.

Lemma deSoloProduct_not_extractable k deItem :
  In "Subcategory" (missingColumns (deSoloProduct k deItem)).
Proof.
  apply missingColumns_In. split; [simpl; auto|].
  unfold deSoloProduct. intros H. apply keys_addImages in H.
  simpl in H. intuition discriminate.
Qed.

(** X5. The extraction of a unified set built by [mergeFiles] hands
    over nothing exactly when the set is empty or its first record is
    primary-only, that is when the first keyed item of the primary
    dataset has no counterpart in the product dataset: such a record has
    no [Subcategory] field, whatever the primary row holds. *)
Theorem extraction_needs_matched_first (deData productData : list record) :
  batchesOf (extractColumns (mergeFiles deData productData)) = [] <->
  mergeFiles deData productData = []
  \/ exists k deItem rest,
       populate deData = (k, deItem) :: rest
       /\ JsMap.get (populate productData) k = None.
Proof.
  rewrite mergeFiles_eq.
  destruct (populate deData) as [|[k d] rest] eqn:Ede.
  - cbn [map app keys].
    destruct (unmatched [] (populate productData)) as [|e u] eqn:Eu.
    + simpl. split; auto.
    + cbn [map]. rewrite extractColumns_proceeds
        by apply productInfoOnly_extractable.
      split; [discriminate|].
      intros [H|[k [d [rest [H _]]]]]; discriminate H.
  - cbn [map app]. unfold primaryRecord at 1. cbn [fst snd].
    destruct (JsMap.get (populate productData) k) as [p|] eqn:Eget.
    + rewrite extractColumns_proceeds by apply mergedProduct_extractable.
      split; [discriminate|].
      intros [H|[k' [d' [rest' [H Hn]]]]]; [discriminate H|].
      injection H as -> -> ->. congruence.
    + split; [|intros _].
      * intros _. right. exists k, d, rest. auto.
      * unfold extractColumns.
        pose proof (deSoloProduct_not_extractable k d) as Hm.
        destruct (missingColumns (deSoloProduct k d)); [destruct Hm|].
        reflexivity.
Qed.

Lemma zipFiles_nodup data : NoDup (keys (zipFiles data)).
Proof.
  unfold zipFiles.
  assert (Hinner : forall fs (zip : JsMap.t sheet),
             NoDup (keys zip) ->
             NoDup (keys (fold_left
                            (fun zip f => JsMap.set zip (fst f) (snd f)) fs zip))).
  { induction fs as [|f0 fs IHfs]; intros zip Hzip; simpl; auto.
    apply IHfs. now apply map_set_nodup. }
  assert (Houter : forall cols (zip : JsMap.t sheet),
             NoDup (keys zip) ->
             NoDup (keys (fold_left
               (fun zip column =>
                  fold_left (fun zip f => JsMap.set zip (fst f) (snd f))
                            (columnFiles data column) zip)
               cols zip))).
  { induction cols as [|c cols IHc]; intros zip Hzip; simpl; auto. }
  apply Houter. constructor.
Qed.

(** X6. When the extraction goes through, the archive holds
    [3 + ceil(n/600)] files under pairwise distinct names, and the rows
    of all its sheets add up to four times the rows of the unified set:
    every row is exported once per column. *)
Theorem archive_shape (first : object) (rest : list object) :
  missingColumns first = [] ->
  exists files,
    batchesOf (extractColumns (first :: rest)) = [files]
    /\ NoDup (keys files)
    /\ List.length files
       = 3 + ceilDiv (List.length (first :: rest)) ROWS_PER_FILE
    /\ List.length (List.concat (JsMap.values files))
       = 4 * List.length (first :: rest).
Proof.
  intros Hmiss. rewrite (extractColumns_proceeds first rest Hmiss).
  eexists. split; [reflexivity|].
  set (data := first :: rest).
  split; [|split].
  - rewrite <- zipFiles_eq. apply zipFiles_nodup.
  - unfold columnsToExtract. cbn [flat_map].
    rewrite !length_app.
    change (columnFiles data "Subcategory")
      with [("subcategory.xlsx", mapFrom (extractRow "Subcategory") 0 data)].
    change (columnFiles data "Category")
      with [("category.xlsx", mapFrom (extractRow "Category") 0 data)].
    change (columnFiles data "Title")
      with [("title.xlsx", mapFrom (extractRow "Title") 0 data)].
    rewrite <- (length_map snd (columnFiles data "description")).
    rewrite descriptionFiles_sheets, length_map, length_seq. simpl. lia.
  - unfold JsMap.values, columnsToExtract. cbn [flat_map].
    rewrite ?app_nil_r, !map_app, !concat_app, !length_app.
    rewrite !columnFiles_concat by (simpl; auto 6).
    rewrite !mapFrom_length. simpl. lia.
Qed.

Lemma archive_shape_witness :
  exists files,
    batchesOf (extractColumns [completeRow; completeRow]) = [files]
    /\ List.length files = 4.
Proof.
  destruct (archive_shape completeRow [completeRow] eq_refl)
    as [files [Hb [_ [Hlen _]]]].
  exists files. split; [exact Hb|]. rewrite Hlen. reflexivity.
Defined.

(* ------------------------------------------------------------------ *)
(** *** The shape of a normalized key *)





(* ================================================================== *)
(** ** More on handleTranslatedFileChange *)

Lemma field_In (row : record) k : In k (keys row) -> field row k <> None.
Proof.
  induction row as [|[k0 v0] row IH]; simpl; [tauto|].
  intros H. destruct (String.eqb k0 k) eqn:E; [discriminate|].
  apply String.eqb_neq in E. apply IH. tauto.
Qed.

Lemma orKey_In found fallback ks :
  (forall k, found = Some k -> In k ks) ->
  (exists k, fallback = Some k /\ In k ks) ->
  exists k, orKey found fallback = Some k /\ In k ks.
Proof.
  intros Hfound [k [-> Hk]]. unfold orKey.
  destruct found as [k'|]; eauto.
  destruct (truthy k'); eauto.
Qed.

(** X8. A row with at least three fields is never dropped: when no
    header is recognised the third field is the value.  With no header
    recognised at all, the first three fields are taken, in this order,
    for the row index, the identifier and the value. *)
Theorem standardizeRow_positional (columnName : string) (row : record) :
  (3 <= List.length row -> standardizeRow columnName row <> None)
  /\ (forall k0 v0 k1 v1 k2 v2 rest,
        row = (k0, v0) :: (k1, v1) :: (k2, v2) :: rest ->
        k1 <> k0 -> k2 <> k0 -> k2 <> k1 ->
        (forall k, In k (keys row) ->
                   toLowerCase k <> "row_index" /\ toLowerCase k <> "sku"
                   /\ matchesColumn columnName k = false) ->
        columnName <> "row_index" -> columnName <> "SKU" ->
        standardizeRow columnName row
        = Some [("row_index", Str v0); ("SKU", Str v1); (columnName, Str v2)]).
Proof.
  split.
  - intros Hlen.
    destruct row as [|[k0 v0] [|[k1 v1] [|[k2 v2] rest]]];
      try (simpl in Hlen; lia).
    set (r := (k0, v0) :: (k1, v1) :: (k2, v2) :: rest).
    destruct (orKey_In (find (matchesColumn columnName) (keys r))
                       (nth_error (keys r) 2) (keys r)) as [k [Hk Hin]].
    + intros k Hk. now apply find_some in Hk.
    + exists k2. split; [reflexivity|]. simpl. auto.
    + unfold standardizeRow, dataKey. fold r. rewrite Hk. unfold cell.
      destruct (field r k) eqn:E; [discriminate|].
      exfalso. now apply (field_In r k Hin).
  - intros k0 v0 k1 v1 k2 v2 rest -> H10 H20 H21 Hnone Hri Hsku.
    set (r := (k0, v0) :: (k1, v1) :: (k2, v2) :: rest) in *.
    unfold standardizeRow, rowIndexKey, skuKey, dataKey.
    rewrite !find_none.
    + cbn [keys map fst r nth_error orKey cell field].
      rewrite !String.eqb_refl.
      assert (E10 : String.eqb k0 k1 = false) by (apply String.eqb_neq; congruence).
      assert (E20 : String.eqb k0 k2 = false) by (apply String.eqb_neq; congruence).
      assert (E21 : String.eqb k1 k2 = false) by (apply String.eqb_neq; congruence).
      rewrite E10, E20, E21. cbn [set].
      assert (E1 : String.eqb "row_index" columnName = false)
        by (apply String.eqb_neq; congruence).
      assert (E2 : String.eqb "SKU" columnName = false)
        by (apply String.eqb_neq; congruence).
      now rewrite E1, E2.
    + intros k Hk. destruct (Hnone k Hk) as [H1 [H2 H3]].
      try exact H3; apply String.eqb_neq; assumption.
    + intros k Hk. destruct (Hnone k Hk) as [H1 [H2 H3]].
      try exact H3; apply String.eqb_neq; assumption.
    + intros k Hk. destruct (Hnone k Hk) as [H1 [H2 H3]].
      try exact H3; apply String.eqb_neq; assumption.
Qed.

Lemma standardizeRow_positional_witness :
  standardizeRow "Title" [("Nr", "7"); ("Artikel", "A1"); ("Bezeichnung", "Lampe")]
  = Some [("row_index", Str "7"); ("SKU", Str "A1"); ("Title", Str "Lampe")]
  /\ standardizeRow "Title" [("a", "1"); ("b", "2"); ("c", "3"); ("d", "4")]
     <> None.
Proof.
  split.
  - apply (proj2 (standardizeRow_positional "Title"
                    [("Nr", "7"); ("Artikel", "A1"); ("Bezeichnung", "Lampe")])
                 "Nr" "7" "Artikel" "A1" "Bezeichnung" "Lampe" []);
      try reflexivity; try discriminate.
    simpl. intros k [<-|[<-|[<-|[]]]]; repeat split; discriminate.
  - apply (proj1 (standardizeRow_positional "Title"
                    [("a", "1"); ("b", "2"); ("c", "3"); ("d", "4")])).
    simpl. lia.
Defined.

(* ------------------------------------------------------------------ *)
(** *** The sort of the combined rows *)

Lemma notAfter_total a b : notAfter a b = true \/ notAfter b a = true.
Proof.
  destruct a as [x|], b as [y|]; simpl; auto.
  rewrite !Z.leb_le. lia.
Qed.

Lemma notAfter_trans a b c :
  notAfter a b = true -> notAfter b c = true -> notAfter a c = true.
Proof.
  destruct a as [x|], b as [y|], c as [z|]; simpl; auto; try discriminate.
  rewrite !Z.leb_le. lia.
Qed.

Lemma insertRow_hd row r sorted :
  rowLe r row -> HdRel rowLe r sorted -> HdRel rowLe r (insertRow row sorted).
Proof.
  intros Hr Hhd. destruct sorted as [|s sorted]; simpl.
  - now constructor.
  - destruct (notAfter (sortIndex row) (sortIndex s)); constructor; auto.
    now inversion Hhd.
Qed.

Lemma insertRow_sorted row sorted :
  Sorted rowLe sorted -> Sorted rowLe (insertRow row sorted).
Proof.
  induction 1 as [|s sorted Hs IH Hhd]; simpl.
  - repeat constructor.
  - destruct (notAfter (sortIndex row) (sortIndex s)) eqn:E.
    + constructor; [now constructor|]. constructor. exact E.
    + constructor; auto. apply insertRow_hd; auto.
      destruct (notAfter_total (sortIndex row) (sortIndex s)); [congruence|auto].
Qed.

Lemma sortRows_sorted rows : Sorted rowLe (sortRows rows).
Proof.
  induction rows as [|row rows IH]; simpl; [constructor|].
  now apply insertRow_sorted.
Qed.

Lemma rowLe_trans : Relations_1.Transitive rowLe.
Proof. intros a b c. unfold rowLe. apply notAfter_trans. Qed.

Lemma sameIndex_refl row : sameIndex (sortIndex row) row = true.
Proof. unfold sameIndex. destruct (sortIndex row); auto. apply Z.eqb_refl. Qed.

Lemma insertRow_filter key row sorted :
  filter (sameIndex key) (insertRow row sorted)
  = filter (sameIndex key) (row :: sorted).
Proof.
  induction sorted as [|s sorted IH]; [reflexivity|].
  cbn [insertRow].
  destruct (notAfter (sortIndex row) (sortIndex s)) eqn:E; [reflexivity|].
  cbn [filter]. rewrite IH. cbn [filter].
  destruct (sameIndex key row) eqn:Er, (sameIndex key s) eqn:Es; auto.
  exfalso. unfold sameIndex in Er, Es.
  destruct (sortIndex row) as [x|], (sortIndex s) as [y|], key as [z|];
    simpl in *; try discriminate.
  apply Z.eqb_eq in Er, Es. subst. rewrite Z.leb_refl in E. discriminate.
Qed.

(** X9. The sort of the combined rows rearranges them without losing
    or repeating one, into ascending numeric [row_index]; rows with the
    same index keep the order they had (the order of the files and of
    the rows in them), and rows whose index is not a number come last. *)
Theorem sortRows_stable (rows : list object) :
  Permutation (sortRows rows) rows
  /\ StronglySorted rowLe (sortRows rows)
  /\ (forall key, filter (sameIndex key) (sortRows rows)
                  = filter (sameIndex key) rows)
  /\ (forall before row after,
        sortRows rows = (before ++ row :: after)%list ->
        sortIndex row = None ->
        Forall (fun r => sortIndex r = None) after).
Proof.
  assert (Hss : StronglySorted rowLe (sortRows rows)).
  { apply Sorted_StronglySorted; [exact rowLe_trans | apply sortRows_sorted]. }
  split; [apply sortRows_perm|]. split; [exact Hss|]. split.
  - intros key. induction rows as [|row rows IH]; [reflexivity|].
    cbn [sortRows fold_right]. rewrite insertRow_filter.
    cbn [filter]. fold (sortRows rows).
    rewrite IH; [reflexivity|].
    apply Sorted_StronglySorted; [exact rowLe_trans | apply sortRows_sorted].
  - intros before row after Heq Hnone. rewrite Heq in Hss.
    clear Heq. induction before as [|b before IH].
    + simpl in Hss. inversion Hss as [|? ? _ Hall]; subst.
      eapply Forall_impl; [|exact Hall].
      intros r Hr. unfold rowLe in Hr. rewrite Hnone in Hr.
      destruct (sortIndex r); [discriminate | reflexivity].
    + apply IH. simpl in Hss. now inversion Hss.
Qed.

Lemma sortRows_stable_witness :
  Forall (fun r => sortIndex r = None) [ [("SKU", Str "c")] ].
Proof.
  apply (proj2 (proj2 (proj2 (sortRows_stable
            [ [("row_index", Str "x"); ("SKU", Str "a")];
              [("row_index", Str "1"); ("SKU", Str "b")];
              [("SKU", Str "c")] ])))
          [ [("row_index", Str "1"); ("SKU", Str "b")] ]
          [("row_index", Str "x"); ("SKU", Str "a")]
          [ [("SKU", Str "c")] ]).
  - reflexivity.
  - reflexivity.
Defined.

(* ------------------------------------------------------------------ *)
(** *** The rows kept per identifier *)

Lemma set_entries {V} (m : JsMap.t V) k v k' v' :
  In (k', v') (JsMap.set m k v) -> In (k', v') m \/ (k', v') = (k, v).
Proof.
  induction m as [|[k0 v0] m IH]; simpl.
  - intros [H|[]]; auto.
  - destruct (String.eqb k0 k) eqn:E; simpl.
    + apply String.eqb_eq in E. subst k0.
      intros [H|H]; auto.
    + intros [H|H]; auto. destruct (IH H); auto.
Qed.

Lemma rowsBySku_fold rows : forall m : JsMap.t object,
  fold_left (fun m row =>
               match get row "SKU" with
               | Str sku => if truthy sku then JsMap.set m sku row else m
               | _ => m
               end) rows m
  = fold_left (fun m row =>
                 fold_left (fun m f => JsMap.set m (fst f) (snd f))
                           (skuEntry row) m) rows m.
Proof.
  apply fold_left_ext. intros m row. unfold skuEntry.
  destruct (get row "SKU") as [|sku|]; auto. now destruct (truthy sku).
Qed.

Lemma rowsBySku_from_nodup rows : forall m : JsMap.t object,
  NoDup (keys m) ->
  NoDup (keys (fold_left (fun m row =>
                 fold_left (fun m f => JsMap.set m (fst f) (snd f))
                           (skuEntry row) m) rows m)).
Proof.
  induction rows as [|row rows IH]; intros m Hm; simpl; auto.
  apply IH. unfold skuEntry.
  destruct (get row "SKU") as [|sku|]; auto.
  destruct (truthy sku); simpl; auto. now apply map_set_nodup.
Qed.

Lemma rowsBySku_from_keys rows k : forall m : JsMap.t object,
  In k (keys (fold_left (fun m row =>
                 fold_left (fun m f => JsMap.set m (fst f) (snd f))
                           (skuEntry row) m) rows m))
  <-> In k (keys m) \/ In k (truthySkus rows).
Proof.
  induction rows as [|row rows IH]; intros m; simpl.
  - tauto.
  - rewrite IH. unfold truthySkus. cbn [flat_map]. rewrite in_app_iff.
    fold (truthySkus rows). unfold skuEntry.
    destruct (get row "SKU") as [|sku|]; simpl; try tauto.
    destruct (truthy sku); simpl; try tauto.
    rewrite map_keys_set. destruct (JsMap.has m sku) eqn:E.
    + apply map_has_in in E. intuition (subst; auto).
    + rewrite in_app_iff. simpl. tauto.
Qed.

Lemma rowsBySku_from_entries rows k row : forall m : JsMap.t object,
  In (k, row) (fold_left (fun m row =>
                 fold_left (fun m f => JsMap.set m (fst f) (snd f))
                           (skuEntry row) m) rows m) ->
  In (k, row) m \/ (In row rows /\ skuEntry row = [(k, row)]).
Proof.
  induction rows as [|r rows IH]; intros m; simpl; auto.
  intros H. apply IH in H. destruct H as [H|[H1 H2]]; [|auto].
  unfold skuEntry in *.
  destruct (get r "SKU") as [|sku|] eqn:Er; simpl in H; auto.
  destruct (truthy sku) eqn:T; simpl in H; auto.
  apply set_entries in H. destruct H as [H|H]; auto.
  injection H as -> ->. right. split; auto. now rewrite Er, T.
Qed.

Lemma rowsBySku_from_get rows k : forall m : JsMap.t object,
  JsMap.get (fold_left (fun m row =>
                 fold_left (fun m f => JsMap.set m (fst f) (snd f))
                           (skuEntry row) m) rows m) k
  = fold_left (fun acc row =>
                 match skuEntry row with
                 | (k', r) :: _ => if String.eqb k' k then Some r else acc
                 | [] => acc
                 end) rows (JsMap.get m k).
Proof.
  induction rows as [|row rows IH]; intros m; simpl; auto.
  rewrite IH. f_equal. unfold skuEntry.
  destruct (get row "SKU") as [|sku|]; auto.
  destruct (truthy sku); simpl; auto.
  destruct (String.eqb sku k) eqn:E.
  - apply String.eqb_eq in E. subst. apply map_get_set_same.
  - apply String.eqb_neq in E. now apply map_get_set_other.
Qed.

Lemma truthySkus_values (m : JsMap.t object) :
  (forall k row, In (k, row) m -> skuEntry row = [(k, row)]) ->
  truthySkus (JsMap.values m) = keys m.
Proof.
  unfold JsMap.values, keys. induction m as [|[k row] m IH]; intros H; auto.
  unfold truthySkus in *. cbn [map flat_map fst snd].
  rewrite IH by (intros k' r' Hin; apply H; simpl; auto).
  specialize (H k row (or_introl eq_refl)). unfold skuEntry in H.
  destruct (get row "SKU") as [|sku|]; try discriminate.
  destruct (truthy sku); try discriminate. now injection H as ->.
Qed.

Lemma nodup_perm_length (xs ys : list string) :
  Permutation xs ys ->
  List.length (nodup string_dec xs) = List.length (nodup string_dec ys).
Proof.
  intros H. apply Permutation_length, NoDup_Permutation; try apply NoDup_nodup.
  intros k. rewrite !nodup_In. split; apply Permutation_in; auto.
  now symmetry.
Qed.

Lemma last_wins_fold sku (row : object) after :
  ~ In sku (truthySkus after) ->
  fold_left (fun acc row =>
               match skuEntry row with
               | (k', r) :: _ => if String.eqb k' sku then Some r else acc
               | [] => acc
               end) after (Some row)
  = Some row.
Proof.
  induction after as [|r after IH]; intros Hafter; [reflexivity|].
  cbn [fold_left].
  unfold truthySkus in Hafter. cbn [flat_map] in Hafter.
  rewrite in_app_iff in Hafter. fold (truthySkus after) in Hafter.
  assert (Hr : match skuEntry r with
               | (k', r0) :: _ => if String.eqb k' sku then Some r0 else Some row
               | [] => Some row
               end = Some row).
  { unfold skuEntry. destruct (get r "SKU") as [|s|]; auto.
    destruct (truthy s); auto.
    destruct (String.eqb s sku) eqn:E; auto.
    apply String.eqb_eq in E. subst. exfalso. apply Hafter. simpl. auto. }
  rewrite Hr. apply IH. tauto.
Qed.

(** What [handleTranslatedFileChange] builds the map from. *)
Lemma stored_rows columnName files rows total uniq skipped :
  handleTranslatedFileChange columnName files = Stored rows total uniq skipped ->
  exists allRows,
    Permutation allRows (survivors columnName files)
    /\ (List.length files <= 1 -> allRows = survivors columnName files)
    /\ rows = JsMap.values (rowsBySku allRows)
    /\ total = List.length allRows
    /\ uniq = List.length (rowsBySku allRows)
    /\ skipped = droppedCount columnName files.
Proof.
  destruct files as [|file files]; [discriminate|].
  rewrite handleTranslatedFileChange_eq. cbv zeta.
  set (allRows := if Nat.ltb 1 (List.length (file :: files))
                  then sortRows (survivors columnName (file :: files))
                  else survivors columnName (file :: files)).
  destruct (Nat.eqb (List.length allRows) 0); [discriminate|].
  intros [= <- <- <- <-]. exists allRows. repeat split.
  - unfold allRows. destruct (Nat.ltb 1 (List.length (file :: files))); auto.
    apply sortRows_perm.
  - intros Hlen. unfold allRows.
    destruct (Nat.ltb 1 (List.length (file :: files))) eqn:E; auto.
    apply Nat.ltb_lt in E. lia.
Qed.

(** X10. When the import stores rows for a column, it stores one row per
    distinct non-empty identifier among the rows that survived, each with
    that identifier, so rows with an empty identifier are left out; the
    reported totals are the survivors, the distinct identifiers and the
    dropped rows, and survivors and dropped rows together are the rows
    that were read.  Within a single file the last row of an identifier
    is the one stored. *)
Theorem import_stored_invariants (columnName : string)
        (files : list (list record)) (rows : list object)
        (total uniq skipped : nat) :
  handleTranslatedFileChange columnName files = Stored rows total uniq skipped ->
  total = List.length (survivors columnName files)
  /\ total + skipped = List.length (List.concat files)
  /\ uniq = List.length rows
  /\ uniq = List.length (nodup string_dec
                           (truthySkus (survivors columnName files)))
  /\ NoDup (truthySkus rows)
  /\ List.length (truthySkus rows) = List.length rows
  /\ (forall row, In row rows -> In row (survivors columnName files))
  /\ (forall before row after sku,
        List.length files <= 1 ->
        survivors columnName files = (before ++ row :: after)%list ->
        get row "SKU" = Str sku -> truthy sku = true ->
        ~ In sku (truthySkus after) ->
        In row rows).
Proof.
  intros H. destruct (stored_rows _ _ _ _ _ _ H)
    as [allRows [Hperm [Hsingle [-> [-> [-> ->]]]]]].
  pose proof (rowsBySku_from_nodup allRows JsMap.empty (NoDup_nil _)) as Hnd.
  pose proof (fun k => rowsBySku_from_keys allRows k JsMap.empty) as Hkeys.
  pose proof (fun k row => rowsBySku_from_entries allRows k row JsMap.empty)
    as Hent.
  pose proof (rowsBySku_from_get allRows) as Hget.
  rewrite <- (rowsBySku_fold allRows JsMap.empty) in Hnd, Hkeys, Hent.
  fold (rowsBySku allRows) in Hnd, Hkeys, Hent.
  assert (Hentry : forall k row, In (k, row) (rowsBySku allRows) ->
                                 skuEntry row = [(k, row)]).
  { intros k row Hin. destruct (Hent k row Hin) as [[]|[_ He]]. exact He. }
  assert (Hvals : truthySkus (JsMap.values (rowsBySku allRows))
                  = keys (rowsBySku allRows))
    by now apply truthySkus_values.
  split; [now apply Permutation_length|].
  split; [rewrite (Permutation_length Hperm); apply survivors_length|].
  split; [unfold JsMap.values; now rewrite length_map|].
  split.
  { rewrite <- (nodup_perm_length (truthySkus allRows)).
    - rewrite <- (length_map fst (rowsBySku allRows)).
      apply Permutation_length, NoDup_Permutation; auto using NoDup_nodup.
      intros k. rewrite nodup_In.
      change (map fst (rowsBySku allRows)) with (keys (rowsBySku allRows)).
      rewrite Hkeys. simpl. tauto.
    - unfold truthySkus. now apply Permutation_flat_map. }
  split; [now rewrite Hvals|].
  split.
  { rewrite Hvals. unfold keys, JsMap.values. now rewrite !length_map. }
  split.
  { intros row Hin. unfold JsMap.values in Hin. apply in_map_iff in Hin.
    destruct Hin as [[k r] [<- Hin]]. simpl.
    destruct (Hent k r Hin) as [[]|[Hr _]].
    now apply (Permutation_in _ Hperm). }
  intros before row after sku Hlen Hsurv Hsku Htruthy Hafter.
  rewrite (Hsingle Hlen), Hsurv in *.
  unfold JsMap.values. apply in_map_iff. exists (sku, row). split; auto.
  assert (G : JsMap.get (rowsBySku (before ++ row :: after)) sku = Some row).
  { unfold rowsBySku. rewrite rowsBySku_fold, rowsBySku_from_get.
    rewrite fold_left_app. cbn [fold_left].
    unfold skuEntry at 2. rewrite Hsku, Htruthy, String.eqb_refl.
    now apply last_wins_fold. }
  clear - G. induction (rowsBySku (before ++ row :: after)) as [|[k r] m IH];
    simpl in *; [discriminate|].
  destruct (String.eqb k sku) eqn:E.
  - apply String.eqb_eq in E. injection G as ->. subst. auto.
  - auto.
Qed.

Lemma import_stored_invariants_witness :
  exists rows,
    handleTranslatedFileChange "Title"
      [[ [("row_index", "0"); ("SKU", "A1"); ("Title", "first")];
         [("row_index", "1"); ("SKU", ""); ("Title", "no identifier")];
         [("row_index", "2"); ("SKU", "A1"); ("Title", "second")];
         [("row_index", "3")] ]]
    = Stored rows 3 1 1
    /\ List.length rows = 1
    /\ In [("row_index", Str "2"); ("SKU", Str "A1"); ("Title", Str "second")]
          rows.
Proof.
  eexists. split; [vm_compute; reflexivity|].
  match goal with
  | |- List.length ?r = 1 /\ _ =>
      pose proof (import_stored_invariants "Title"
        [[ [("row_index", "0"); ("SKU", "A1"); ("Title", "first")];
           [("row_index", "1"); ("SKU", ""); ("Title", "no identifier")];
           [("row_index", "2"); ("SKU", "A1"); ("Title", "second")];
           [("row_index", "3")] ]] r 3 1 1 eq_refl)
        as [_ [_ [Hu [_ [_ [_ [_ Hlast]]]]]]]
  end.
  split; [now rewrite <- Hu|].
  apply (Hlast [ [("row_index", Str "0"); ("SKU", Str "A1"); ("Title", Str "first")];
                 [("row_index", Str "1"); ("SKU", Str ""); ("Title", Str "no identifier")] ]
               _ [] "A1").
  - simpl. lia.
  - reflexivity.
  - reflexivity.
  - reflexivity.
  - intros [].
Defined.

(* ------------------------------------------------------------------ *)
(** *** Row indices written by the extraction, read by the import *)

Lemma digits_step c s acc d :
  digitOf c = Some d ->
  digits (String c s) acc
  = digits s (Some (10 * match acc with Some a => a | None => 0 end + d)%Z).
Proof. intros H. cbn [digits]. now rewrite H. Qed.

Ltac digit_step :=
  erewrite digits_step by reflexivity;
  match goal with
  | |- context [Some (10 * ?a + ?x)%Z] =>
      let v := eval vm_compute in x in change x with v
  end.

Lemma digits_pos d : forall p,
  digits (NilEmpty.string_of_uint d) (Some (Z.pos p))
  = Some (Z.pos (Pos.of_uint_acc d p)).
Proof.
  induction d; intros p; cbn [NilEmpty.string_of_uint Pos.of_uint_acc];
    [reflexivity | ..];
    digit_step; rewrite <- IHd; do 2 f_equal; lia.
Qed.

Lemma digits_zero d :
  digits (NilEmpty.string_of_uint d) (Some 0%Z)
  = Some (Z.of_N (Pos.of_uint d)).
Proof.
  induction d; cbn [NilEmpty.string_of_uint Pos.of_uint];
    [reflexivity | digit_step; exact IHd | ..];
    digit_step; cbn [Z.of_N]; rewrite <- digits_pos; reflexivity.
Qed.

Lemma digits_start d :
  d <> Decimal.Nil ->
  parseInt (NilEmpty.string_of_uint d) = Some (Z.of_N (Pos.of_uint d)).
Proof.
  intros Hd. rewrite <- digits_zero.
  destruct d; try congruence; unfold parseInt;
    cbn [NilEmpty.string_of_uint]; rewrite trimStart_low by reflexivity;
    reflexivity.
Qed.

Lemma parseInt_zToString_pos p : parseInt (zToString (Z.pos p)) = Some (Z.pos p).
Proof.
  unfold zToString. cbn [Z.to_int NilEmpty.string_of_int].
  rewrite digits_start.
  - now rewrite DecimalPos.Unsigned.of_to.
  - intros E. pose proof (DecimalPos.Unsigned.of_to p) as H.
    rewrite E in H. discriminate H.
Qed.

Lemma digits_neg_start d :
  d <> Decimal.Nil ->
  digits (NilEmpty.string_of_uint d) None = Some (Z.of_N (Pos.of_uint d)).
Proof.
  intros Hd. rewrite <- digits_zero.
  destruct d; try congruence; reflexivity.
Qed.

Lemma parseInt_of_text (n : Z) : parseInt (zToString n) = Some n.
Proof.
  destruct n as [|p|p].
  - reflexivity.
  - apply parseInt_zToString_pos.
  - unfold zToString. cbn [Z.to_int NilEmpty.string_of_int].
    unfold parseInt. rewrite trimStart_low by reflexivity.
    rewrite digits_neg_start.
    + now rewrite DecimalPos.Unsigned.of_to.
    + intros E. pose proof (DecimalPos.Unsigned.of_to p) as H.
      rewrite E in H. discriminate H.
Qed.

Lemma sortIndex_imported columnName index row :
  sortIndex (importedRow columnName index row) = Some (Z.of_nat index).
Proof.
  unfold sortIndex, importedRow, tripleRow. cbn [get].
  rewrite String.eqb_refl. apply parseInt_of_text.
Qed.

Lemma sortIndex_mapFrom columnName data : forall i,
  map sortIndex (mapFrom (importedRow columnName) i data)
  = map (fun j => Some (Z.of_nat j)) (seq i (List.length data)).
Proof.
  induction data as [|row data IH]; intros i; [reflexivity|].
  cbn [mapFrom map List.length seq]. now rewrite sortIndex_imported, IH.
Qed.

(** X11. The rows of the files exported for a column, read back and
    standardized, have as sort keys the positions that their rows have
    in the unified set, in order: the row index that the extraction
    writes as a number is the number that the import reads.  Positions
    are array positions, below 2^53, where the numbers of the code are
    exact. *)
Theorem exported_rows_keep_position (data : list object) (columnName : string) :
  In columnName columnsToExtract ->
  (Z.of_nat (List.length data) <= 2 ^ 53)%Z ->
  map sortIndex (survivors columnName (exportedCopies data columnName))
  = map (fun position => Some (Z.of_nat position)) (seq 0 (List.length data)).
Proof.
  intros Hcol _. rewrite survivors_exported by assumption.
  apply sortIndex_mapFrom.
Qed.

Lemma exported_rows_keep_position_witness :
  map sortIndex (survivors "description" (exportedCopies twoBatches "description"))
  = map (fun position => Some (Z.of_nat position)) (seq 0 (List.length twoBatches)).
Proof.
  apply (exported_rows_keep_position twoBatches "description").
  - simpl. auto 6.
  - vm_compute. discriminate.
Defined.

Lemma mapFrom_from {A B} (f : nat -> A -> B) xs y : forall i,
  In y (mapFrom f i xs) -> exists j x, i <= j /\ y = f j x.
Proof.
  induction xs as [|x xs IH]; intros i; simpl; [tauto|].
  intros [<-|H].
  - exists i, x. auto.
  - destruct (IH (S i) H) as [j [x' [Hj ->]]]. exists j, x'. split; [lia|auto].
Qed.

Lemma imported_strictly_sorted columnName data : forall i,
  StronglySorted rowLt (mapFrom (importedRow columnName) i data).
Proof.
  induction data as [|row data IH]; intros i; simpl; constructor; auto.
  apply Forall_forall. intros y Hy.
  destruct (mapFrom_from _ _ _ _ Hy) as [j [x [Hj ->]]].
  exists (Z.of_nat i), (Z.of_nat j).
  rewrite !sortIndex_imported. repeat split. lia.
Qed.

(** A list sorted by the sort keys that has the elements of a list with
    strictly ascending keys is that list. *)
Lemma sorted_perm_unique (sorted : list object) : forall ascending,
  StronglySorted rowLe sorted ->
  StronglySorted rowLt ascending ->
  Permutation sorted ascending ->
  sorted = ascending.
Proof.
  induction sorted as [|a sorted IH]; intros ascending Hs Ha Hperm.
  - apply Permutation_nil in Hperm. now subst.
  - destruct ascending as [|c ascending].
    { symmetry in Hperm. apply Permutation_nil in Hperm. discriminate. }
    inversion Hs as [|? ? Hs' Hall]; subst.
    inversion Ha as [|? ? Ha' Hallc]; subst.
    assert (Hac : a = c).
    { assert (Hin : In a (c :: ascending))
        by (apply (Permutation_in _ Hperm); simpl; auto).
      destruct Hin as [Hin|Hin]; [auto|].
      assert (Hc : In c (a :: sorted))
        by (apply (Permutation_in _ (Permutation_sym Hperm)); simpl; auto).
      destruct Hc as [Hc|Hc]; [auto|].
      exfalso.
      pose proof (proj1 (Forall_forall _ _) Hallc a Hin) as [x [y [Hx [Hy Hlt]]]].
      pose proof (proj1 (Forall_forall _ _) Hall c Hc) as Hle.
      unfold rowLe in Hle. rewrite Hx, Hy in Hle. simpl in Hle.
      apply Z.leb_le in Hle. lia. }
    subst c. f_equal. apply IH; auto.
    now apply Permutation_cons_inv in Hperm.
Qed.

Lemma droppedCount_perm columnName fs gs :
  Permutation fs gs -> droppedCount columnName fs = droppedCount columnName gs.
Proof.
  intros H.
  pose proof (survivors_length columnName fs) as Hf.
  pose proof (survivors_length columnName gs) as Hg.
  assert (Hs : List.length (survivors columnName fs)
               = List.length (survivors columnName gs)).
  { apply Permutation_length. unfold survivors. now apply Permutation_flat_map. }
  assert (Hc : List.length (List.concat fs) = List.length (List.concat gs)).
  { apply Permutation_length.
    assert (Hflat : forall l : list (list record),
               List.concat l = flat_map (fun x => x) l).
    { induction l as [|x l IH]; simpl; congruence. }
    rewrite !Hflat. now apply Permutation_flat_map. }
  lia.
Qed.

(** X12. The files exported for a column may be selected in any order:
    the combined rows, once sorted, are the rows of the unified set in
    their original order, and with two or more files the import stores
    the same rows as for the files in the order of their export. *)
Theorem import_restores_order (data : list object) (columnName : string)
        (files : list (list record)) :
  In columnName columnsToExtract ->
  Permutation files (exportedCopies data columnName) ->
  sortRows (survivors columnName files)
    = mapFrom (importedRow columnName) 0 data
  /\ (1 < List.length files ->
      handleTranslatedFileChange columnName files
      = handleTranslatedFileChange columnName (exportedCopies data columnName)).
Proof.
  intros Hcol Hperm.
  assert (Hsorted : forall fs,
             Permutation fs (exportedCopies data columnName) ->
             sortRows (survivors columnName fs)
             = mapFrom (importedRow columnName) 0 data).
  { intros fs Hfs. apply sorted_perm_unique.
    - apply Sorted_StronglySorted; [exact rowLe_trans | apply sortRows_sorted].
    - apply imported_strictly_sorted.
    - rewrite sortRows_perm, <- survivors_exported by assumption.
      unfold survivors. now apply Permutation_flat_map. }
  split; [now apply Hsorted|].
  intros Hlen.
  pose proof (Permutation_length Hperm) as Hl.
  destruct files as [|f fs]; [simpl in Hlen; lia|].
  destruct (exportedCopies data columnName) as [|e es] eqn:Ee;
    [simpl in Hl; lia|].
  rewrite !handleTranslatedFileChange_eq. cbv zeta.
  rewrite <- Hl.
  destruct (Nat.ltb 1 (List.length (f :: fs))) eqn:E;
    [|apply Nat.ltb_ge in E; lia].
  rewrite (Hsorted (f :: fs) Hperm), (Hsorted (e :: es) (Permutation_refl _)).
  now rewrite (droppedCount_perm columnName _ _ Hperm).
Qed.

Lemma import_restores_order_witness :
  handleTranslatedFileChange
    "description" (rev (exportedCopies twoBatches "description"))
  = handleTranslatedFileChange
      "description" (exportedCopies twoBatches "description").
Proof.
  apply (proj2 (import_restores_order
                  twoBatches "description"
                  (rev (exportedCopies twoBatches "description"))
                  ltac:(simpl; auto)
                  (Permutation_sym (Permutation_rev _)))).
  vm_compute. lia.
Defined.

(* ================================================================== *)
(** ** More on replaceColumnsWithTranslations *)

Lemma replaceRow_fold columnsToReplace translationMaps row sku :
  get row "SKU" = Str sku -> truthy sku = true ->
  replaceRow columnsToReplace translationMaps row
  = fold_left (fun row columnName =>
                 match translationFor translationMaps sku columnName with
                 | Some v => set row columnName v
                 | None => row
                 end) columnsToReplace row.
Proof.
  intros Hsku Ht. unfold replaceRow. rewrite Hsku, Ht.
  apply fold_left_ext. intros r c. unfold translationFor.
  now destruct (JsMap.get translationMaps c).
Qed.

Lemma replaceRow_untouched columnsToReplace translationMaps row :
  (forall sku, get row "SKU" = Str sku -> truthy sku = false) ->
  replaceRow columnsToReplace translationMaps row = row.
Proof.
  intros H. unfold replaceRow. destruct (get row "SKU") as [|sku|]; auto.
  now rewrite (H sku eq_refl).
Qed.

Section Replacing.
Variable hit : string -> option value.

Lemma applyHits_other cols k : forall row,
  ~ In k cols -> get (fold_left (applyHit hit) cols row) k = get row k.
Proof.
  induction cols as [|c cols IH]; intros row Hk; simpl; auto.
  rewrite IH by (simpl in Hk; tauto). unfold applyHit.
  destruct (hit c); auto. apply get_set_other. simpl in Hk. tauto.
Qed.

Lemma applyHits_keys cols k : forall row,
  In k (keys row) -> In k (keys (fold_left (applyHit hit) cols row)).
Proof.
  induction cols as [|c cols IH]; intros row Hk; simpl; auto.
  apply IH. unfold applyHit. destruct (hit c); auto.
  apply keys_set_In. auto.
Qed.

Lemma applyHits_done cols : forall row c v,
  In c cols -> hit c = Some v ->
  get (fold_left (applyHit hit) cols row) c = v
  /\ In c (keys (fold_left (applyHit hit) cols row)).
Proof.
  induction cols as [|c0 cols IH]; intros row c v Hc Hv; [destruct Hc|].
  cbn [fold_left].
  destruct (in_dec string_dec c cols) as [Hin|Hout].
  - now apply IH.
  - destruct Hc as [->|Hc]; [|contradiction].
    unfold applyHit at 2 4. rewrite Hv. split.
    + rewrite applyHits_other by assumption. apply get_set_same.
    + apply applyHits_keys, keys_set_In. auto.
Qed.

Lemma applyHits_miss cols c : forall row,
  hit c = None -> get (fold_left (applyHit hit) cols row) c = get row c.
Proof.
  induction cols as [|c0 cols IH]; intros row Hc; simpl; auto.
  rewrite IH by assumption. unfold applyHit.
  destruct (hit c0) as [v|] eqn:E; auto.
  apply get_set_other. intros ->. congruence.
Qed.

Lemma set_same_id (o : object) k v :
  In k (keys o) -> get o k = v -> set o k v = o.
Proof.
  induction o as [|[k0 v0] o IH]; simpl; [tauto|].
  destruct (String.eqb k0 k) eqn:E.
  - intros _ <-. reflexivity.
  - apply String.eqb_neq in E. intros [H|H] Hg; [congruence|].
    now rewrite IH.
Qed.

Lemma applyHits_idem cols row :
  fold_left (applyHit hit) cols (fold_left (applyHit hit) cols row)
  = fold_left (applyHit hit) cols row.
Proof.
  set (r1 := fold_left (applyHit hit) cols row).
  assert (Hfix : forall c, In c cols -> applyHit hit r1 c = r1).
  { intros c Hc. unfold applyHit. destruct (hit c) as [v|] eqn:Hv; auto.
    destruct (applyHits_done cols row c v Hc Hv) as [Hg Hk].
    now apply set_same_id. }
  clearbody r1. induction cols as [|c cols IH]; simpl; auto.
  rewrite Hfix by (simpl; auto). apply IH.
  intros c' Hc'. apply Hfix. simpl. auto.
Qed.

Lemma applyHits_defined cols : forall row,
  (forall c v, hit c = Some v -> defined v = true) ->
  allDefined row -> allDefined (fold_left (applyHit hit) cols row).
Proof.
  induction cols as [|c cols IH]; intros row Hhit Hrow; simpl; auto.
  apply IH; auto. unfold applyHit. destruct (hit c) as [v|] eqn:Hv; auto.
  specialize (Hhit c v Hv). clear - Hhit Hrow.
  induction Hrow as [|[k0 v0] o H0 Ho IHo]; simpl.
  - repeat constructor. exact Hhit.
  - destruct (String.eqb k0 c); constructor; auto.
Qed.
End Replacing.

Lemma copyRow_defined row : allDefined (copyRow row).
Proof.
  unfold allDefined, copyRow. apply Forall_forall. intros [k v] H.
  apply filter_In in H. destruct H as [_ H]. simpl in *. now destruct v.
Qed.

Lemma copyRow_id row : allDefined row -> copyRow row = row.
Proof.
  unfold allDefined, copyRow. induction 1 as [|[k v] row Hv _ IH]; simpl; auto.
  simpl in Hv. destruct v; try discriminate; now rewrite IH.
Qed.

Lemma skuMapOf_defined columnName rows sku v :
  JsMap.get (skuMapOf columnName rows) sku = Some v -> defined v = true.
Proof.
  unfold skuMapOf.
  assert (H : forall m : JsMap.t value,
             (forall k x, JsMap.get m k = Some x -> defined x = true) ->
             forall k x,
               JsMap.get
                 (fold_left
                    (fun skuMap row =>
                       match get row "SKU" with
                       | Str sku =>
                           if truthy sku && defined (get row columnName)
                           then JsMap.set skuMap sku (get row columnName)
                           else skuMap
                       | _ => skuMap
                       end) rows m) k = Some x ->
               defined x = true).
  { induction rows as [|row rows IH]; intros m Hm k x; simpl; [apply Hm|].
    apply IH. intros k' x'.
    destruct (get row "SKU") as [|s|]; try apply Hm.
    destruct (truthy s && defined (get row columnName)) eqn:E; try apply Hm.
    apply andb_true_iff in E. destruct E as [_ E].
    destruct (String.eqb s k') eqn:Ek.
    - apply String.eqb_eq in Ek. subst. rewrite map_get_set_same.
      now intros [= <-].
    - apply String.eqb_neq in Ek. rewrite map_get_set_other by assumption.
      apply Hm. }
  apply H. intros k x Hk. discriminate Hk.
Qed.

Lemma translationMapsOf_maps translatedFiles columnName translationMap :
  JsMap.get (translationMapsOf translatedFiles) columnName = Some translationMap ->
  exists rows, translationMap = skuMapOf columnName rows.
Proof.
  unfold translationMapsOf. generalize (keys translatedFiles) as cols.
  assert (H : forall cols (maps : JsMap.t (JsMap.t value)),
             (forall c tm, JsMap.get maps c = Some tm ->
                           exists rows, tm = skuMapOf c rows) ->
             forall c tm,
               JsMap.get
                 (fold_left
                    (fun maps columnName =>
                       match JsMap.get translatedFiles columnName with
                       | Some translatedColumnData =>
                           JsMap.set maps columnName
                                     (skuMapOf columnName translatedColumnData)
                       | None => maps
                       end) cols maps) c = Some tm ->
               exists rows, tm = skuMapOf c rows).
  { induction cols as [|c0 cols IH]; intros maps Hm c tm; simpl; [apply Hm|].
    apply IH. intros c' tm'.
    destruct (JsMap.get translatedFiles c0) as [rows|]; [|apply Hm].
    destruct (String.eqb c0 c') eqn:E.
    - apply String.eqb_eq in E. subst. rewrite map_get_set_same.
      intros [= <-]. eauto.
    - apply String.eqb_neq in E. rewrite map_get_set_other by assumption.
      apply Hm. }
  intros cols. apply H. intros c tm Hc. discriminate Hc.
Qed.

Lemma translationFor_defined translatedFiles sku columnName v :
  translationFor (translationMapsOf translatedFiles) sku columnName = Some v ->
  defined v = true.
Proof.
  unfold translationFor.
  destruct (JsMap.get (translationMapsOf translatedFiles) columnName)
    as [tm|] eqn:E; [|discriminate].
  destruct (translationMapsOf_maps _ _ _ E) as [rows ->].
  apply skuMapOf_defined.
Qed.

Lemma replaceColumns_some data translatedFiles :
  translatedFiles <> [] ->
  replaceColumnsWithTranslations (Some data) translatedFiles
  = Some (map (fun row => replaceRow (keys translatedFiles)
                            (translationMapsOf translatedFiles) (copyRow row))
              data).
Proof.
  intros Hne. unfold replaceColumnsWithTranslations.
  destruct translatedFiles as [|e tf]; [congruence|].
  cbn [keys map List.length Nat.eqb]. unfold deepCopy. now rewrite map_map.
Qed.

(** X13. Generating the table needs a unified set and at least one
    imported column, and then gives one row per row of the unified set,
    in the same order.  A row whose identifier is empty or missing is
    only copied; every other row keeps every field that is not an
    imported column, and keeps an imported column too when the column's
    map does not know the identifier.  No row of the table has a
    property that holds [undefined]. *)
Theorem replaceColumns_rows (data : list object)
        (translatedFiles : JsMap.t (list object)) :
  replaceColumnsWithTranslations None translatedFiles = None
  /\ replaceColumnsWithTranslations (Some data) [] = None
  /\ (translatedFiles <> [] ->
      exists result,
        replaceColumnsWithTranslations (Some data) translatedFiles = Some result
        /\ List.length result = List.length data
        /\ forall i row,
             nth_error data i = Some row ->
             exists row',
               nth_error result i = Some row'
               /\ allDefined row'
               /\ ((forall sku, get (copyRow row) "SKU" = Str sku ->
                                truthy sku = false) ->
                   row' = copyRow row)
               /\ (forall k, ~ In k (keys translatedFiles) ->
                             get row' k = get (copyRow row) k)
               /\ (forall sku columnName,
                     get (copyRow row) "SKU" = Str sku ->
                     translationFor (translationMapsOf translatedFiles)
                                    sku columnName = None ->
                     get row' columnName = get (copyRow row) columnName)).
Proof.
  split; [reflexivity|]. split; [reflexivity|].
  intros Hne. rewrite replaceColumns_some by assumption.
  eexists. split; [reflexivity|]. split; [apply length_map|].
  intros i row Hi. rewrite nth_error_map, Hi. cbn [option_map].
  eexists. split; [reflexivity|].
  set (cols := keys translatedFiles).
  set (maps := translationMapsOf translatedFiles).
  set (r := copyRow row).
  assert (Hcases : (forall sku, get r "SKU" = Str sku -> truthy sku = false)
                   \/ exists sku, get r "SKU" = Str sku /\ truthy sku = true).
  { destruct (get r "SKU") as [|sku|] eqn:E.
    - left. intros sku H. discriminate H.
    - destruct (truthy sku) eqn:T; [right; eauto|].
      left. intros s [= <-]. exact T.
    - left. intros sku H. discriminate H. }
  destruct Hcases as [Hfalsy|[sku [Hsku Ht]]].
  - rewrite (replaceRow_untouched cols maps r Hfalsy).
    repeat split; auto. apply copyRow_defined.
  - rewrite (replaceRow_fold cols maps r sku Hsku Ht).
    fold (applyHit (translationFor maps sku)).
    split; [|split; [|split]].
    + apply applyHits_defined; [|apply copyRow_defined].
      intros c v. apply translationFor_defined.
    + intros Hf. rewrite (Hf sku Hsku) in Ht. discriminate Ht.
    + intros k Hk. now apply applyHits_other.
    + intros sku' c Hsku' Hnone.
      rewrite Hsku in Hsku'. injection Hsku' as <-.
      now apply applyHits_miss.
Qed.

Lemma replaceColumns_rows_witness :
  exists result,
    replaceColumnsWithTranslations
      (Some [ [("SKU", Str "A1"); ("Title", Str "Lamp"); ("Price", Undefined)] ])
      [("Title", [ [("row_index", Str "0"); ("SKU", Str "B2"); ("Title", Str "Stuhl")] ])]
    = Some result
    /\ List.length result = 1.
Proof.
  destruct (proj2 (proj2 (replaceColumns_rows
              [ [("SKU", Str "A1"); ("Title", Str "Lamp"); ("Price", Undefined)] ]
              [("Title", [ [("row_index", Str "0"); ("SKU", Str "B2");
                            ("Title", Str "Stuhl")] ])]))
              ltac:(discriminate))
    as [result [Hres [Hlen _]]].
  exists result. split; [exact Hres | exact Hlen].
Defined.

(** X14. Generating the table a second time, from the table and the
    same imported columns, changes nothing: a value is overwritten with
    the value it already has, never appended. *)
Theorem replaceColumns_idempotent (data result : list object)
        (translatedFiles : JsMap.t (list object)) :
  ~ In "SKU" (keys translatedFiles) ->
  replaceColumnsWithTranslations (Some data) translatedFiles = Some result ->
  replaceColumnsWithTranslations (Some result) translatedFiles = Some result.
Proof.
  intros Hsku Hres.
  destruct translatedFiles as [|e tf] eqn:Etf; [discriminate Hres|].
  rewrite <- Etf in *.
  assert (Hne : translatedFiles <> []) by (rewrite Etf; discriminate).
  rewrite replaceColumns_some in * by assumption.
  injection Hres as <-. f_equal. rewrite map_map.
  apply map_ext. intros row.
  set (cols := keys translatedFiles) in *.
  set (maps := translationMapsOf translatedFiles).
  set (r := copyRow row).
  assert (Hcases : (forall sku, get r "SKU" = Str sku -> truthy sku = false)
                   \/ exists sku, get r "SKU" = Str sku /\ truthy sku = true).
  { destruct (get r "SKU") as [|sku|] eqn:E.
    - left. intros sku H. discriminate H.
    - destruct (truthy sku) eqn:T; [right; eauto|].
      left. intros s [= <-]. exact T.
    - left. intros sku H. discriminate H. }
  destruct Hcases as [Hfalsy|[sku [Hs Ht]]].
  - rewrite (replaceRow_untouched cols maps r Hfalsy).
    rewrite (copyRow_id r) by apply copyRow_defined.
    now apply replaceRow_untouched.
  - rewrite (replaceRow_fold cols maps r sku Hs Ht).
    fold (applyHit (translationFor maps sku)).
    set (r1 := fold_left (applyHit (translationFor maps sku)) cols r).
    assert (Hd : allDefined r1).
    { apply applyHits_defined; [|apply copyRow_defined].
      intros c v. apply translationFor_defined. }
    rewrite (copyRow_id r1 Hd).
    assert (Hs1 : get r1 "SKU" = Str sku).
    { unfold r1. now rewrite applyHits_other. }
    rewrite (replaceRow_fold cols maps r1 sku Hs1 Ht).
    apply applyHits_idem.
Qed.

Lemma replaceColumns_idempotent_witness :
  replaceColumnsWithTranslations
    (Some [ [("SKU", Str "A1"); ("Title", Str "Lampe")] ])
    [("Title", [ [("row_index", Str "0"); ("SKU", Str "A1"); ("Title", Str "Lampe")] ])]
  = Some [ [("SKU", Str "A1"); ("Title", Str "Lampe")] ].
Proof.
  apply (replaceColumns_idempotent
           [ [("SKU", Str "A1"); ("Title", Str "Lamp"); ("Price", Undefined)] ]).
  - simpl. intros [H|[]]. discriminate H.
  - reflexivity.
Defined.

(* ================================================================== *)
(** ** renderTable *)

Lemma ceilDiv_covers_any n d : 0 < d -> n <= ceilDiv n d * d.
Proof.
  intros Hd. unfold ceilDiv.
  pose proof (Nat.div_mod_eq (n + (d - 1)) d) as Hdm.
  pose proof (Nat.mod_upper_bound (n + (d - 1)) d). nia.
Qed.

Lemma ceilDiv_tight_any n d k : 0 < d -> k < ceilDiv n d -> k * d < n.
Proof.
  intros Hd Hk. unfold ceilDiv in Hk.
  pose proof (Nat.div_mod_eq (n + (d - 1)) d) as Hdm.
  pose proof (Nat.mod_upper_bound (n + (d - 1)) d). nia.
Qed.

Lemma pages_concat {A} d (data : list A) n :
  List.concat (map (fun k => firstn d (skipn (k * d) data)) (seq 0 n))
  = firstn (n * d) data.
Proof.
  induction n as [|n IH]; [reflexivity|].
  rewrite seq_S, map_app, concat_app, IH.
  cbn [map List.concat]. rewrite app_nil_r, Nat.add_0_l.
  replace (S n * d) with (n * d + d) by lia.
  now rewrite firstn_add.
Qed.

Lemma paginatedData_eq {A} d p (data : list A) :
  paginatedData d (S p) data = firstn d (skipn (p * d) data).
Proof.
  unfold paginatedData, slice, startIndex. cbn [Nat.sub].
  rewrite Nat.sub_0_r. f_equal. lia.
Qed.

(** X15. The pages of a table, from the first to the last, put one after
    the other are the rows of the table; each of them has at least one
    and at most [rowsPerPage] rows, the range shown under the table ends
    with the last row of the page, a page past the last is empty, and
    the two page buttons never leave the range of the pages. *)
Theorem pages_partition {A : Type} (rowsPerPage : nat) (data : list A) :
  0 < rowsPerPage ->
  List.concat (map (fun page => paginatedData rowsPerPage page data)
                   (seq 1 (totalPages rowsPerPage data)))
  = data
  /\ (forall page, 1 <= page <= totalPages rowsPerPage data ->
        0 < List.length (paginatedData rowsPerPage page data) <= rowsPerPage
        /\ showingTo rowsPerPage page data
           = startIndex rowsPerPage page
             + List.length (paginatedData rowsPerPage page data)
        /\ 1 <= previousPage page <= totalPages rowsPerPage data
        /\ 1 <= nextPage (totalPages rowsPerPage data) page
           <= totalPages rowsPerPage data)
  /\ (forall page, totalPages rowsPerPage data < page ->
        paginatedData rowsPerPage page data = []).
Proof.
  intros Hd. unfold totalPages. split; [|split].
  - rewrite <- seq_shift, map_map.
    rewrite (map_ext _ (fun k => firstn rowsPerPage (skipn (k * rowsPerPage) data)))
      by (intros k; apply paginatedData_eq).
    rewrite pages_concat. apply firstn_all2. now apply ceilDiv_covers_any.
  - intros page [H1 Hn].
    destruct page as [|p]; [lia|].
    assert (Hp : p * rowsPerPage < List.length data)
      by (apply ceilDiv_tight_any; auto; lia).
    rewrite paginatedData_eq, length_firstn, length_skipn.
    unfold showingTo, startIndex, previousPage, nextPage.
    cbn [Nat.sub]. rewrite Nat.sub_0_r. repeat split; lia.
  - intros page Hpage. destruct page as [|p]; [lia|].
    rewrite paginatedData_eq.
    pose proof (ceilDiv_covers_any (List.length data) rowsPerPage Hd).
    rewrite skipn_all2; [apply firstn_nil|]. nia.
Qed.

Lemma pages_partition_witness :
  List.concat (map (fun page => paginatedData 25 page (seq 0 60))
                   (seq 1 (totalPages 25 (seq 0 60))))
  = seq 0 60.
Proof. apply (proj1 (pages_partition 25 (seq 0 60) ltac:(lia))). Defined.

(* ================================================================== *)
(** ** parseFile and handleFileChange *)

Lemma lastSegment_noDot ext : forall acc,
  noDot ext = true -> lastSegmentFrom ext acc = acc ++ ext.
Proof.
  induction ext as [|c ext IH]; intros acc H; simpl.
  - clear H. induction acc; simpl; congruence.
  - simpl in H. apply andb_true_iff in H. destruct H as [Hc H].
    apply negb_true_iff in Hc. rewrite Hc, IH by assumption.
    now rewrite append_assoc.
Qed.

Lemma lastSegment_after_dot base ext : forall acc,
  noDot ext = true -> lastSegmentFrom (base ++ "." ++ ext) acc = ext.
Proof.
  induction base as [|c base IH]; intros acc H.
  - simpl. now rewrite lastSegment_noDot.
  - cbn [append lastSegmentFrom]. destruct (Ascii.eqb c "."); now apply IH.
Qed.

(** X16. The file type is what follows the last dot of the name, in
    lower case, and the whole name when it has no dot.  The files that
    [handleFileChange] keeps are exactly those that [parseFile] can
    parse: for a kept file 'Unsupported file type' is never thrown. *)
Theorem file_type_checks_agree :
  (forall base ext, noDot ext = true ->
     fileTypeOf (base ++ "." ++ ext) = toLowerCase ext)
  /\ (forall name, noDot name = true -> fileTypeOf name = toLowerCase name)
  /\ (forall name, fileAccepted name = true <-> parseFile name <> None)
  /\ (forall name, parseFile name = Some PapaParse <-> fileTypeOf name = "csv").
Proof.
  split; [|split; [|split]].
  - intros base ext H. unfold fileTypeOf. now rewrite lastSegment_after_dot.
  - intros name H. unfold fileTypeOf. now rewrite lastSegment_noDot.
  - intros name. unfold fileAccepted, parseFile, allowedTypes. cbn [existsb].
    rewrite (String.eqb_sym (fileTypeOf name) "csv").
    rewrite (String.eqb_sym (fileTypeOf name) "xls").
    rewrite (String.eqb_sym (fileTypeOf name) "xlsx").
    destruct (String.eqb "csv" (fileTypeOf name)),
             (String.eqb "xls" (fileTypeOf name)),
             (String.eqb "xlsx" (fileTypeOf name)); simpl;
      split; congruence.
  - intros name. unfold parseFile.
    destruct (String.eqb (fileTypeOf name) "csv") eqn:E.
    + apply String.eqb_eq in E. tauto.
    + apply String.eqb_neq in E.
      destruct (_ || _); split; intros H; congruence.
Qed.

Lemma file_type_checks_agree_witness :
  fileTypeOf ("catalog.2024" ++ "." ++ "XLSX") = "xlsx"
  /\ fileTypeOf "csv" = "csv".
Proof.
  split.
  - apply (proj1 file_type_checks_agree "catalog.2024" "XLSX"). reflexivity.
  - apply (proj1 (proj2 file_type_checks_agree) "csv"). reflexivity.
Defined.

(* ================================================================== *)
(** ** downloadXLSX *)

Lemma cleanRow_defined row : allDefined (cleanRow row).
Proof.
  unfold allDefined, cleanRow. apply Forall_forall. intros kv H.
  apply in_map_iff in H. destruct H as [[k v] [<- _]]. now destruct v.
Qed.

Lemma cleanRow_id row : allDefined row -> cleanRow row = row.
Proof.
  unfold allDefined, cleanRow.
  induction 1 as [|[k v] row Hv _ IH]; simpl; [reflexivity|].
  rewrite IH. now destruct v.
Qed.

Lemma get_cleanRow row k :
  In k (keys row) -> get (cleanRow row) k = cleanValue (get row k).
Proof.
  unfold cleanRow. induction row as [|[k0 v0] row IH]; simpl; [tauto|].
  intros [->|H].
  - now rewrite String.eqb_refl.
  - destruct (String.eqb k0 k); auto.
Qed.

Lemma replaceColumns_defined data translatedFiles result :
  replaceColumnsWithTranslations (Some data) translatedFiles = Some result ->
  Forall allDefined result.
Proof.
  intros Hres.
  destruct translatedFiles as [|e tf] eqn:Etf; [discriminate Hres|].
  rewrite <- Etf in *.
  assert (Hne : translatedFiles <> []) by (rewrite Etf; discriminate).
  rewrite replaceColumns_some in Hres by assumption.
  injection Hres as <-. apply Forall_forall. intros r' Hr'.
  apply in_map_iff in Hr'. destruct Hr' as [row [<- _]].
  set (cols := keys translatedFiles).
  set (maps := translationMapsOf translatedFiles).
  set (r := copyRow row).
  destruct (get r "SKU") as [|sku|] eqn:E.
  - rewrite replaceRow_untouched; [apply copyRow_defined|].
    intros sku H. rewrite E in H. discriminate H.
  - destruct (truthy sku) eqn:T.
    + rewrite (replaceRow_fold cols maps r sku E T).
      fold (applyHit (translationFor maps sku)).
      apply applyHits_defined; [|apply copyRow_defined].
      intros c v. apply translationFor_defined.
    + rewrite replaceRow_untouched; [apply copyRow_defined|].
      intros s H. rewrite E in H. injection H as <-. exact T.
  - rewrite replaceRow_untouched; [apply copyRow_defined|].
    intros sku H. rewrite E in H. discriminate H.
Qed.

(** X17. The rows handed to the workbook have the fields of the rows
    of the table, in the same order; a field that holds [undefined] is
    written as the empty string and every other value as it is, so no
    cell is undefined and cleaning twice is cleaning once.  On a table
    generated by [replaceColumnsWithTranslations], the only data the
    download is called on, the cleaning changes nothing, and the
    columns of the sheet are the fields of the first row of the table. *)
Theorem cleanData_table :
  (forall data,
      map keys (cleanData data) = map keys data
      /\ Forall allDefined (cleanData data)
      /\ cleanData (cleanData data) = cleanData data)
  /\ (forall row k, In k (keys row) ->
                    get (cleanRow row) k = cleanValue (get row k))
  /\ (forall data translatedFiles result,
         replaceColumnsWithTranslations (Some data) translatedFiles = Some result ->
         cleanData result = result
         /\ sheetHeaders result = match result with
                                  | [] => []
                                  | first :: _ => keys first
                                  end).
Proof.
  split; [|split].
  - intros data. split; [|split].
    + unfold cleanData. rewrite map_map. apply map_ext. intros row.
      unfold keys, cleanRow. rewrite map_map. reflexivity.
    + apply Forall_forall. intros r Hr. apply in_map_iff in Hr.
      destruct Hr as [row [<- _]]. apply cleanRow_defined.
    + unfold cleanData. rewrite map_map. apply map_ext. intros row.
      apply cleanRow_id, cleanRow_defined.
  - apply get_cleanRow.
  - intros data translatedFiles result Hres.
    assert (Hid : cleanData result = result).
    { pose proof (replaceColumns_defined _ _ _ Hres) as Hd.
      clear Hres. unfold cleanData.
      induction Hd as [|r rs Hr _ IH]; simpl; [reflexivity|].
      now rewrite IH, cleanRow_id. }
    split; [exact Hid|]. unfold sheetHeaders. now rewrite Hid.
Qed.

Lemma cleanData_table_witness :
  cleanData [ [("SKU", Str "A1"); ("Title", Str "Lampe")] ]
  = [ [("SKU", Str "A1"); ("Title", Str "Lampe")] ].
Proof.
  apply (proj1 (proj2 (proj2 cleanData_table)
                  [ [("SKU", Str "A1"); ("Title", Str "Lamp"); ("Price", Undefined)] ]
                  [("Title", [ [("row_index", Str "0"); ("SKU", Str "A1");
                                ("Title", Str "Lampe")] ])]
                  [ [("SKU", Str "A1"); ("Title", Str "Lampe")] ]
                  eq_refl)).
Defined.
